(** * Knotty MCP: spec acquisition, normalization, cache and search

    A shallow embedding of the TypeScript sources

      - [parser/parser.ts]   (class [OpenAPIParser])
      - [parser/types.ts]    (the normalized model)
      - [fetcher/fetcher.ts] (class [OpenAPIFetcher], [OpenAPIFetchError])
      - [tools/handler.ts]   (class [ToolHandler])
      - [cache/cache.ts]     (class [SpecCache])
      - [index.ts]           (the limits set by the tool dispatch)

    and the properties of the specification proved about it.

    Conventions of the embedding.

      - A document handed to the parser is whatever [JSON.parse] or
        [yaml.load] returned: the type [json] below, read with the dynamic
        semantics of JavaScript (truthiness, optional chaining, the [in]
        operator, [Object.entries], iteration).  Operations that raise a
        [TypeError] in JavaScript return [Throw TypeError].
      - Only own properties are modelled: members inherited from
        [Object.prototype], [Array.prototype] or [String.prototype] other
        than [length] are not looked up.  Numbers are integer literals; the
        code never computes with the numbers of a document.
      - Strings are sequences of 8-bit characters; [toLowerCase] and [trim]
        act on the ASCII range.
      - An object is the list of its entries in [Object.entries] order.
      - [SpecCache.refresh] is asynchronous: its calls are tasks of an
        event loop whose events are the beginning of a call, the
        settlement of the producer, the 100 ms poll of a waiting call and
        the passing of time.

    Layout: the code ([JsString], [Js], the normalized model, [Search],
    [OpenAPIParser], [OpenAPIFetcher], [SpecCache], [SpecCacheMetadata],
    [FetcherHelpers], [ToolHandler], [Dispatch]); the vocabulary of the
    specification and sample documents; lemmas; the unit tests of the
    repository; the properties of the specification (C1 to C10), and
    further properties of the code (X1 to X30). *)

From Stdlib Require Import String Ascii List ZArith Bool Arith Lia.
From Stdlib Require Import Permutation Sorted DecimalString.
From Equations Require Import Equations.
Import ListNotations.

#[local] Set Warnings "-register-all".

Local Open Scope string_scope.
Local Open Scope list_scope.

(* ===================================================================== *)
(** * JavaScript strings *)
(* ===================================================================== *)

Module JsString.

(** The ASCII members of the [WhiteSpace] and [LineTerminator]
    productions: TAB, LF, VT, FF, CR and SPACE. *)
Definition is_space (c : ascii) : bool :=
  let n := nat_of_ascii c in
  ((n =? 32) || ((9 <=? n) && (n <=? 13)))%nat.

Definition lower_char (c : ascii) : ascii :=
  let n := nat_of_ascii c in
  if ((65 <=? n) && (n <=? 90))%nat then ascii_of_nat (n + 32) else c.

Fixpoint toLowerCase (s : string) : string :=
  match s with
  | EmptyString => EmptyString
  | String c r => String (lower_char c) (toLowerCase r)
  end.

Fixpoint trimStart (s : string) : string :=
  match s with
  | EmptyString => EmptyString
  | String c r => if is_space c then trimStart r else s
  end.

Fixpoint trimEnd (s : string) : string :=
  match s with
  | EmptyString => EmptyString
  | String c r =>
      match trimEnd r with
      | EmptyString => if is_space c then EmptyString else String c EmptyString
      | r' => String c r'
      end
  end.

Definition trim (s : string) : string := trimEnd (trimStart s).

(** [s.startsWith(p)] *)
Definition startsWith (s p : string) : bool := String.prefix p s.

(** [s.includes(sub)] *)
Fixpoint includes (s sub : string) : bool :=
  String.prefix sub s ||
  match s with
  | EmptyString => false
  | String _ r => includes r sub
  end.

(** [s.slice(n)] for [0 <= n] *)
Fixpoint slice (n : nat) (s : string) : string :=
  match n, s with
  | O, _ => s
  | S _, EmptyString => EmptyString
  | S k, String _ r => slice k r
  end.

(** [s.split(sep)] for a one-character separator. *)
Fixpoint split_from (sep : ascii) (acc : string) (s : string) : list string :=
  match s with
  | EmptyString => [acc]
  | String c r =>
      if Ascii.eqb c sep then acc :: split_from sep EmptyString r
      else split_from sep (acc ++ String c EmptyString) r
  end.

Definition split (sep : ascii) (s : string) : list string :=
  split_from sep EmptyString s.

(** [s.split(/\s+/)]: the pieces between maximal runs of white space. *)
Fixpoint split_ws_from (in_sep : bool) (acc : string) (s : string)
  : list string :=
  match s with
  | EmptyString => [acc]
  | String c r =>
      if is_space c then
        if in_sep then split_ws_from true acc r
        else acc :: split_ws_from true EmptyString r
      else split_ws_from false (acc ++ String c EmptyString) r
  end.

Definition split_ws (s : string) : list string :=
  split_ws_from false EmptyString s.

Definition string_of_nat (n : nat) : string :=
  NilZero.string_of_uint (Nat.to_uint n).

Definition string_of_Z (z : Z) : string :=
  NilZero.string_of_int (Z.to_int z).

Fixpoint chars (s : string) : list string :=
  match s with
  | EmptyString => []
  | String c r => String c EmptyString :: chars r
  end.

Fixpoint join (sep : string) (l : list string) : string :=
  match l with
  | [] => EmptyString
  | [x] => x
  | x :: r => x ++ sep ++ join sep r
  end.

End JsString.

(* ===================================================================== *)
(** * JavaScript values and exceptions *)
(* ===================================================================== *)

Inductive json : Type :=
| JUndef
| JNull
| JBool (b : bool)
| JNum (n : Z)
| JStr (s : string)
| JArr (xs : list json)
| JObj (kvs : list (string * json)).

Inductive exn : Type :=
| TypeError.

Inductive result (A : Type) : Type :=
| Ok (a : A)
| Throw (e : exn).

Arguments Ok {A} a.
Arguments Throw {A} e.

Definition bind {A B} (m : result A) (k : A -> result B) : result B :=
  match m with
  | Ok a => k a
  | Throw e => Throw e
  end.

Declare Scope js_scope.
Delimit Scope js_scope with js.
Notation "x <- m ;; k" := (bind m (fun x => k))
  (at level 61, m at next level, right associativity) : js_scope.
Local Open Scope js_scope.

Fixpoint mapM {A B} (f : A -> result B) (l : list A) : result (list B) :=
  match l with
  | [] => Ok []
  | a :: r => b <- f a ;; bs <- mapM f r ;; Ok (b :: bs)
  end.

(** [xs.some(f)]: stops at the first element on which [f] holds. *)
Fixpoint someM {A} (f : A -> result bool) (l : list A) : result bool :=
  match l with
  | [] => Ok false
  | a :: r => b <- f a ;; if b then Ok true else someM f r
  end.

(** [xs.filter(p)] for a callback that may raise. *)
Fixpoint filterM {A} (p : A -> result bool) (l : list A) : result (list A) :=
  match l with
  | [] => Ok []
  | a :: r =>
      b <- p a ;; rs <- filterM p r ;; Ok (if b then a :: rs else rs)
  end.

(** [xs.find(p)] for a callback that may raise. *)
Fixpoint findM {A} (p : A -> result bool) (l : list A) : result (option A) :=
  match l with
  | [] => Ok None
  | a :: r => b <- p a ;; if b then Ok (Some a) else findM p r
  end.

Module Js.
Import JsString.

(** [ToBoolean] *)
Definition truthy (v : json) : bool :=
  match v with
  | JUndef | JNull => false
  | JBool b => b
  | JNum n => negb (n =? 0)%Z
  | JStr s => negb (s =? "")
  | JArr _ | JObj _ => true
  end.

(** [a || b] *)
Definition or_else (a b : json) : json := if truthy a then a else b.

Fixpoint indexed_from {A} (i : nat) (l : list A) : list (string * A) :=
  match l with
  | [] => []
  | a :: r => (string_of_nat i, a) :: indexed_from (S i) r
  end.

Definition indexed {A} (l : list A) : list (string * A) := indexed_from 0 l.

Fixpoint assoc {A} (k : string) (l : list (string * A)) : option A :=
  match l with
  | [] => None
  | (k', a) :: r => if k' =? k then Some a else assoc k r
  end.

(** Own enumerable entries, [Object.entries(v)]. *)
Definition entries (v : json) : result (list (string * json)) :=
  match v with
  | JUndef | JNull => Throw TypeError
  | JBool _ | JNum _ => Ok []
  | JStr s => Ok (indexed (map JStr (chars s)))
  | JArr xs => Ok (indexed xs)
  | JObj kvs => Ok kvs
  end.

(** [Object.keys(v)] *)
Definition keys (v : json) : result (list string) :=
  es <- entries v ;; Ok (map fst es).

Definition of_option (o : option json) : json :=
  match o with Some v => v | None => JUndef end.

Definition length_of {A} (l : list A) : json := JNum (Z.of_nat (length l)).

(** Property read [v[k]] (also written [v.k]). *)
Definition get (v : json) (k : string) : result json :=
  match v with
  | JUndef | JNull => Throw TypeError
  | JBool _ | JNum _ => Ok JUndef
  | JStr s =>
      if k =? "length" then Ok (length_of (chars s))
      else Ok (of_option (assoc k (indexed (map JStr (chars s)))))
  | JArr xs =>
      if k =? "length" then Ok (length_of xs)
      else Ok (of_option (assoc k (indexed xs)))
  | JObj kvs => Ok (of_option (assoc k kvs))
  end.

(** Optional chaining [v?.[k]] (also written [v?.k]). *)
Definition get_opt (v : json) (k : string) : result json :=
  match v with
  | JUndef | JNull => Ok JUndef
  | _ => get v k
  end.

(** [k in v] *)
Definition has (k : string) (v : json) : result bool :=
  match v with
  | JArr xs =>
      Ok ((k =? "length") ||
          match assoc k (indexed xs) with Some _ => true | None => false end)
  | JObj kvs =>
      Ok match assoc k kvs with Some _ => true | None => false end
  | _ => Throw TypeError
  end.

(** [typeof v === 'object'] *)
Definition is_object (v : json) : bool :=
  match v with
  | JNull | JArr _ | JObj _ => true
  | _ => false
  end.

(** The elements produced by iterating [v] ([for ... of], spread). *)
Definition iterate (v : json) : result (list json) :=
  match v with
  | JArr xs => Ok xs
  | JStr s => Ok (map JStr (chars s))
  | _ => Throw TypeError
  end.

(** The receiver of an [Array.prototype] method such as [map] or [find]:
    anything else has no such method and the call raises. *)
Definition as_array (v : json) : result (list json) :=
  match v with
  | JArr xs => Ok xs
  | _ => Throw TypeError
  end.

(** [ToString], as applied by template literals. *)
Fixpoint toStr (v : json) : string :=
  match v with
  | JUndef => "undefined"
  | JNull => "null"
  | JBool true => "true"
  | JBool false => "false"
  | JNum n => string_of_Z n
  | JStr s => s
  | JArr xs =>
      join ","
        (map (fun x => match x with
                       | JUndef | JNull => EmptyString
                       | _ => toStr x
                       end) xs)
  | JObj _ => "[object Object]"
  end.

(** Strict equality with a string literal, [v === 'lit']. *)
Definition is_str (v : json) (lit : string) : bool :=
  match v with
  | JStr s => s =? lit
  | _ => false
  end.

Definition json_of_bool (b : bool) : json := JBool b.

End Js.

(* ===================================================================== *)
(** * The normalized model ([parser/types.ts]) *)
(* ===================================================================== *)

(** Fields that the parser copies from the document hold the copied
    [json] value; an absent optional field is [JUndef]. *)

Inductive NormalizedSchema : Type := mkSchema {
  schema_type : json;
  schema_format : json;
  schema_description : json;
  schema_required : json;
  schema_properties : option (list (string * NormalizedSchema));
  schema_items : option NormalizedSchema;
  schema_enum : json;
  schema_default : json;
  schema_example : json;
  schema_minimum : json;
  schema_maximum : json;
  schema_minLength : json;
  schema_maxLength : json;
  schema_pattern : json;
  schema_nullable : bool;
  schema_oneOf : option (list NormalizedSchema);
  schema_anyOf : option (list NormalizedSchema);
  schema_allOf : option (list NormalizedSchema);
  schema_ref : option string
}.

Record NormalizedParameter : Type := mkParameter {
  param_name : json;
  param_description : json;
  param_required : json;
  param_deprecated : json;
  param_schema : NormalizedSchema;
  param_example : json
}.

Record NormalizedRequestBody : Type := mkRequestBody {
  body_description : json;
  body_required : json;
  body_contentTypes : list string;
  body_schema : NormalizedSchema;
  body_examples : json
}.

Record NormalizedResponse : Type := mkResponse {
  resp_statusCode : string;
  resp_description : json;
  resp_contentTypes : list string;
  resp_schema : option NormalizedSchema
}.

Record NormalizedSecurity : Type := mkSecurity {
  sec_type : string;
  sec_name : string;
  sec_in : json;
  sec_scheme : json;
  sec_description : json;
  sec_scopes : json
}.

Record NormalizedEndpoint : Type := mkEndpoint {
  path : string;
  method : string;
  operationId : json;
  summary : json;
  description : json;
  tags : json;
  deprecated : json;
  pathParameters : list NormalizedParameter;
  queryParameters : list NormalizedParameter;
  headerParameters : list NormalizedParameter;
  cookieParameters : list NormalizedParameter;
  requestBody : option NormalizedRequestBody;
  responses : list NormalizedResponse;
  security : list NormalizedSecurity
}.

Record Server : Type := mkServer {
  server_url : json;
  server_description : json
}.

Record NormalizedApiSpec : Type := mkApiSpec {
  title : json;
  version : json;
  spec_description : json;
  baseUrl : json;
  servers : list Server;
  endpoints : list NormalizedEndpoint;
  securitySchemes : list (string * NormalizedSecurity);
  totalEndpoints : nat;
  fetchedAt : string;
  sourceUrl : string;
  specVersion : string
}.

(* ===================================================================== *)
(** * Search ([tools/handler.ts], [ToolHandler.searchEndpoints]) *)
(* ===================================================================== *)

Module Search.
Import JsString Js.

(** [Array.prototype.sort(cmp)] is a stable sort: an element moves in
    front of another only when the comparator gives a positive number
    for (earlier, later).  Any stable sort returns the same array for a
    comparator that is a difference of keys; insertion from the right is
    the one written here. *)
Section Sort.
Variable A : Type.
Variable cmp : A -> A -> Z.

Fixpoint insert (a : A) (l : list A) : list A :=
  match l with
  | [] => [a]
  | y :: r => if (cmp a y >? 0)%Z then y :: insert a r else a :: y :: r
  end.

Fixpoint sort (l : list A) : list A :=
  match l with
  | [] => []
  | a :: r => insert a (sort r)
  end.
End Sort.

Arguments insert {A} cmp a l.
Arguments sort {A} cmp l.

(** [v?.toLowerCase()] *)
Definition lower_opt (v : json) : result (option string) :=
  match v with
  | JUndef | JNull => Ok None
  | JStr s => Ok (Some (toLowerCase s))
  | _ => Throw TypeError
  end.

(** [t.toLowerCase()] *)
Definition lower (v : json) : result string :=
  match v with
  | JStr s => Ok (toLowerCase s)
  | _ => Throw TypeError
  end.

(** [v?.toLowerCase() === q] *)
Definition opt_equals (o : option string) (q : string) : bool :=
  match o with Some s => String.eqb s q | None => false end.

(** [v?.toLowerCase().includes(q)], a falsy [undefined] when [v] is. *)
Definition opt_includes (o : option string) (q : string) : bool :=
  match o with Some s => includes s q | None => false end.

(** [ep.tags.some((t) => t.toLowerCase().includes(q))] *)
Definition tags_some (tgs : json) (q : string) : result bool :=
  ts <- as_array tgs ;;
  someM (fun t => s <- lower t ;; Ok (includes s q)) ts.

Record Filters : Type := mkFilters {
  filter_method : option string;
  filter_tag : option string
}.

Definition no_filters : Filters := mkFilters None None.

(** [if (c) score += k] *)
Definition add_if (c : bool) (k : Z) (score : Z) : Z :=
  if c then (score + k)%Z else score.

(** The body of the [for (const term of queryTerms)] loop. *)
Definition term_step (ep : NormalizedEndpoint) (score : Z) (term : string)
  : result Z :=
  let score := add_if (includes (toLowerCase (path ep)) term) 5 score in
  oid <- lower_opt (operationId ep) ;;
  let score := add_if (opt_includes oid term) 5 score in
  sm <- lower_opt (summary ep) ;;
  let score := add_if (opt_includes sm term) 3 score in
  ds <- lower_opt (description ep) ;;
  let score := add_if (opt_includes ds term) 2 score in
  Ok score.

Fixpoint term_loop (ep : NormalizedEndpoint) (score : Z)
  (terms : list string) : result Z :=
  match terms with
  | [] => Ok score
  | t :: r => s <- term_step ep score t ;; term_loop ep s r
  end.

(** The callback of [endpoints.map] that computes [{ endpoint, score }]. *)
Definition score_endpoint (normalizedQuery : string)
  (queryTerms : list string) (ep : NormalizedEndpoint)
  : result (NormalizedEndpoint * Z) :=
  let score := 0%Z in
  oid <- lower_opt (operationId ep) ;;
  score <-
    (if opt_equals oid normalizedQuery then Ok (score + 100)%Z
     else
       oid' <- lower_opt (operationId ep) ;;
       Ok (add_if (opt_includes oid' normalizedQuery) 50 score)) ;;
  let score :=
    add_if (includes (toLowerCase (path ep)) normalizedQuery) 40 score in
  sm <- lower_opt (summary ep) ;;
  let score := add_if (opt_includes sm normalizedQuery) 30 score in
  ds <- lower_opt (description ep) ;;
  let score := add_if (opt_includes ds normalizedQuery) 20 score in
  tg <- tags_some (tags ep) normalizedQuery ;;
  let score := add_if tg 15 score in
  score <- term_loop ep score queryTerms ;;
  Ok (ep, score).

Definition nonempty (o : option string) : option string :=
  match o with
  | Some s => if String.eqb s "" then None else Some s
  | None => None
  end.

Definition apply_filters (eps : list NormalizedEndpoint) (filters : Filters)
  : result (list NormalizedEndpoint) :=
  eps <-
    match nonempty (filter_method filters) with
    | Some m =>
        Ok (filter
              (fun ep =>
                 String.eqb (toLowerCase (method ep)) (toLowerCase m))
              eps)
    | None => Ok eps
    end ;;
  match nonempty (filter_tag filters) with
  | Some t => filterM (fun ep => tags_some (tags ep) (toLowerCase t)) eps
  | None => Ok eps
  end.

Definition searchEndpoints (spec : NormalizedApiSpec) (query : string)
  (filters : Filters) : result (list NormalizedEndpoint) :=
  let normalizedQuery := trim (toLowerCase query) in
  let queryTerms :=
    filter (fun t => (0 <? String.length t)%nat) (split_ws normalizedQuery) in
  eps <- apply_filters (endpoints spec) filters ;;
  scored <- mapM (score_endpoint normalizedQuery queryTerms) eps ;;
  Ok (map fst
        (sort (fun a b => (snd b - snd a)%Z)
           (filter (fun s => (snd s >? 0)%Z) scored))).

End Search.

(* ===================================================================== *)
(** * Normalization ([parser/parser.ts], class [OpenAPIParser]) *)
(* ===================================================================== *)

Module OpenAPIParser.
Import JsString Js.

(** [{ type: 'object' }] *)
Definition stub : NormalizedSchema :=
  {| schema_type := JStr "object"; schema_format := JUndef;
     schema_description := JUndef; schema_required := JUndef;
     schema_properties := None; schema_items := None;
     schema_enum := JUndef; schema_default := JUndef;
     schema_example := JUndef; schema_minimum := JUndef;
     schema_maximum := JUndef; schema_minLength := JUndef;
     schema_maxLength := JUndef; schema_pattern := JUndef;
     schema_nullable := false; schema_oneOf := None;
     schema_anyOf := None; schema_allOf := None; schema_ref := None |}.

(** [{ ...s, ref: refPath }] *)
Definition with_ref (s : NormalizedSchema) (refPath : string)
  : NormalizedSchema :=
  {| schema_type := schema_type s; schema_format := schema_format s;
     schema_description := schema_description s;
     schema_required := schema_required s;
     schema_properties := schema_properties s;
     schema_items := schema_items s;
     schema_enum := schema_enum s; schema_default := schema_default s;
     schema_example := schema_example s;
     schema_minimum := schema_minimum s;
     schema_maximum := schema_maximum s;
     schema_minLength := schema_minLength s;
     schema_maxLength := schema_maxLength s;
     schema_pattern := schema_pattern s;
     schema_nullable := schema_nullable s;
     schema_oneOf := schema_oneOf s; schema_anyOf := schema_anyOf s;
     schema_allOf := schema_allOf s; schema_ref := Some refPath |}.

(** [if (v) normalized.f = v] *)
Definition when_truthy (v : json) : json := if truthy v then v else JUndef.

(** [Map.prototype.set]: an existing key keeps its position. *)
Fixpoint map_set {V} (k : string) (v : V) (m : list (string * V))
  : list (string * V) :=
  match m with
  | [] => [(k, v)]
  | (k', v') :: r =>
      if String.eqb k' k then (k, v) :: r else (k', v') :: map_set k v r
  end.

Definition methods : list string :=
  ["get"; "post"; "put"; "patch"; "delete"; "options"; "head"; "trace"].

(** [contentTypes[0]] used as a property key. *)
Definition first_key (ks : list string) : string :=
  match ks with
  | [] => "undefined"
  | k :: _ => k
  end.

Section Instance.
(** The fields [this.spec] and [this.isV3], set by [parse]. *)
Variable spec : json.
Variable isV3 : bool.

(** The loop of [resolveRef] over the parts of the pointer. *)
Fixpoint walk (current : json) (parts : list string) : result json :=
  match parts with
  | [] => Ok current
  | part :: rest =>
      if truthy current && is_object current then
        h <- has part current ;;
        if h then next <- get current part ;; walk next rest
        else Ok JUndef
      else Ok JUndef
  end.

(** [ref.startsWith('#/')] raises unless [ref] is a string. *)
Definition resolveRef (ref : json) : result json :=
  match ref with
  | JStr r =>
      if negb (startsWith r "#/") then Ok JUndef
      else walk spec (split "/" (slice 2 r))
  | _ => Throw TypeError
  end.

Definition getSchemaType (schema : json) : result json :=
  ty <- get schema "type" ;;
  if truthy ty then
    match ty with
    | JArr _ => get ty "0"
    | _ => Ok ty
    end
  else
    props <- get schema "properties" ;;
    if truthy props then Ok (JStr "object")
    else
      hasItems <- has "items" schema ;;
      if hasItems then Ok (JStr "array")
      else
        en <- get schema "enum" ;;
        if truthy en then Ok (JStr "string") else Ok (JStr "object").

(** [normalizeSchema(schema, depth)].  The measure [11 - depth] is what
    the guard [depth > 10] bounds; every recursive call is made at
    [depth + 1] below that guard. *)
Equations? normalizeSchema (schema : json) (depth : nat)
  : result NormalizedSchema by wf (11 - depth) lt :=
normalizeSchema schema depth with le_lt_dec depth 10 := {
  | right _ => Ok stub
  | left Hle =>
      if negb (truthy schema) then Ok stub
      else
        hasRef <- has "$ref" schema ;;
        refPath <- (if hasRef then get schema "$ref" else Ok JUndef) ;;
        if hasRef && truthy refPath then
          resolved <- resolveRef refPath ;;
          if truthy resolved then
            inner <- normalizeSchema resolved (depth + 1) ;;
            Ok (with_ref inner (toStr refPath))
          else Ok (with_ref stub (toStr refPath))
        else
          ty <- getSchemaType schema ;;
          format <- get schema "format" ;;
          descr <- get schema "description" ;;
          enum <- get schema "enum" ;;
          default <- get schema "default" ;;
          example <- get schema "example" ;;
          minimum <- get schema "minimum" ;;
          maximum <- get schema "maximum" ;;
          minLength <- get schema "minLength" ;;
          maxLength <- get schema "maxLength" ;;
          pattern <- get schema "pattern" ;;
          nullable <- get schema "nullable" ;;
          rawType <- get schema "type" ;;
          rawItems <- get schema "items" ;;
          items <-
            (if is_str rawType "array" && truthy rawItems then
               it <- normalizeSchema rawItems (depth + 1) ;; Ok (Some it)
             else Ok None) ;;
          rawProps <- get schema "properties" ;;
          rawRequired <- get schema "required" ;;
          let isObj := is_str rawType "object" || truthy rawProps in
          props <-
            (if isObj && truthy rawProps then
               es <- entries rawProps ;;
               ps <- mapM (fun kv =>
                             n <- normalizeSchema (snd kv) (depth + 1) ;;
                             Ok (fst kv, n)) es ;;
               Ok (Some ps)
             else Ok None) ;;
          hasOneOf <- has "oneOf" schema ;;
          rawOneOf <- get schema "oneOf" ;;
          oneOf <-
            (if hasOneOf && truthy rawOneOf then
               xs <- as_array rawOneOf ;;
               ys <- mapM (fun s => normalizeSchema s (depth + 1)) xs ;;
               Ok (Some ys)
             else Ok None) ;;
          hasAnyOf <- has "anyOf" schema ;;
          rawAnyOf <- get schema "anyOf" ;;
          anyOf <-
            (if hasAnyOf && truthy rawAnyOf then
               xs <- as_array rawAnyOf ;;
               ys <- mapM (fun s => normalizeSchema s (depth + 1)) xs ;;
               Ok (Some ys)
             else Ok None) ;;
          hasAllOf <- has "allOf" schema ;;
          rawAllOf <- get schema "allOf" ;;
          allOf <-
            (if hasAllOf && truthy rawAllOf then
               xs <- as_array rawAllOf ;;
               ys <- mapM (fun s => normalizeSchema s (depth + 1)) xs ;;
               Ok (Some ys)
             else Ok None) ;;
          Ok {| schema_type := ty;
                schema_format := when_truthy format;
                schema_description := when_truthy descr;
                schema_required :=
                  if isObj then when_truthy rawRequired else JUndef;
                schema_properties := props;
                schema_items := items;
                schema_enum := when_truthy enum;
                schema_default := default;
                schema_example := example;
                schema_minimum := minimum;
                schema_maximum := maximum;
                schema_minLength := minLength;
                schema_maxLength := maxLength;
                schema_pattern := when_truthy pattern;
                schema_nullable := isV3 && truthy nullable;
                schema_oneOf := oneOf;
                schema_anyOf := anyOf;
                schema_allOf := allOf;
                schema_ref := None |} }.
Proof. all: clear normalizeSchema; change (11 - (depth + 1) < 11 - depth); lia. Qed.

(** [normalizeParameter(param)] *)
Definition normalizeParameter (param : json) : result NormalizedParameter :=
  schema <-
    (if isV3 then
       sch <- get param "schema" ;; normalizeSchema sch 0
     else
       ty <- get param "type" ;;
       format <- get param "format" ;;
       enum <- get param "enum" ;;
       default <- get param "default" ;;
       Ok {| schema_type := or_else ty (JStr "string");
             schema_format := format;
             schema_description := JUndef; schema_required := JUndef;
             schema_properties := None; schema_items := None;
             schema_enum := enum;
             schema_default := default;
             schema_example := JUndef; schema_minimum := JUndef;
             schema_maximum := JUndef; schema_minLength := JUndef;
             schema_maxLength := JUndef; schema_pattern := JUndef;
             schema_nullable := false; schema_oneOf := None;
             schema_anyOf := None; schema_allOf := None;
             schema_ref := None |}) ;;
  name <- get param "name" ;;
  descr <- get param "description" ;;
  required <- get param "required" ;;
  deprecated <- get param "deprecated" ;;
  example <- get param "example" ;;
  Ok {| param_name := name;
        param_description := descr;
        param_required := or_else required (JBool false);
        param_deprecated := or_else deprecated (JBool false);
        param_schema := schema;
        param_example := example |}.

(** [params.filter((p) => p.in === location).map(normalizeParameter)] *)
Definition filterParameters (params : list json) (location : string)
  : result (list NormalizedParameter) :=
  kept <- filterM
            (fun p => loc <- get p "in" ;; Ok (is_str loc location))
            params ;;
  mapM normalizeParameter kept.

Definition parseRequestBody (operation : json)
  : result (option NormalizedRequestBody) :=
  if isV3 then
    requestBody <- get operation "requestBody" ;;
    content <- get_opt requestBody "content" ;;
    if negb (truthy content) then Ok None
    else
      contentTypes <- keys content ;;
      firstContent <- get content (first_key contentTypes) ;;
      descr <- get requestBody "description" ;;
      required <- get requestBody "required" ;;
      sch <- get_opt firstContent "schema" ;;
      schema <- normalizeSchema sch 0 ;;
      examples <- get_opt firstContent "examples" ;;
      Ok (Some {| body_description := descr;
                  body_required := or_else required (JBool false);
                  body_contentTypes := contentTypes;
                  body_schema := schema;
                  body_examples := examples |})
  else
    params <- get operation "parameters" ;;
    bodyParam <-
      match params with
      | JUndef | JNull => Ok JUndef
      | _ =>
          ps <- as_array params ;;
          found <- findM (fun p => loc <- get p "in" ;;
                                   Ok (is_str loc "body")) ps ;;
          Ok (of_option found)
      end ;;
    sch <- get_opt bodyParam "schema" ;;
    if negb (truthy sch) then Ok None
    else
      descr <- get bodyParam "description" ;;
      required <- get bodyParam "required" ;;
      schema <- normalizeSchema sch 0 ;;
      Ok (Some {| body_description := descr;
                  body_required := or_else required (JBool false);
                  body_contentTypes := ["application/json"];
                  body_schema := schema;
                  body_examples := JUndef |}).

(** One turn of the loop of [parseResponses]: [None] for [continue]. *)
Definition parseResponse (statusCode : string) (response : json)
  : result (option NormalizedResponse) :=
  if negb (truthy response) then Ok None
  else
    isRef <- has "$ref" response ;;
    if isRef then Ok None
    else
      descr <- get response "description" ;;
      if isV3 then
        content <- get response "content" ;;
        contentTypes <- (if truthy content then keys content else Ok []) ;;
        firstContent <- get_opt content (first_key contentTypes) ;;
        sch <- get_opt firstContent "schema" ;;
        schema <-
          (if truthy sch then s <- normalizeSchema sch 0 ;; Ok (Some s)
           else Ok None) ;;
        Ok (Some {| resp_statusCode := statusCode;
                    resp_description := or_else descr (JStr "");
                    resp_contentTypes := contentTypes;
                    resp_schema := schema |})
      else
        sch <- get response "schema" ;;
        schema <-
          (if truthy sch then s <- normalizeSchema sch 0 ;; Ok (Some s)
           else Ok None) ;;
        Ok (Some {| resp_statusCode := statusCode;
                    resp_description := or_else descr (JStr "");
                    resp_contentTypes := ["application/json"];
                    resp_schema := schema |}).

Definition somes {A} (l : list (option A)) : list A :=
  flat_map (fun o => match o with Some a => [a] | None => [] end) l.

Definition parseResponses (responses : json)
  : result (list NormalizedResponse) :=
  if negb (truthy responses) then Ok []
  else
    es <- entries responses ;;
    rs <- mapM (fun kv => parseResponse (fst kv) (snd kv)) es ;;
    Ok (somes rs).

Definition normalizeSecurityScheme (name : string) (scheme : json)
  : result NormalizedSecurity :=
  ty <- get scheme "type" ;;
  descr <- get scheme "description" ;;
  if is_str ty "apiKey" then
    loc <- get scheme "in" ;;
    Ok (mkSecurity "apiKey" name loc JUndef descr JUndef)
  else if is_str ty "http" then
    sch <- get scheme "scheme" ;;
    Ok (mkSecurity (if is_str sch "bearer" then "bearer" else "http")
          name JUndef sch descr JUndef)
  else if is_str ty "oauth2" then
    Ok (mkSecurity "oauth2" name JUndef JUndef descr JUndef)
  else if is_str ty "openIdConnect" then
    Ok (mkSecurity "openIdConnect" name JUndef JUndef descr JUndef)
  else
    Ok (mkSecurity "unknown" name JUndef JUndef descr JUndef).

Definition normalizeSecuritySchemeV2 (name : string) (scheme : json)
  : result NormalizedSecurity :=
  ty <- get scheme "type" ;;
  descr <- get scheme "description" ;;
  if is_str ty "apiKey" then
    loc <- get scheme "in" ;;
    Ok (mkSecurity "apiKey" name loc JUndef descr JUndef)
  else if is_str ty "basic" then
    Ok (mkSecurity "basic" name JUndef JUndef descr JUndef)
  else if is_str ty "oauth2" then
    Ok (mkSecurity "oauth2" name JUndef JUndef descr JUndef)
  else
    Ok (mkSecurity "unknown" name JUndef JUndef descr JUndef).

Definition getSecurityScheme (name : string)
  : result (option NormalizedSecurity) :=
  if isV3 then
    components <- get spec "components" ;;
    schemes <- get_opt components "securitySchemes" ;;
    scheme <- get_opt schemes name ;;
    if negb (truthy scheme) then Ok None
    else s <- normalizeSecurityScheme name scheme ;; Ok (Some s)
  else
    defs <- get spec "securityDefinitions" ;;
    scheme <- get_opt defs name ;;
    if negb (truthy scheme) then Ok None
    else s <- normalizeSecuritySchemeV2 name scheme ;; Ok (Some s).

(** [{ ...scheme, scopes }] *)
Definition with_scopes (s : NormalizedSecurity) (scopes : json)
  : NormalizedSecurity :=
  mkSecurity (sec_type s) (sec_name s) (sec_in s) (sec_scheme s)
    (sec_description s) scopes.

Definition parseSecurity (security : json)
  : result (list NormalizedSecurity) :=
  if negb (truthy security) then Ok []
  else
    requirements <- iterate security ;;
    per <- mapM (fun requirement =>
                   es <- entries requirement ;;
                   rs <- mapM (fun kv =>
                                 scheme <- getSecurityScheme (fst kv) ;;
                                 Ok (option_map
                                       (fun s => with_scopes s (snd kv))
                                       scheme)) es ;;
                   Ok (somes rs)) requirements ;;
    Ok (concat per).

Definition parseSecuritySchemes
  : result (list (string * NormalizedSecurity)) :=
  if isV3 then
    components <- get spec "components" ;;
    schemes <- get_opt components "securitySchemes" ;;
    es <- entries (or_else schemes (JObj [])) ;;
    rs <- mapM (fun kv =>
                  isRef <- has "$ref" (snd kv) ;;
                  if isRef then Ok None
                  else
                    s <- normalizeSecurityScheme (fst kv) (snd kv) ;;
                    Ok (Some (fst kv, s))) es ;;
    Ok (somes rs)
  else
    defs <- get spec "securityDefinitions" ;;
    es <- entries (or_else defs (JObj [])) ;;
    mapM (fun kv =>
            s <- normalizeSecuritySchemeV2 (fst kv) (snd kv) ;;
            Ok (fst kv, s)) es.

(** The loop that fills [paramMap] in [parseOperation]. *)
Fixpoint dedupe (paramMap : list (string * json)) (allParams : list json)
  : result (list (string * json)) :=
  match allParams with
  | [] => Ok paramMap
  | param :: rest =>
      isRef <- has "$ref" param ;;
      if isRef then dedupe paramMap rest
      else
        loc <- get param "in" ;;
        name <- get param "name" ;;
        let key := (toStr loc ++ ":" ++ toStr name)%string in
        dedupe (map_set key param paramMap) rest
  end.

Definition parseOperation (path method : string)
  (operation pathItem : json) : result NormalizedEndpoint :=
  pp <- get pathItem "parameters" ;;
  pathParams <- iterate (or_else pp (JArr [])) ;;
  op <- get operation "parameters" ;;
  opParams <- iterate (or_else op (JArr [])) ;;
  let allParams := pathParams ++ opParams in
  paramMap <- dedupe [] allParams ;;
  let parameters := map snd paramMap in
  operationId <- get operation "operationId" ;;
  summary <- get operation "summary" ;;
  descr <- get operation "description" ;;
  tags <- get operation "tags" ;;
  deprecated <- get operation "deprecated" ;;
  pathParameters <- filterParameters parameters "path" ;;
  queryParameters <- filterParameters parameters "query" ;;
  headerParameters <- filterParameters parameters "header" ;;
  cookieParameters <- filterParameters parameters "cookie" ;;
  requestBody <- parseRequestBody operation ;;
  rs <- get operation "responses" ;;
  responses <- parseResponses rs ;;
  sec <- get operation "security" ;;
  security <- parseSecurity sec ;;
  Ok {| path := path;
        method := method;
        operationId := operationId;
        summary := summary;
        description := descr;
        tags := or_else tags (JArr []);
        deprecated := or_else deprecated (JBool false);
        pathParameters := pathParameters;
        queryParameters := queryParameters;
        headerParameters := headerParameters;
        cookieParameters := cookieParameters;
        requestBody := requestBody;
        responses := responses;
        security := security |}.

(** The body of the loop over [methods] in [parseEndpoints]; a failure
    of [parseOperation] is caught and the endpoint skipped. *)
Definition parseMethod (path : string) (pathItem : json) (method : string)
  : result (list NormalizedEndpoint) :=
  operation <- get pathItem method ;;
  if negb (truthy operation) then Ok []
  else
    match parseOperation path method operation pathItem with
    | Ok endpoint => Ok [endpoint]
    | Throw _ => Ok []
    end.

Definition parseEndpoints : result (list NormalizedEndpoint) :=
  ps <- get spec "paths" ;;
  let paths := or_else ps (JObj []) in
  es <- entries paths ;;
  per <- mapM (fun kv =>
                 let pathItem := snd kv in
                 if negb (truthy pathItem) then Ok []
                 else
                   eps <- mapM (parseMethod (fst kv) pathItem) methods ;;
                   Ok (concat eps)) es ;;
  Ok (concat per).

Definition getBaseUrl : result json :=
  if isV3 then
    servers <- get spec "servers" ;;
    first <- get_opt servers "0" ;;
    get_opt first "url"
  else
    host <- get spec "host" ;;
    if truthy host then
      schemes <- get spec "schemes" ;;
      first <- get_opt schemes "0" ;;
      let scheme := or_else first (JStr "https") in
      bp <- get spec "basePath" ;;
      let basePath := or_else bp (JStr "") in
      Ok (JStr (toStr scheme ++ "://" ++ toStr host ++ toStr basePath)%string)
    else Ok JUndef.

Definition getServers : result (list Server) :=
  if isV3 then
    servers <- get spec "servers" ;;
    xs <- as_array (or_else servers (JArr [])) ;;
    mapM (fun s =>
            url <- get s "url" ;;
            descr <- get s "description" ;;
            Ok (mkServer url descr)) xs
  else
    baseUrl <- getBaseUrl ;;
    Ok (if truthy baseUrl then [mkServer baseUrl JUndef] else []).

End Instance.

(** [FetchResult] of [fetcher/fetcher.ts]; [fetchedAt] is the time value
    of the [Date], in milliseconds. *)
Record FetchResult : Type := mkFetchResult {
  fr_spec : json;
  fr_fetchedAt : Z;
  fr_sourceUrl : string;
  fr_specVersion : string;
  fr_scrapedFromUI : option bool;
  fr_resolvedSpecUrl : option string
}.

Section Parse.
(** [Date.prototype.toISOString], a built-in. *)
Variable toISOString : Z -> string.

Definition parse (fetchResult : FetchResult) : result NormalizedApiSpec :=
  let spec := fr_spec fetchResult in
  isV3 <- has "openapi" spec ;;
  endpoints <- parseEndpoints spec isV3 ;;
  securitySchemes <- parseSecuritySchemes spec isV3 ;;
  info <- get spec "info" ;;
  title <- get info "title" ;;
  version <- get info "version" ;;
  descr <- get info "description" ;;
  baseUrl <- getBaseUrl spec isV3 ;;
  servers <- getServers spec isV3 ;;
  Ok {| title := title;
        version := version;
        spec_description := descr;
        baseUrl := baseUrl;
        servers := servers;
        endpoints := endpoints;
        securitySchemes := securitySchemes;
        totalEndpoints := length endpoints;
        fetchedAt := toISOString (fr_fetchedAt fetchResult);
        sourceUrl := fr_sourceUrl fetchResult;
        specVersion := fr_specVersion fetchResult |}.
End Parse.

End OpenAPIParser.

(* ===================================================================== *)
(** * Discovery and fetch ([fetcher/fetcher.ts], class [OpenAPIFetcher]) *)
(* ===================================================================== *)

Module OpenAPIFetcher.
Import JsString Js.

(** What a [catch (error)] clause of the fetcher can receive. *)
Inductive thrown : Type :=
| FetchError (message code : string) (cause : option thrown)
| AxiosError (status : option Z) (statusText : option string)
    (code : option string) (message : string)
| OtherError (message : string)
| NonError.

(** [class OpenAPIFetchError extends Error] *)
Record OpenAPIFetchError : Type := mkFetchError {
  message : string;
  code : string;
  cause : option thrown
}.

Definition dq : string := String (ascii_of_nat 34) EmptyString.

Definition json_of_status (o : option Z) : json :=
  match o with Some n => JNum n | None => JUndef end.

Definition json_of_text (o : option string) : json :=
  match o with Some s => JStr s | None => JUndef end.

Definition code_is (c : option string) (lit : string) : bool :=
  match c with Some s => String.eqb s lit | None => false end.

Definition status_is (st : option Z) (n : Z) : bool :=
  match st with Some m => (m =? n)%Z | None => false end.

(** [isHtmlResponse(data, contentType)] *)
Definition isHtmlResponse (data contentType : string) : bool :=
  let trimmed := toLowerCase (trim data) in
  includes contentType "text/html" ||
  startsWith trimmed "<!doctype html" ||
  startsWith trimmed "<html" ||
  (includes trimmed "<head" && includes trimmed "<body").

Section Fetcher.
(** The fields [this.url], and the methods of the class that the
    response is handed to. *)
Variable url : string.
Variable FetchResult : Type.
Variable scrapeSwaggerUI : string -> FetchResult + thrown.
Variable parseDirect : string -> string -> FetchResult + thrown.

(** [handleFetchError(error)] *)
Definition handleFetchError (error : thrown) : OpenAPIFetchError :=
  match error with
  | FetchError m c cs => mkFetchError m c cs
  | AxiosError status statusText ecode _ =>
      let st := toStr (json_of_status status) in
      let tx := toStr (json_of_text statusText) in
      if status_is status 401 || status_is status 403 then
        mkFetchError
          ("Authentication failed (" ++ st ++ " " ++ tx ++ "). " ++
           "This API requires authentication. Use the authToken parameter: " ++
           dq ++ "Please analyze the API at [URL] with auth token [YOUR_TOKEN]" ++ dq)%string
          "AUTH_ERROR" (Some error)
      else if status_is status 404 then
        mkFetchError
          ("OpenAPI spec not found at " ++ url ++ ". " ++
           "Try using the Swagger UI URL (e.g., /swagger-ui.html) and I'll try to find the spec automatically.")%string
          "NOT_FOUND" (Some error)
      else if code_is ecode "ECONNABORTED" || code_is ecode "ETIMEDOUT" then
        mkFetchError
          ("Request timeout fetching OpenAPI spec from " ++ url)%string
          "TIMEOUT" (Some error)
      else if code_is ecode "ENOTFOUND" || code_is ecode "ECONNREFUSED" then
        mkFetchError
          ("Cannot connect to " ++ url ++ ": " ++
           toStr (json_of_text ecode))%string
          "CONNECTION_ERROR" (Some error)
      else
        mkFetchError
          ("HTTP error fetching OpenAPI spec: " ++ st ++ " " ++ tx)%string
          "HTTP_ERROR" (Some error)
  | OtherError m => mkFetchError m "UNKNOWN_ERROR" (Some error)
  | NonError =>
      mkFetchError "Unknown error fetching OpenAPI spec" "UNKNOWN_ERROR" None
  end.

(** How [axios.request(config)] ends in [fetch]: a response with its
    [content-type] header and text body, or a rejection. *)
Inductive axios_result : Type :=
| Response (contentTypeHeader : option string) (data : string)
| Rejection (error : thrown).

(** Which way [fetch] takes a response. *)
Inductive route : Type :=
| Scrape (html : string)
| Direct (data contentType : string).

(** [response.headers['content-type'] || ''] *)
Definition header_or_empty (h : option string) : string :=
  match h with Some s => s | None => EmptyString end.

Definition fetch_route (contentTypeHeader : option string) (data : string)
  : route :=
  let contentType := header_or_empty contentTypeHeader in
  if isHtmlResponse data contentType then Scrape data
  else Direct data contentType.

(** [catch (error) { throw this.handleFetchError(error); }] *)
Definition rethrow (r : FetchResult + thrown)
  : FetchResult + OpenAPIFetchError :=
  match r with
  | inl v => inl v
  | inr error => inr (handleFetchError error)
  end.

(** The [try]/[catch] of [fetch], from the settlement of the request. *)
Definition fetch (r : axios_result) : FetchResult + OpenAPIFetchError :=
  rethrow
    match r with
    | Response h data =>
        match fetch_route h data with
        | Scrape html => scrapeSwaggerUI html
        | Direct d ct => parseDirect d ct
        end
    | Rejection error => inr error
    end.
End Fetcher.

Arguments rethrow url {FetchResult} r.
Arguments fetch url {FetchResult} scrapeSwaggerUI parseDirect r.

End OpenAPIFetcher.

(* ===================================================================== *)
(** * Cache ([cache/cache.ts], class [SpecCache]) *)
(* ===================================================================== *)

Module SpecCache.

(** [CacheEntry<NormalizedApiSpec>]; dates are time values in
    milliseconds. *)
Record CacheEntry : Type := mkEntry {
  data : NormalizedApiSpec;
  createdAt : Z;
  expiresAt : Z
}.

(** The fields of a [SpecCache] object.  [onRefresh] is an external
    asynchronous producer: the object records whether one is configured,
    and the event loop below records its invocations and settlements. *)
Record t : Type := mkCache {
  cache : option CacheEntry;
  ttlMs : Z;
  refreshTimer : bool;
  onRefresh : bool;
  isRefreshing : bool
}.

(** [new SpecCache(options)], with [ttlMs = ttlMinutes * 60 * 1000]. *)
Definition create (ttl : Z) (producer : bool) : t :=
  mkCache None ttl false producer false.

Definition with_cache (c : t) (e : option CacheEntry) : t :=
  mkCache e (ttlMs c) (refreshTimer c) (onRefresh c) (isRefreshing c).

Definition with_isRefreshing (c : t) (b : bool) : t :=
  mkCache (cache c) (ttlMs c) (refreshTimer c) (onRefresh c) b.

Definition with_refreshTimer (c : t) (b : bool) : t :=
  mkCache (cache c) (ttlMs c) b (onRefresh c) (isRefreshing c).

(** Every method that reads the clock takes the value of [new Date()]
    as [now]. *)

Definition isExpired (now : Z) (c : t) : bool :=
  match cache c with
  | None => true
  | Some e => (now >? expiresAt e)%Z
  end.

Definition get (now : Z) (c : t) : option NormalizedApiSpec :=
  match cache c with
  | None => None
  | Some e => if isExpired now c then None else Some (data e)
  end.

Definition set (now : Z) (spec : NormalizedApiSpec) (c : t) : t :=
  with_cache c (Some (mkEntry spec now (now + ttlMs c))).

Definition clear (c : t) : t := with_cache c None.

Definition startAutoRefresh (c : t) : t :=
  if refreshTimer c then c
  else if negb (onRefresh c) then c
  else with_refreshTimer c true.

Definition stopAutoRefresh (c : t) : t :=
  if refreshTimer c then with_refreshTimer c false else c.

(** ** The event loop around [refresh]

    [refresh] is an [async] method: a call runs to its first [await] and
    is resumed later, while other calls and timers run in between. *)

Inductive error : Type :=
| NoCallback          (* Error('No refresh callback configured') *)
| RefreshFailed       (* Error('Refresh failed') *)
| Produced (reason : string).  (* the rejection of [onRefresh()] *)

Inductive outcome : Type :=
| Resolved (spec : NormalizedApiSpec)
| Rejected (e : error).

(** Who holds the promise returned by [refresh()]: a caller, or the
    callback of [setInterval] in [startAutoRefresh], which attaches
    [.catch] and logs. *)
Inductive origin : Type :=
| Caller
| Timer.

(** Where a call of [refresh] stands. *)
Inductive status : Type :=
| AwaitProducer                (* at [await this.onRefresh()] *)
| Sleeping (due : Z)           (* at [await new Promise(setTimeout 100)] *)
| Done (o : outcome).

Record task : Type := mkTask {
  from : origin;
  state : status
}.

Record world : Type := mkWorld {
  obj : t;
  now : Z;
  tasks : list task;
  invocations : nat;          (* calls of [onRefresh] so far *)
  logged : list error         (* 'Auto-refresh failed' entries *)
}.

Inductive event : Type :=
| Call                         (* a caller invokes [refresh()] *)
| Fire                         (* the auto-refresh interval fires *)
| Settle (i : nat) (r : NormalizedApiSpec + string)
                               (* [onRefresh()] of task [i] settles *)
| Wake (i : nat)               (* the 100 ms timer of task [i] fires *)
| Tick (d : Z).                (* the clock advances by [d] *)

Fixpoint update {A} (i : nat) (a : A) (l : list A) : list A :=
  match l, i with
  | [], _ => []
  | _ :: r, O => a :: r
  | x :: r, S j => x :: update j a r
  end.

(** A call ends with outcome [r]; the [.catch] of the interval callback
    logs a rejection. *)
Definition finish (i : nat) (o : origin) (r : outcome) (c : t) (w : world)
  : world :=
  mkWorld c (now w) (update i (mkTask o (Done r)) (tasks w))
    (invocations w)
    match o, r with
    | Timer, Rejected e => e :: logged w
    | _, _ => logged w
    end.

(** [refresh()], from the call to its first [await]: the new task is
    appended to the tasks of the world. *)
Definition refresh (o : origin) (w : world) : world :=
  let c := obj w in
  if negb (onRefresh c) then
    (* throw new Error('No refresh callback configured') *)
    mkWorld c (now w) (tasks w ++ [mkTask o (Done (Rejected NoCallback))])
      (invocations w)
      match o with
      | Timer => NoCallback :: logged w
      | Caller => logged w
      end
  else if isRefreshing c then
    (* while (this.isRefreshing) { await new Promise(setTimeout 100) } *)
    mkWorld c (now w) (tasks w ++ [mkTask o (Sleeping (now w + 100))])
      (invocations w) (logged w)
  else
    (* this.isRefreshing = true; await this.onRefresh() *)
    mkWorld (with_isRefreshing c true) (now w)
      (tasks w ++ [mkTask o AwaitProducer])
      (S (invocations w)) (logged w).

(** [refresh()] of task [i], resumed when [await this.onRefresh()]
    settles with [r]. *)
Definition refresh_after_producer (i : nat) (o : origin)
  (r : NormalizedApiSpec + string) (w : world) : world :=
  match r with
  | inl spec =>
      (* this.set(spec); return spec; finally isRefreshing = false *)
      finish i o (Resolved spec)
        (with_isRefreshing (set (now w) spec (obj w)) false) w
  | inr reason =>
      (* finally isRefreshing = false; the rejection propagates *)
      finish i o (Rejected (Produced reason))
        (with_isRefreshing (obj w) false) w
  end.

(** [refresh()] of task [i], resumed when its sleep of 100 ms ends: the
    loop condition, then the read of the slot. *)
Definition refresh_after_sleep (i : nat) (o : origin) (w : world) : world :=
  if isRefreshing (obj w) then
    mkWorld (obj w) (now w)
      (update i (mkTask o (Sleeping (now w + 100))) (tasks w))
      (invocations w) (logged w)
  else
    (* const cached = this.get(); if (cached) return cached;
       throw new Error('Refresh failed') *)
    match get (now w) (obj w) with
    | Some cached => finish i o (Resolved cached) (obj w) w
    | None => finish i o (Rejected RefreshFailed) (obj w) w
    end.

Definition step (ev : event) (w : world) : option world :=
  match ev with
  | Call => Some (refresh Caller w)
  | Fire =>
      (* this.refresh().catch((error) => this.logger.error(...)) *)
      if refreshTimer (obj w) then Some (refresh Timer w) else None
  | Settle i r =>
      match nth_error (tasks w) i with
      | Some (mkTask o AwaitProducer) => Some (refresh_after_producer i o r w)
      | _ => None
      end
  | Wake i =>
      match nth_error (tasks w) i with
      | Some (mkTask o (Sleeping due)) =>
          if (now w <? due)%Z then None
          else Some (refresh_after_sleep i o w)
      | _ => None
      end
  | Tick d =>
      if (d <? 0)%Z then None
      else Some (mkWorld (obj w) (now w + d) (tasks w) (invocations w)
                   (logged w))
  end.

Fixpoint run (evs : list event) (w : world) : option world :=
  match evs with
  | [] => Some w
  | ev :: rest =>
      match step ev w with
      | Some w' => run rest w'
      | None => None
      end
  end.

(** [getOrRefresh()], up to its first [await]: the cached value, or the
    world in which the call of [refresh()] has begun. *)
Definition getOrRefresh (w : world) : NormalizedApiSpec + world :=
  match get (now w) (obj w) with
  | Some cached => inl cached
  | None => inr (refresh Caller w)
  end.

Definition outcome_of (w : world) (i : nat) : option outcome :=
  match nth_error (tasks w) i with
  | Some (mkTask _ (Done o)) => Some o
  | _ => None
  end.

End SpecCache.

(* ===================================================================== *)
(** * Cache metadata ([cache/cache.ts], [SpecCache.getMetadata]) *)
(* ===================================================================== *)

Module SpecCacheMetadata.
Import SpecCache.

(** The object returned by [getMetadata()]; an absent field is [None]. *)
Record Metadata : Type := mkMetadata {
  isCached : bool;
  meta_createdAt : option string;
  meta_expiresAt : option string;
  meta_isExpired : bool;
  ageSeconds : option Z
}.

Section Clock.
(** [Date.prototype.toISOString], a built-in. *)
Variable toISOString : Z -> string.

Definition getMetadata (now : Z) (c : t) : Metadata :=
  match cache c with
  | None => mkMetadata false None None true None
  | Some e =>
      mkMetadata true
        (Some (toISOString (createdAt e)))
        (Some (toISOString (expiresAt e)))
        (isExpired now c)
        (Some ((now - createdAt e) / 1000)%Z)
  end.
End Clock.
End SpecCacheMetadata.


(* ===================================================================== *)
(** * Helpers of the fetcher ([fetcher/fetcher.ts], private methods of [OpenAPIFetcher]) *)
(* ===================================================================== *)

Module FetcherHelpers.
Import JsString Js OpenAPIFetcher.

Definition backslash : ascii := ascii_of_nat 92.
Definition quote : ascii := ascii_of_nat 34.

(** The [for] loop of [extractJsonObject], from index [i]; [rest] holds
    the characters of [str] from [i] on. *)
Fixpoint scan (str : string) (depth : Z) (inString escape : bool)
  (i : nat) (rest : string) : option string :=
  match rest with
  | EmptyString => None
  | String char rest' =>
      if escape then scan str depth inString false (S i) rest'
      else if Ascii.eqb char backslash then
        scan str depth inString true (S i) rest'
      else if Ascii.eqb char quote then
        scan str depth (negb inString) false (S i) rest'
      else if negb inString then
        let depth := if Ascii.eqb char "{" then (depth + 1)%Z else depth in
        let depth := if Ascii.eqb char "}" then (depth - 1)%Z else depth in
        if (depth =? 0)%Z then Some (substring 0 (i + 1) str)
        else scan str depth inString false (S i) rest'
      else scan str depth inString false (S i) rest'
  end.

(** [extractJsonObject(str)]; [None] is [null]. *)
Definition extractJsonObject (str : string) : option string :=
  if negb (startsWith str "{") then None
  else scan str 0 false false 0 str.

(** The fields of a WHATWG [URL] that [resolveUrl] reads. *)
Record URL : Type := mkURL {
  protocol : string;
  host : string;
  pathname : string
}.

(** [s.lastIndexOf(c)]: [-1] when [c] does not occur. *)
Fixpoint lastIndexOf_from (c : ascii) (i : Z) (found : Z) (s : string) : Z :=
  match s with
  | EmptyString => found
  | String d r =>
      lastIndexOf_from c (i + 1) (if Ascii.eqb d c then i else found) r
  end.

Definition lastIndexOf (c : ascii) (s : string) : Z :=
  lastIndexOf_from c 0 (-1) s.

Section Resolve.
(** [new URL(this.url)]: [None] when the constructor raises. *)
Variable base : option URL.

Definition resolveUrl (url : string) : result string :=
  if startsWith url "http://" || startsWith url "https://" then Ok url
  else
    match base with
    | None => Throw TypeError
    | Some baseUrl =>
        if startsWith url "/" then
          Ok (protocol baseUrl ++ "//" ++ host baseUrl ++ url)%string
        else
          let basePath :=
            substring 0
              (Z.to_nat (lastIndexOf "/" (pathname baseUrl) + 1))
              (pathname baseUrl) in
          Ok (protocol baseUrl ++ "//" ++ host baseUrl ++ basePath ++ url)%string
    end.
End Resolve.

(** [detectSpecVersion(spec)] *)
Definition detectSpecVersion (spec : json) : result string :=
  hasOpenapi <- has "openapi" spec ;;
  openapi <- (if hasOpenapi then get spec "openapi" else Ok JUndef) ;;
  if hasOpenapi && truthy openapi then Ok ("OpenAPI " ++ toStr openapi)%string
  else
    hasSwagger <- has "swagger" spec ;;
    swagger <- (if hasSwagger then get spec "swagger" else Ok JUndef) ;;
    if hasSwagger && truthy swagger then
      Ok ("Swagger " ++ toStr swagger)%string
    else Ok "Unknown".

Section Validation.
(** The message of a [TypeError], which is the engine's. *)
Variable typeErrorMessage : string.

Definition raised {A} (r : result A) : A + thrown :=
  match r with
  | Ok a => inl a
  | Throw TypeError => inr (OtherError typeErrorMessage)
  end.

Definition and_then {A B} (m : A + thrown) (k : A -> B + thrown)
  : B + thrown :=
  match m with
  | inl a => k a
  | inr e => inr e
  end.

(** [throw new OpenAPIFetchError(msg, 'VALIDATION_ERROR')] *)
Definition invalid (msg : string) : unit + thrown :=
  inr (FetchError msg "VALIDATION_ERROR" None).

(** [v.split('.')], which raises unless [v] is a string. *)
Definition split_dots (v : json) : result (list string) :=
  match v with
  | JStr s => Ok (split "." s)
  | _ => Throw TypeError
  end.

(** [parts[0] !== '3'] *)
Definition first_is_not (parts : list string) (lit : string) : bool :=
  match parts with
  | p :: _ => negb (p =? lit)
  | [] => true
  end.

(** [validateSpec(spec)]; [inl tt] when it returns. *)
Definition validateSpec (spec : json) : unit + thrown :=
  if negb (truthy spec) || negb (is_object spec) then
    invalid "Invalid OpenAPI spec: not an object"
  else
    and_then (raised (has "openapi" spec)) (fun hasOpenapi =>
    if (hasOpenapi : bool) then
      and_then (raised (get spec "openapi")) (fun openapi =>
      and_then (raised (get spec "info")) (fun info =>
      and_then (raised (get spec "paths")) (fun paths =>
      if negb (truthy openapi) || negb (truthy info) || negb (truthy paths)
      then
        invalid
          "Invalid OpenAPI 3.x spec: missing required fields (openapi, info, paths)"
      else
        and_then (raised (split_dots openapi)) (fun versionParts =>
        if first_is_not versionParts "3" then
          invalid ("Unsupported OpenAPI version: " ++ toStr openapi)
        else inl tt))))
    else
      and_then (raised (has "swagger" spec)) (fun hasSwagger =>
      if (hasSwagger : bool) then
        and_then (raised (get spec "swagger")) (fun swagger =>
        and_then (raised (get spec "info")) (fun info =>
        and_then (raised (get spec "paths")) (fun paths =>
        if negb (truthy swagger) || negb (truthy info)
           || negb (truthy paths)
        then
          invalid
            "Invalid Swagger 2.0 spec: missing required fields (swagger, info, paths)"
        else if negb (is_str swagger "2.0") then
          invalid ("Unsupported Swagger version: " ++ toStr swagger)
        else inl tt)))
      else invalid "Invalid spec: must be OpenAPI 3.x or Swagger 2.0")).

(** What [fetch] and [fetchFromUrl] do with a parsed document:
    [validateSpec], [detectSpecVersion], and the [FetchResult]. *)
Definition checked (spec : json) (now : Z) (sourceUrl : string)
  (scrapedFromUI : option bool) (resolvedSpecUrl : option string)
  : OpenAPIParser.FetchResult + thrown :=
  and_then (validateSpec spec) (fun _ =>
  and_then (raised (detectSpecVersion spec)) (fun specVersion =>
  inl (OpenAPIParser.mkFetchResult spec now sourceUrl specVersion
         scrapedFromUI resolvedSpecUrl))).
End Validation.

(** An [OpenAPIFetchError] as a caught value. *)
Definition as_thrown (e : OpenAPIFetchError) : thrown :=
  FetchError (message e) (code e) (cause e).

End FetcherHelpers.


(* ===================================================================== *)
(** * Tools ([tools/handler.ts], class [ToolHandler]) and their dispatch ([index.ts]) *)
(* ===================================================================== *)

Module ToolHandler.
Import JsString Js Search.

Definition upper_char (c : ascii) : ascii :=
  let n := nat_of_ascii c in
  if ((97 <=? n) && (n <=? 122))%nat then ascii_of_nat (n - 32) else c.

(** [s.toUpperCase()], on the ASCII range. *)
Fixpoint toUpperCase (s : string) : string :=
  match s with
  | EmptyString => EmptyString
  | String c r => String (upper_char c) (toUpperCase r)
  end.

Definition nl : string := String (ascii_of_nat 10) EmptyString.
Definition dq : string := String (ascii_of_nat 34) EmptyString.

(** [xs.slice(0, end)] for an integer [end]. *)
Definition slice0 {A} (end_ : Z) (xs : list A) : list A :=
  let len := Z.of_nat (length xs) in
  let final := if (end_ <? 0)%Z then Z.max (len + end_) 0 else Z.min end_ len in
  firstn (Z.to_nat final) xs.

(** [o !== undefined ? o : d], the default of a destructured parameter. *)
Definition default {A} (o : option A) (d : A) : A :=
  match o with Some a => a | None => d end.

(** [o || d] for an optional number. *)
Definition number_or (o : option Z) (d : Z) : Z :=
  match o with
  | Some n => if (n =? 0)%Z then d else n
  | None => d
  end.

(** ** [getApiSchema] *)

Record GetApiSchemaArgs : Type := mkSchemaArgs {
  arg_query : string;
  arg_maxResults : option Z;
  arg_includeRequestBody : option bool;
  arg_includeResponses : option bool;
  arg_method : option string;
  arg_tag : option string
}.

Record SearchResult : Type := mkSearchResult {
  sr_endpoints : list NormalizedEndpoint;
  sr_query : string;
  sr_totalMatches : nat;
  sr_searchedFields : list string
}.

(** [{ ...ep, requestBody: undefined }] *)
Definition without_requestBody (ep : NormalizedEndpoint)
  : NormalizedEndpoint :=
  mkEndpoint (path ep) (method ep) (operationId ep) (summary ep)
    (description ep) (tags ep) (deprecated ep) (pathParameters ep)
    (queryParameters ep) (headerParameters ep) (cookieParameters ep)
    None (responses ep) (security ep).

(** [{ ...ep, responses: [] }] *)
Definition without_responses (ep : NormalizedEndpoint)
  : NormalizedEndpoint :=
  mkEndpoint (path ep) (method ep) (operationId ep) (summary ep)
    (description ep) (tags ep) (deprecated ep) (pathParameters ep)
    (queryParameters ep) (headerParameters ep) (cookieParameters ep)
    (requestBody ep) [] (security ep).

(** The callback of [limitedEndpoints.map]. *)
Definition processed (includeRequestBody includeResponses : bool)
  (ep : NormalizedEndpoint) : NormalizedEndpoint :=
  let processed := ep in
  let processed :=
    if negb includeRequestBody then without_requestBody processed
    else processed in
  let processed :=
    if negb includeResponses then without_responses processed
    else processed in
  processed.

(** The [try] block of [getApiSchema], from the description [spec] that
    [getOrRefresh] resolved with to the [data] of the result; an
    exception goes to the [catch] clause. *)
Definition getApiSchema (spec : NormalizedApiSpec) (args : GetApiSchemaArgs)
  : result SearchResult :=
  let query := arg_query args in
  let maxResults := default (arg_maxResults args) 10%Z in
  let includeRequestBody := default (arg_includeRequestBody args) true in
  let includeResponses := default (arg_includeResponses args) true in
  matchingEndpoints <-
    searchEndpoints spec query (mkFilters (arg_method args) (arg_tag args)) ;;
  let limitedEndpoints := slice0 maxResults matchingEndpoints in
  let processedEndpoints :=
    map (processed includeRequestBody includeResponses) limitedEndpoints in
  Ok {| sr_endpoints := processedEndpoints;
        sr_query := query;
        sr_totalMatches := length matchingEndpoints;
        sr_searchedFields :=
          ["path"; "operationId"; "summary"; "description"; "tags"] |}.

(** ** [getApiInfo] *)

(** [SameValueZero], by which a [Set] tells its members apart; the
    objects and arrays of a description are distinct values. *)
Definition same_value_zero (a b : json) : bool :=
  match a, b with
  | JUndef, JUndef => true
  | JNull, JNull => true
  | JBool x, JBool y => Bool.eqb x y
  | JNum x, JNum y => (x =? y)%Z
  | JStr x, JStr y => String.eqb x y
  | _, _ => false
  end.

(** [set.add(t)]: insertion order, no second copy. *)
Definition set_add (set : list json) (t : json) : list json :=
  if existsb (same_value_zero t) set then set else set ++ [t].

(** The loop that fills [tags]. *)
Fixpoint collect (set : list json) (eps : list NormalizedEndpoint)
  : result (list json) :=
  match eps with
  | [] => Ok set
  | endpoint :: rest =>
      ts <- as_array (tags endpoint) ;;
      collect (fold_left set_add ts set) rest
  end.

(** The comparison of [Array.prototype.sort()] without a comparator:
    [undefined] last, the other values by their strings, code unit by
    code unit. *)
Definition sort_compare (x y : json) : Z :=
  match x, y with
  | JUndef, JUndef => 0
  | JUndef, _ => 1
  | _, JUndef => (-1)
  | _, _ =>
      match String.compare (toStr x) (toStr y) with
      | Lt => (-1)
      | Gt => 1
      | Eq => 0
      end
  end%Z.

Record ApiInfo : Type := mkApiInfo {
  info_title : json;
  info_version : json;
  info_description : json;
  info_baseUrl : json;
  info_totalEndpoints : nat;
  info_tags : list json;
  info_securitySchemes : list string;
  info_fetchedAt : string;
  info_specVersion : string
}.

(** The [try] block of [getApiInfo], from the description. *)
Definition getApiInfo (spec : NormalizedApiSpec) : result ApiInfo :=
  tags <- collect [] (endpoints spec) ;;
  Ok {| info_title := title spec;
        info_version := version spec;
        info_description := spec_description spec;
        info_baseUrl := baseUrl spec;
        info_totalEndpoints := totalEndpoints spec;
        info_tags := sort sort_compare tags;
        info_securitySchemes := map fst (securitySchemes spec);
        info_fetchedAt := fetchedAt spec;
        info_specVersion := specVersion spec |}.

(** ** [listEndpoints] *)

Record Brief : Type := mkBrief {
  brief_method : string;
  brief_path : string;
  brief_operationId : json;
  brief_summary : json
}.

(** The [try] block of [listEndpoints], from the description;
    [options] is [None] when the caller passes none. *)
Definition listEndpoints (spec : NormalizedApiSpec)
  (options : option Filters) : result (list Brief) :=
  let endpoints := endpoints spec in
  endpoints <-
    match nonempty (match options with
                    | Some o => filter_method o
                    | None => None
                    end) with
    | Some m =>
        Ok (filter
              (fun ep =>
                 String.eqb (toLowerCase (method ep)) (toLowerCase m))
              endpoints)
    | None => Ok endpoints
    end ;;
  endpoints <-
    match nonempty (match options with
                    | Some o => filter_tag o
                    | None => None
                    end) with
    | Some t =>
        filterM (fun ep => tags_some (tags ep) (toLowerCase t)) endpoints
    | None => Ok endpoints
    end ;;
  Ok (map (fun ep =>
             {| brief_method := toUpperCase (method ep);
                brief_path := path ep;
                brief_operationId := operationId ep;
                brief_summary := summary ep |}) endpoints).

(** ** [analyzeApiFromUrl] *)

(** The search of [analyzeApiFromUrl]: [totalMatches] and [endpoints],
    absent when no query is given. *)
Definition analyze_search (spec : NormalizedApiSpec)
  (query : option string) (maxResults : option Z)
  : result (option (nat * list NormalizedEndpoint)) :=
  match nonempty query with
  | Some q =>
      allMatches <- searchEndpoints spec q no_filters ;;
      let totalMatches := length allMatches in
      let maxResults := Z.min (number_or maxResults 10) 50 in
      Ok (Some (totalMatches, slice0 maxResults allMatches))
  | None => Ok None
  end.

(** The message that the [catch] clause of [analyzeApiFromUrl] returns
    for the message of the error it caught. *)
Definition userFriendlyError (url errorMessage : string) : string :=
  if includes errorMessage "401" || includes errorMessage "403"
     || includes errorMessage "Authentication failed" then
    "Authentication required. This API requires a Bearer token to access. Please provide the authToken parameter."
    ++ nl ++ nl ++ "Example: Call this tool again with:" ++ nl ++ "{" ++ nl
    ++ "  " ++ dq ++ "url" ++ dq ++ ": " ++ dq ++ url ++ dq ++ "," ++ nl
    ++ "  " ++ dq ++ "authToken" ++ dq ++ ": " ++ dq
    ++ "your-bearer-token-here" ++ dq ++ nl ++ "}" ++ nl ++ nl
    ++ "Original error: " ++ errorMessage
  else if includes errorMessage "404" || includes errorMessage "not found"
  then
    "API specification not found at " ++ url ++ ". Please verify:" ++ nl
    ++ "- The URL is correct" ++ nl
    ++ "- The API spec is publicly accessible" ++ nl
    ++ "- The endpoint returns OpenAPI/Swagger JSON or YAML" ++ nl ++ nl
    ++ "Original error: " ++ errorMessage
  else if includes errorMessage "timeout" || includes errorMessage "ETIMEDOUT"
  then
    "Request timed out while fetching " ++ url
    ++ ". The API may be slow or unreachable. Try again or check if the URL is accessible."
    ++ nl ++ nl ++ "Original error: " ++ errorMessage
  else if includes errorMessage "Parse" || includes errorMessage "parse"
  then
    "Failed to parse the API specification. The URL may not be returning valid OpenAPI/Swagger JSON or YAML format."
    ++ nl ++ nl ++ "Original error: " ++ errorMessage
  else errorMessage.

(** ** [executeApiRequest] *)

Record ExecuteArgs : Type := mkExecuteArgs {
  ex_url : string;
  ex_method : option string;
  ex_body : json;
  ex_headers : option (list (string * string));
  ex_authToken : option string;
  ex_timeout : option Z;
  ex_followRedirects : option bool
}.

(** The part of [AxiosRequestConfig] that [executeApiRequest] fills. *)
Record RequestConfig : Type := mkRequestConfig {
  cfg_url : string;
  cfg_method : string;
  cfg_headers : list (string * string);
  cfg_timeout : Z;
  cfg_maxRedirects : Z;
  cfg_data : option json
}.

(** [{ ...into, ...from }]: a key that is present keeps its position. *)
Definition spread (into from : list (string * string))
  : list (string * string) :=
  fold_left (fun m kv => OpenAPIParser.map_set (fst kv) (snd kv) m)
    from into.

(** [list.includes(s)] *)
Definition one_of (s : string) (l : list string) : bool :=
  existsb (String.eqb s) l.

(** [executeApiRequest], from its arguments to the request that it
    sends and the headers that it logs and reports. *)
Definition build_request (args : ExecuteArgs)
  : RequestConfig * list (string * string) :=
  let method :=
    toUpperCase (match nonempty (ex_method args) with
                 | Some m => m
                 | None => "GET"
                 end) in
  let timeout := number_or (ex_timeout args) 30000 in
  let headers :=
    spread [ ("User-Agent", "knotty/1.0.0");
             ("Accept", "application/json, text/plain, */*") ]
      (match ex_headers args with Some h => h | None => [] end) in
  let headers :=
    match nonempty (ex_authToken args) with
    | Some token =>
        OpenAPIParser.map_set "Authorization" ("Bearer " ++ token)%string
          headers
    | None => headers
    end in
  let headers :=
    if truthy (ex_body args) && one_of method ["POST"; "PUT"; "PATCH"] then
      OpenAPIParser.map_set "Content-Type" "application/json" headers
    else headers in
  let config :=
    {| cfg_url := ex_url args;
       cfg_method := method;
       cfg_headers := headers;
       cfg_timeout := timeout;
       cfg_maxRedirects :=
         match ex_followRedirects args with
         | Some false => 0%Z
         | _ => 5%Z
         end;
       cfg_data :=
         if truthy (ex_body args)
            && one_of method ["POST"; "PUT"; "PATCH"; "DELETE"]
         then Some (ex_body args) else None |} in
  let safeHeaders := headers in
  let safeHeaders :=
    match nonempty (assoc "Authorization" safeHeaders) with
    | Some _ =>
        OpenAPIParser.map_set "Authorization" "Bearer [REDACTED]" safeHeaders
    | None => safeHeaders
    end in
  (config, safeHeaders).

End ToolHandler.

(** The tool dispatch of [index.ts]. *)
Module Dispatch.
Import ToolHandler.

(** [if (n) n = Math.min(Math.max(lo, n), hi)] *)
Definition clamp (lo hi : Z) (o : option Z) : option Z :=
  match o with
  | Some n => if (n =? 0)%Z then Some n else Some (Z.min (Z.max lo n) hi)
  | None => None
  end.

(** case 'getApiSchema' *)
Definition getApiSchemaArgs (args : GetApiSchemaArgs) : GetApiSchemaArgs :=
  mkSchemaArgs (arg_query args) (clamp 1 50 (arg_maxResults args))
    (arg_includeRequestBody args) (arg_includeResponses args)
    (arg_method args) (arg_tag args).

(** case 'executeApiRequest' *)
Definition executeApiRequestArgs (args : ExecuteArgs) : ExecuteArgs :=
  mkExecuteArgs (ex_url args) (ex_method args) (ex_body args)
    (ex_headers args) (ex_authToken args)
    (clamp 1000 60000 (ex_timeout args)) (ex_followRedirects args).

(** case 'req' *)
Definition reqArgs (args : ExecuteArgs) : ExecuteArgs :=
  mkExecuteArgs (ex_url args) (ex_method args) (ex_body args)
    (ex_headers args) (ex_authToken args) (Some 30000%Z) (Some true).
End Dispatch.


(* ===================================================================== *)
(** * Order by a numeric key *)
(* ===================================================================== *)

Module SortSpec.

(** The comparator [(a, b) => b.score - a.score]. *)
Definition by_key {A : Type} (key : A -> Z) (a b : A) : Z :=
  (key b - key a)%Z.

(** [a] may stand before [b] in a list of descending keys. *)
Definition desc {A : Type} (key : A -> Z) (a b : A) : Prop :=
  (key b <= key a)%Z.

End SortSpec.

(* ===================================================================== *)
(** * The search as the specification words it *)
(* ===================================================================== *)

Module SearchSpec.
Import JsString Js Search.

Definition is_string (v : json) : bool :=
  match v with JStr _ => true | _ => false end.

Definition is_string_or_absent (v : json) : bool :=
  match v with JUndef | JNull | JStr _ => true | _ => false end.

(** An endpoint as [types.ts] declares it: the optional texts are
    strings when present and [tags] is an array of strings. *)
Definition well_typed (ep : NormalizedEndpoint) : bool :=
  is_string_or_absent (operationId ep) &&
  is_string_or_absent (summary ep) &&
  is_string_or_absent (description ep) &&
  match tags ep with
  | JArr ts => forallb is_string ts
  | _ => false
  end.

(** The lowercase text of an optional field. *)
Definition lowered (v : json) : option string :=
  match v with JStr s => Some (toLowerCase s) | _ => None end.

Definition tag_texts (v : json) : list string :=
  match v with
  | JArr ts =>
      flat_map (fun t => match t with
                         | JStr s => [toLowerCase s]
                         | _ => []
                         end) ts
  | _ => []
  end.

Definition any_tag_includes (ep : NormalizedEndpoint) (q : string) : bool :=
  existsb (fun s => includes s q) (tag_texts (tags ep)).

(** Method: exact match, case-insensitive.  Tag: substring match,
    case-insensitive.  An absent or empty filter lets everything pass. *)
Definition passes (filters : Filters) (ep : NormalizedEndpoint) : bool :=
  match nonempty (filter_method filters) with
  | Some m => String.eqb (toLowerCase (method ep)) (toLowerCase m)
  | None => true
  end &&
  match nonempty (filter_tag filters) with
  | Some t => any_tag_includes ep (toLowerCase t)
  | None => true
  end.

Definition points (c : bool) (k : Z) : Z := if c then k else 0%Z.

(** The bonuses for the whole query [q] (lowercase and trimmed). *)
Definition whole_query_score (q : string) (ep : NormalizedEndpoint) : Z :=
  ((if opt_equals (lowered (operationId ep)) q then 100
    else points (opt_includes (lowered (operationId ep)) q) 50)
   + points (includes (toLowerCase (path ep)) q) 40
   + points (opt_includes (lowered (summary ep)) q) 30
   + points (opt_includes (lowered (description ep)) q) 20
   + points (any_tag_includes ep q) 15)%Z.

(** The bonuses for one term of the query. *)
Definition term_score (ep : NormalizedEndpoint) (term : string) : Z :=
  (points (includes (toLowerCase (path ep)) term) 5
   + points (opt_includes (lowered (operationId ep)) term) 5
   + points (opt_includes (lowered (summary ep)) term) 3
   + points (opt_includes (lowered (description ep)) term) 2)%Z.

Definition total (l : list Z) : Z := fold_right Z.add 0%Z l.

Definition normalized (query : string) : string := trim (toLowerCase query).

Definition terms (query : string) : list string :=
  filter (fun t => negb (String.eqb t "")) (split_ws (normalized query)).

Definition score (query : string) (ep : NormalizedEndpoint) : Z :=
  (whole_query_score (normalized query) ep
   + total (map (term_score ep) (terms query)))%Z.

(** The endpoints that pass the filters and score above zero, in the
    order of the description. *)
Definition candidates (spec : NormalizedApiSpec) (query : string)
  (filters : Filters) : list NormalizedEndpoint :=
  filter (fun ep => (score query ep >? 0)%Z)
    (filter (passes filters) (endpoints spec)).

(** Descending score. *)
Definition ranked (query : string) (l : list NormalizedEndpoint) : Prop :=
  StronglySorted (fun a b => (score query b <= score query a)%Z) l.

(** The endpoints of score [s], in order. *)
Definition tied (query : string) (s : Z) (l : list NormalizedEndpoint)
  : list NormalizedEndpoint :=
  filter (fun ep => (score query ep =? s)%Z) l.

(** A query of white space only. *)
Fixpoint blank (query : string) : bool :=
  match query with
  | EmptyString => true
  | String c r => is_space c && blank r
  end.

End SearchSpec.

Module SearchExamples.
Import Search.

(** Four endpoints, in the order of a description. *)
Definition sample_endpoint (p m : string) (oid : json) (tgs : list string)
  : NormalizedEndpoint :=
  mkEndpoint p m oid JUndef JUndef (JArr (map JStr tgs)) (JBool false)
    [] [] [] [] None [] [].

Definition sample_spec : NormalizedApiSpec :=
  let eps :=
    [ sample_endpoint "/users/{id}" "get" (JStr "getUserById") ["users"];
      sample_endpoint "/users" "get" (JStr "getUsers") ["users"];
      sample_endpoint "/pets" "post" JUndef ["pets"];
      sample_endpoint "/users" "post" (JStr "createUser") ["users"] ] in
  mkApiSpec (JStr "T") (JStr "1") JUndef JUndef [] eps [] (length eps)
    "" "" "OpenAPI 3.0.3".

End SearchExamples.

(* ===================================================================== *)
(** * HTML detection as the specification words it *)
(* ===================================================================== *)

Module FetchSpec.
Import JsString.

(** The body tests: a doctype or html tag at the start of the trimmed
    body, or an opening head tag and an opening body tag anywhere. *)
Definition body_looks_html (data : string) : bool :=
  let trimmed := toLowerCase (trim data) in
  startsWith trimmed "<!doctype html" ||
  startsWith trimmed "<html" ||
  (includes trimmed "<head" && includes trimmed "<body").

(** "The declared content type contains html, or ..." *)
Definition classified_html (data contentType : string) : bool :=
  includes contentType "html" || body_looks_html data.

End FetchSpec.

(* ===================================================================== *)
(** * The base URL as the specification words it *)
(* ===================================================================== *)

Module BaseUrlSpec.
Import Js.

(** Each function reads one field of a document given by its entries;
    [None] stands for a field that is not typed as the OpenAPI schema
    declares it, about which the specification says nothing. *)

(** The first declared server's URL, [undefined] when no server is
    declared. *)
Definition first_server_url (doc : list (string * json)) : option json :=
  match assoc "servers" doc with
  | None => Some JUndef
  | Some (JArr []) => Some JUndef
  | Some (JArr (JObj server :: _)) => Some (of_option (assoc "url" server))
  | Some _ => None
  end.

(** A declared host: a non-empty string. *)
Definition declared_host (doc : list (string * json)) : option string :=
  match assoc "host" doc with
  | Some (JStr h) => if String.eqb h "" then None else Some h
  | _ => None
  end.

(** The first entry of [schemes], "https" when [schemes] is absent. *)
Definition declared_scheme (doc : list (string * json)) : option string :=
  match assoc "schemes" doc with
  | None => Some "https"
  | Some (JArr (JStr s :: _)) => if String.eqb s "" then None else Some s
  | Some _ => None
  end.

(** [basePath], the empty string when absent. *)
Definition declared_basePath (doc : list (string * json)) : option string :=
  match assoc "basePath" doc with
  | None => Some EmptyString
  | Some (JStr b) => Some b
  | Some _ => None
  end.

Definition specified_baseUrl (isV3 : bool) (doc : list (string * json))
  : option json :=
  if isV3 then first_server_url doc
  else
    match declared_host doc, declared_scheme doc, declared_basePath doc with
    | Some h, Some sc, Some bp => Some (JStr (sc ++ "://" ++ h ++ bp)%string)
    | _, _, _ => None
    end.

(** [swagger: "2.0", host: "api.x.com", basePath: "/v1",
    schemes: ["https"]] *)
Definition swagger_example : json :=
  JObj [ ("swagger", JStr "2.0");
         ("info", JObj [("title", JStr "T"); ("version", JStr "1")]);
         ("host", JStr "api.x.com");
         ("basePath", JStr "/v1");
         ("schemes", JArr [JStr "https"]);
         ("paths", JObj []) ].

End BaseUrlSpec.

(* ===================================================================== *)
(** * The parameter overlay as the specification words it *)
(* ===================================================================== *)

Module MergeSpec.
Import JsString Js.

(** An entry that is a reference: an object with a [$ref] member. *)
Definition is_ref (p : json) : bool :=
  match p with
  | JObj kvs => match assoc "$ref" kvs with Some _ => true | None => false end
  | _ => false
  end.

(** The pair (location, name) of a parameter object. *)
Definition pair_of (p : json) : option (string * string) :=
  match p with
  | JObj kvs =>
      match assoc "$ref" kvs, assoc "in" kvs, assoc "name" kvs with
      | None, Some (JStr l), Some (JStr n) => Some (l, n)
      | _, _, _ => None
      end
  | _ => None
  end.

Fixpoint colon_free (s : string) : bool :=
  match s with
  | EmptyString => true
  | String c r => negb (Ascii.eqb c ":") && colon_free r
  end.

(** An entry of a [parameters] array as the OpenAPI schemas declare it:
    a reference, or a parameter with a textual name and a location, which
    is one word ("path", "query", "header", "cookie", "body",
    "formData"). *)
Definition typed (p : json) : bool :=
  is_ref p ||
  match pair_of p with
  | Some (l, _) => colon_free l
  | None => false
  end.

Definition has_pair (k : string * string) (p : json) : bool :=
  match pair_of p with
  | Some (l, n) => String.eqb l (fst k) && String.eqb n (snd k)
  | None => false
  end.

(** The parameter that one level declares for a pair; the last one,
    should the level repeat a pair. *)
Fixpoint entry (k : string * string) (ps : list json) : option json :=
  match ps with
  | [] => None
  | p :: r =>
      match entry k r with
      | Some q => Some q
      | None => if has_pair k p then Some p else None
      end
  end.

(** Path-item level overlaid by operation level. *)
Definition overlay (k : string * string) (pathParams opParams : list json)
  : option json :=
  match entry k opParams with
  | Some q => Some q
  | None => entry k pathParams
  end.

Definition to_list {A} (o : option A) : list A :=
  match o with Some a => [a] | None => [] end.

(** The [parameters] array of a path item or an operation; empty when
    the member is absent. *)
Definition level (holder : json) : option (list json) :=
  match get holder "parameters" with
  | Ok JUndef => Some []
  | Ok (JArr ps) => if forallb typed ps then Some ps else None
  | _ => None
  end.

End MergeSpec.

(* ===================================================================== *)
(** * The parameter map of [parseOperation], as a fold *)
(* ===================================================================== *)

Module MergeModel.
Import JsString Js OpenAPIParser MergeSpec.

(** The key that [dedupe] computes for a parameter. *)
Definition skey (p : json) : string :=
  match pair_of p with
  | Some (l, n) => (l ++ ":" ++ n)%string
  | None => EmptyString
  end.

(** One turn of the loop of [dedupe] on a typed entry. *)
Definition step (m : list (string * json)) (p : json)
  : list (string * json) :=
  if is_ref p then m else map_set (skey p) p m.

Definition key_of_pair (k : string * string) : string :=
  (fst k ++ ":" ++ snd k)%string.

(** A stored parameter: not a reference, with a one-word location, under
    its own key. *)
Definition stored (kv : string * json) : Prop :=
  fst kv = skey (snd kv) /\
  exists l n, pair_of (snd kv) = Some (l, n) /\ colon_free l = true.

(** What holds of the map throughout the loop over [source]: keys are
    distinct, each parameter is stored under its own key, and each comes
    from [source]. *)
Record invariant (source : list json) (m : list (string * json)) : Prop := {
  inv_keys : NoDup (map fst m);
  inv_stored : forall kv, In kv m -> stored kv;
  inv_source : forall kv, In kv m -> In (snd kv) source
}.

End MergeModel.

Module LocationSpec.
Import Js MergeSpec.

(** The parameters of one location. *)
Definition located (location : string) (p : json) : bool :=
  match pair_of p with
  | Some (l, _) => String.eqb l location
  | None => false
  end.

End LocationSpec.

(* ===================================================================== *)
(** * Nesting of a normalized schema, and a cyclic document *)
(* ===================================================================== *)

Module DepthSpec.
Import Js.

(** One more than the greatest [f] over the list; 0 for the empty list. *)
Definition above {A} (f : A -> nat) (l : list A) : nat :=
  fold_right (fun x acc => Nat.max (S (f x)) acc) 0 l.

Definition above_opt {A} (f : A -> nat) (o : option (list A)) : nat :=
  match o with Some l => above f l | None => 0 end.

(** The number of levels of sub-schemas below a schema. *)
Fixpoint height (s : NormalizedSchema) : nat :=
  Nat.max
    (match schema_items s with Some i => S (height i) | None => 0 end)
    (Nat.max
       (above_opt (fun kv => height (snd kv)) (schema_properties s))
       (Nat.max (above_opt height (schema_oneOf s))
          (Nat.max (above_opt height (schema_anyOf s))
             (above_opt height (schema_allOf s))))).

(** A schema that refers to itself, and a list node that refers to
    itself through a property. *)
Definition cyclic_document : json :=
  JObj
    [ ("swagger", JStr "2.0");
      ("definitions",
       JObj
         [ ("Loop", JObj [("$ref", JStr "#/definitions/Loop")]);
           ("Node",
            JObj
              [ ("type", JStr "object");
                ("properties",
                 JObj [ ("next",
                         JObj [("$ref", JStr "#/definitions/Node")]) ]) ]) ]) ].

Definition loop_ref : json := JObj [("$ref", JStr "#/definitions/Loop")].
Definition node_ref : json := JObj [("$ref", JStr "#/definitions/Node")].

End DepthSpec.

(* ===================================================================== *)
(** * Sample documents *)
(* ===================================================================== *)

Module ParserExamples.
Import Js OpenAPIParser BaseUrlSpec.

(** The document of the first test of [parser.test.ts]. *)
Definition users_document : json :=
  let ok d := JObj [("description", JStr d)] in
  JObj
    [ ("openapi", JStr "3.0.3");
      ("info", JObj [ ("title", JStr "Test API"); ("version", JStr "1.0.0");
                      ("description", JStr "A test API") ]);
      ("paths",
       JObj
         [ ("/users",
            JObj
              [ ("get",
                 JObj [ ("operationId", JStr "getUsers");
                        ("summary", JStr "Get all users");
                        ("tags", JArr [JStr "users"]);
                        ("responses", JObj [("200", ok "Success")]) ]);
                ("post",
                 JObj
                   [ ("operationId", JStr "createUser");
                     ("summary", JStr "Create a user");
                     ("tags", JArr [JStr "users"]);
                     ("requestBody",
                      JObj
                        [ ("required", JBool true);
                          ("content",
                           JObj
                             [ ("application/json",
                                JObj
                                  [ ("schema",
                                     JObj
                                       [ ("type", JStr "object");
                                         ("properties",
                                          JObj
                                            [ ("name",
                                               JObj [("type", JStr "string")]);
                                              ("email",
                                               JObj [ ("type", JStr "string");
                                                      ("format", JStr "email") ]) ]);
                                         ("required",
                                          JArr [JStr "name"; JStr "email"]) ]) ]) ]) ]);
                     ("responses", JObj [("201", ok "Created")]) ]) ]);
           ("/users/{id}",
            JObj
              [ ("get",
                 JObj
                   [ ("operationId", JStr "getUserById");
                     ("summary", JStr "Get user by ID");
                     ("tags", JArr [JStr "users"]);
                     ("parameters",
                      JArr [ JObj [ ("name", JStr "id"); ("in", JStr "path");
                                    ("required", JBool true);
                                    ("schema", JObj [("type", JStr "string")]) ] ]);
                     ("responses",
                      JObj [("200", ok "Success"); ("404", ok "Not found")]) ]) ]) ]) ].

Definition iso_epoch (ms : Z) : string := "1970-01-01T00:00:00.000Z".

Definition users_fetch : FetchResult :=
  mkFetchResult users_document 0 "https://api.example.com/openapi.json"
    "OpenAPI 3.0.3" None None.

Definition swagger_fetch : FetchResult :=
  mkFetchResult swagger_example 0 "https://api.x.com/swagger.json"
    "Swagger 2.0" None None.

(** A path item that declares [id] in the path and [limit] in the
    query, and an operation that declares [id] again, a reference, and
    [X-Trace] in the header. *)
Definition param (location name : string) (required : bool) : json :=
  JObj [ ("name", JStr name); ("in", JStr location);
         ("required", JBool required) ].

Definition item_example : json :=
  JObj [ ("parameters",
          JArr [ param "path" "id" false; param "query" "limit" false ]);
         ("get",
          JObj [ ("operationId", JStr "getUserById");
                 ("parameters",
                  JArr [ param "path" "id" true;
                         JObj [("$ref", JStr "#/parameters/page")];
                         param "header" "X-Trace" false ]) ]) ].

Definition operation_example : json :=
  of_option (assoc "get" match item_example with
                         | JObj kvs => kvs
                         | _ => []
                         end).

End ParserExamples.

Module TestDocuments.
Import Js OpenAPIParser.

(** The documents of the second and third test of [parser.test.ts]. *)
Definition pets_document : json :=
  JObj
    [ ("swagger", JStr "2.0");
      ("info", JObj [ ("title", JStr "Swagger Test API");
                      ("version", JStr "2.0.0") ]);
      ("host", JStr "api.example.com");
      ("basePath", JStr "/v1");
      ("schemes", JArr [JStr "https"]);
      ("paths",
       JObj
         [ ("/pets",
            JObj
              [ ("get",
                 JObj [ ("operationId", JStr "getPets");
                        ("summary", JStr "List pets");
                        ("produces", JArr [JStr "application/json"]);
                        ("responses",
                         JObj [ ("200",
                                 JObj [("description",
                                        JStr "List of pets")]) ]) ]) ]) ]) ].

Definition secure_document : json :=
  JObj
    [ ("openapi", JStr "3.0.3");
      ("info", JObj [ ("title", JStr "Secure API");
                      ("version", JStr "1.0.0") ]);
      ("paths",
       JObj
         [ ("/secure",
            JObj
              [ ("get",
                 JObj [ ("operationId", JStr "secureEndpoint");
                        ("summary", JStr "Secure endpoint");
                        ("security", JArr [JObj [("bearerAuth", JArr [])]]);
                        ("responses",
                         JObj [ ("200",
                                 JObj [("description",
                                        JStr "Success")]) ]) ]) ]) ]);
      ("components",
       JObj
         [ ("securitySchemes",
            JObj
              [ ("bearerAuth",
                 JObj [ ("type", JStr "http"); ("scheme", JStr "bearer");
                        ("bearerFormat", JStr "JWT") ]) ]) ]) ].

Definition fetched (doc : json) (label : string) : FetchResult :=
  mkFetchResult doc 0 "https://api.example.com/openapi.json" label None None.

(** The value of a result, for the tests; a raised exception gives
    [None]. *)
Definition value {A} (r : result A) : option A :=
  match r with Ok a => Some a | Throw _ => None end.

End TestDocuments.

(* ===================================================================== *)
(** * Vocabulary for the schedules of [refresh] *)
(* ===================================================================== *)

Module CacheSpec.
Import SpecCache.

Definition is_done (tk : task) : bool :=
  match state tk with Done _ => true | _ => false end.

Definition is_sleeping (tk : task) : bool :=
  match state tk with Sleeping _ => true | _ => false end.

(** No refresh is in flight and no earlier call is still pending; a
    producer is configured. *)
Definition idle (w : world) : bool :=
  negb (isRefreshing (obj w)) && onRefresh (obj w) &&
  forallb is_done (tasks w).

(** A call of [refresh()] begins. *)
Definition arrival (ev : event) : bool :=
  match ev with Call | Fire => true | _ => false end.

(** Time passes or a waiting call polls. *)
Definition quiet (ev : event) : bool :=
  match ev with Wake _ | Tick _ => true | _ => false end.

Definition not_settle (ev : event) : bool :=
  match ev with Settle _ _ => false | _ => true end.

(** Anything but the success of a producer. *)
Definition no_success (ev : event) : bool :=
  match ev with Settle _ (inl _) => false | _ => true end.

(** What the call that invoked the producer ends with. *)
Definition leader_outcome (r : NormalizedApiSpec + string) : outcome :=
  match r with
  | inl spec => Resolved spec
  | inr reason => Rejected (Produced reason)
  end.

(** What a waiting call ends with, from its read of the slot. *)
Definition waiter_outcome (cached : option NormalizedApiSpec) : outcome :=
  match cached with
  | Some spec => Resolved spec
  | None => Rejected RefreshFailed
  end.

(** The cache object after the producer settled with [r] at time [ts]. *)
Definition slot_after (r : NormalizedApiSpec + string) (ts : Z) (c : t) : t :=
  match r with
  | inl spec => set ts spec c
  | inr _ => c
  end.

(** A description with a title and no endpoint. *)
Definition titled (name : string) : NormalizedApiSpec :=
  mkApiSpec (JStr name) (JStr "1.0.0") JUndef JUndef [] [] [] 0
    "1970-01-01T00:00:00.000Z" "https://api.test.com/openapi.json"
    "OpenAPI 3.0.3".

(** A cache with a time to live of ten minutes that was filled at time 0
    and runs the auto-refresh timer. *)
Definition filled : t :=
  startAutoRefresh (set 0 (titled "old") (create 600000 true)).

Definition world_at (time : Z) : world := mkWorld filled time [] 0 [].

End CacheSpec.

(* ===================================================================== *)
(** * The phases of a group of overlapping calls *)
(* ===================================================================== *)

Module CachePhases.
Import SpecCache CacheSpec.

Section From.
(** The world in which the group begins. *)
Variable w0 : world.

(** No call has begun yet. *)
Definition waiting_for_leader (w : world) : Prop :=
  isRefreshing (obj w) = false /\
  invocations w = invocations w0 /\
  tasks w = tasks w0.

(** One call awaits the producer, the others sleep. *)
Definition in_flight (w : world) : Prop :=
  isRefreshing (obj w) = true /\
  invocations w = S (invocations w0) /\
  exists o ws,
    tasks w = tasks w0 ++ mkTask o AwaitProducer :: ws /\
    Forall (fun tk => is_sleeping tk = true) ws.

Record gathering (w : world) : Prop := {
  g_cache : cache (obj w) = cache (obj w0);
  g_ttl : ttlMs (obj w) = ttlMs (obj w0);
  g_producer : onRefresh (obj w) = true;
  g_now : (now w0 <= now w)%Z;
  g_shape : waiting_for_leader w \/ in_flight w
}.

Section Settled.
(** How and when the producer settled. *)
Variable r : NormalizedApiSpec + string.
Variable ts : Z.

(** What a waiting call ends with when it reads the slot at [time]. *)
Definition read_at (time : Z) : outcome :=
  waiter_outcome (get time (slot_after r ts (obj w0))).

(** A waiting call still sleeps, or has read the slot by [limit]. *)
Definition polled (limit : Z) (tk : task) : Prop :=
  is_sleeping tk = true \/
  exists time, (ts <= time <= limit)%Z /\ state tk = Done (read_at time).

Record draining (w : world) : Prop := {
  d_cache : cache (obj w) = cache (slot_after r ts (obj w0));
  d_flag : isRefreshing (obj w) = false;
  d_calls : invocations w = S (invocations w0);
  d_now : (ts <= now w)%Z;
  d_tasks :
    exists o ws,
      tasks w = tasks w0 ++ mkTask o (Done (leader_outcome r)) :: ws /\
      Forall (polled (now w)) ws
}.

End Settled.
End From.

End CachePhases.

(* ===================================================================== *)
(** * Vocabulary for endpoints, references and responses *)
(* ===================================================================== *)

Module EndpointSpec.
Import JsString Js OpenAPIParser.

(** [v === null || v === undefined] *)
Definition nullish (v : json) : bool :=
  match v with JUndef | JNull => true | _ => false end.

(** The operation at [method] of the path item [pathItem] is present and
    [parseOperation] normalizes it to [ep]. *)
Definition operation_of (spec : json) (isV3 : bool)
  (p : string) (pathItem : json) (m : string) (ep : NormalizedEndpoint)
  : Prop :=
  exists operation,
    get pathItem m = Ok operation /\ truthy operation = true /\
    parseOperation spec isV3 p m operation pathItem = Ok ep.

(** The entries of [spec.paths || {}]. *)
Definition path_entries (spec : json) : result (list (string * json)) :=
  ps <- get spec "paths" ;; entries (or_else ps (JObj [])).
End EndpointSpec.

Module RefSpec.
Import JsString Js OpenAPIParser.

Fixpoint no_slash (s : string) : bool :=
  match s with
  | EmptyString => true
  | String c r => negb (Ascii.eqb c "/") && no_slash r
  end.

(** The local reference [#/p1/.../pn]. *)
Definition pointer (parts : list string) : string :=
  "#/" ++ join "/" parts.

(** The value reached from [v] through the own properties [parts];
    [undefined] as soon as one is missing or the holder is not an
    object or array. *)
Fixpoint own_path (v : json) (parts : list string) : json :=
  match parts with
  | [] => v
  | k :: rest =>
      match v with
      | JObj kvs =>
          match assoc k kvs with
          | Some x => own_path x rest
          | None => JUndef
          end
      | JArr xs =>
          if k =? "length" then own_path (length_of xs) rest
          else
            match assoc k (indexed xs) with
            | Some x => own_path x rest
            | None => JUndef
            end
      | _ => JUndef
      end
  end.

(** The names of the members that every object inherits from
    [Object.prototype]: the operator [in] and a property read find them
    on an object that does not hold them itself. *)
Definition object_prototype : list string :=
  [ "constructor"; "__proto__"; "hasOwnProperty"; "isPrototypeOf";
    "propertyIsEnumerable"; "toLocaleString"; "toString"; "valueOf";
    "__defineGetter__"; "__defineSetter__"; "__lookupGetter__";
    "__lookupSetter__" ].

Definition inherited (k : string) : bool :=
  existsb (String.eqb k) object_prototype.

(** Along [parts] from [v], no part is found on a prototype: a part
    read from an object is a member of the object itself or is not the
    name of a member of [Object.prototype], and a part read from an
    array is [length] or an index of the array.  The walk ends at a holder
    that is not an object or array. *)
Fixpoint own_members (v : json) (parts : list string) : bool :=
  match parts with
  | [] => true
  | k :: rest =>
      match v with
      | JObj kvs =>
          match assoc k kvs with
          | Some x => own_members x rest
          | None => negb (inherited k)
          end
      | JArr xs =>
          if k =? "length" then true
          else
            match assoc k (indexed xs) with
            | Some x => own_members x rest
            | None => false
            end
      | _ => true
      end
  end.

(** The reference [r] leads nowhere in [spec]. *)
Definition dangling (spec : json) (r : string) : bool :=
  match resolveRef spec (JStr r) with
  | Ok v => negb (truthy v)
  | Throw _ => false
  end.

(** The schema object that holds nothing but the reference [r]. *)
Definition only_ref (r : string) : json := JObj [("$ref", JStr r)].

(** A response entry that [parseResponses] keeps. *)
Definition kept_response (v : json) : bool :=
  truthy v &&
  match has "$ref" v with
  | Ok isRef => negb isRef
  | Throw _ => false
  end.
End RefSpec.

Module MoreDocuments.
Import Js OpenAPIParser.

(** A document with one operation in order and one whose [parameters]
    is a number, on which the spread in [parseOperation] raises. *)
Definition flawed_document : json :=
  JObj
    [ ("openapi", JStr "3.0.3");
      ("info", JObj [("title", JStr "Flawed"); ("version", JStr "1")]);
      ("paths",
       JObj
         [ ("/ok", JObj [("get", JObj [("operationId", JStr "fine")])]);
           ("/bad", JObj [("get", JObj [("parameters", JNum 5)])]) ]) ].

(** A schema that refers to another document, next to a description. *)
Definition external_pet : list (string * json) :=
  [ ("$ref", JStr "https://example.com/schemas/pet.json");
    ("description", JStr "A pet") ].

(** A requirement that names a declared scheme and one that does not. *)
Definition mixed_security : json :=
  JArr [ JObj [("bearerAuth", JArr [JStr "read"])];
         JObj [("missing", JArr [])] ].

(** Responses of which one is a reference and one is [null]. *)
Definition mixed_responses : json :=
  JObj [ ("200", JObj [("description", JStr "Success")]);
         ("404", JObj [("$ref", JStr "#/components/responses/NotFound")]);
         ("500", JNull);
         ("default", JObj [("description", JStr "Error")]) ].

End MoreDocuments.


(* ===================================================================== *)
(** * Well-formed schemas; declared security schemes *)
(* ===================================================================== *)

Module ShapeSpec.
Import JsString Js OpenAPIParser.

(** The member [k] of an object, [undefined] when absent. *)
Definition member (kvs : list (string * json)) (k : string) : json :=
  of_option (assoc k kvs).

(** A combinator member is absent or falsy, or an array of schemas in
    [P]. *)
Definition list_of (P : json -> Prop) (v : json) : Prop :=
  truthy v = true -> exists xs, v = JArr xs /\ Forall P xs.

(** A schema object whose reference is a string and whose combinators
    are arrays, and whose sub-schemas (the target of the reference, the
    items, the properties, the members of the combinators) are in
    [P]. *)
Definition node_ok (P : json -> Prop) (spec : json)
  (kvs : list (string * json)) : Prop :=
  if truthy (member kvs "$ref") then
    exists p,
      member kvs "$ref" = JStr p /\
      forall target,
        resolveRef spec (JStr p) = Ok target -> truthy target = true ->
        P target
  else
    (is_str (member kvs "type") "array" = true ->
     truthy (member kvs "items") = true -> P (member kvs "items")) /\
    (truthy (member kvs "properties") = true ->
     forall es, entries (member kvs "properties") = Ok es ->
                Forall (fun kv => P (snd kv)) es) /\
    list_of P (member kvs "oneOf") /\
    list_of P (member kvs "anyOf") /\
    list_of P (member kvs "allOf").

(** [P] is a set of well-formed schemas of the document: every truthy
    member of [P] is an object in order whose sub-schemas are again in
    [P].  References may form cycles. *)
Definition well_formed (P : json -> Prop) (spec : json) : Prop :=
  forall s, P s -> truthy s = true ->
            exists kvs, s = JObj kvs /\ node_ok P spec kvs.

(** The schemas of the list node of [DepthSpec.cyclic_document]: the
    reference to the node and the node itself. *)
Definition node_schema : json :=
  JObj [ ("type", JStr "object");
         ("properties", JObj [("next", DepthSpec.node_ref)]) ].

Definition list_nodes (s : json) : Prop :=
  s = DepthSpec.node_ref \/ s = node_schema.

End ShapeSpec.

Module SchemeSpec.
Import JsString Js OpenAPIParser.

(** The member of the document that declares the security schemes. *)
Definition declared (spec : json) (isV3 : bool) : result json :=
  if isV3 then
    components <- get spec "components" ;;
    get_opt components "securitySchemes"
  else get spec "securityDefinitions".

(** The security schemes are declared in an object, or not at all. *)
Definition declares_in_object (spec : json) (isV3 : bool) : bool :=
  match declared spec isV3 with
  | Ok (JObj _) | Ok JUndef | Ok JNull => true
  | _ => false
  end.

(** The normalization of the declaration [v] of the scheme [name]. *)
Definition normalize_declared (isV3 : bool) (name : string) (v : json)
  : result NormalizedSecurity :=
  if isV3 then normalizeSecurityScheme name v
  else normalizeSecuritySchemeV2 name v.

(** The entries, a name and scopes, of the requirements of [security]. *)
Definition requirements (security : json) : list (string * json) :=
  match iterate security with
  | Ok reqs =>
      flat_map (fun requirement =>
                  match entries requirement with
                  | Ok es => es
                  | Throw _ => []
                  end) reqs
  | Throw _ => []
  end.

(** No requirement of [security] gives the name of a member of
    [Object.prototype]. *)
Definition plainly_named (security : json) : bool :=
  forallb (fun kv => negb (RefSpec.inherited (fst kv)))
    (requirements security).

(** The scheme that [TestDocuments.secure_document] declares. *)
Definition bearer_entries : list (string * json) :=
  [ ("bearerAuth",
     JObj [ ("type", JStr "http"); ("scheme", JStr "bearer");
            ("bearerFormat", JStr "JWT") ]) ].

Definition bearer_scheme : NormalizedSecurity :=
  mkSecurity "bearer" "bearerAuth" JUndef (JStr "bearer") JUndef JUndef.

End SchemeSpec.


(* ===================================================================== *)
(** * Typed operations *)
(* ===================================================================== *)

Module TypedSpec.
Import JsString Js OpenAPIParser SearchSpec EndpointSpec.

(** The member [k] of an operation, [undefined] when absent. *)
Definition field (operation : json) (k : string) : json :=
  match get operation k with
  | Ok v => v
  | Throw _ => JUndef
  end.

(** An operation whose [operationId], [summary] and [description] are
    strings when present and whose [tags], when truthy, is an array of
    strings. *)
Definition typed_operation (operation : json) : bool :=
  is_string_or_absent (field operation "operationId") &&
  is_string_or_absent (field operation "summary") &&
  is_string_or_absent (field operation "description") &&
  match or_else (field operation "tags") (JArr []) with
  | JArr ts => forallb is_string ts
  | _ => false
  end.

(** Every operation of the document is typed. *)
Definition typed_document (spec : json) : Prop :=
  forall es p pathItem m operation,
    path_entries spec = Ok es -> In (p, pathItem) es ->
    In m methods -> get pathItem m = Ok operation ->
    truthy operation = true -> typed_operation operation = true.
End TypedSpec.


(* ===================================================================== *)
(** * Vocabulary for arbitrary schedules of a cache *)
(* ===================================================================== *)

Module FlightSpec.
Import SpecCache CacheSpec.

Definition is_awaiting (tk : task) : bool :=
  match state tk with AwaitProducer => true | _ => false end.

(** The number of calls of [refresh] that wait for the producer. *)
Definition awaiting (w : world) : nat :=
  length (filter is_awaiting (tasks w)).

(** The world of a cache that has just been constructed. *)
Definition fresh (ttl : Z) (producer : bool) (time : Z) : world :=
  mkWorld (create ttl producer) time [] 0 [].

Definition flag_count (w : world) : nat :=
  if isRefreshing (obj w) then 1 else 0.

(** The producer returned [spec] during the schedule. *)
Definition produced (spec : NormalizedApiSpec) (evs : list event) : Prop :=
  exists i, In (Settle i (inl spec)) evs.
End FlightSpec.


(* ===================================================================== *)
(** * Vocabulary for the scan of embedded documents and for validation *)
(* ===================================================================== *)

Module TextSpec.
Import JsString FetcherHelpers.

(** The characters that the scan of [extractJsonObject] takes up to and
    including the one at which it returns. *)
Fixpoint cut (depth : Z) (inString escape : bool) (rest : string)
  : option string :=
  match rest with
  | EmptyString => None
  | String char rest' =>
      if escape then option_map (String char) (cut depth inString false rest')
      else if Ascii.eqb char backslash then
        option_map (String char) (cut depth inString true rest')
      else if Ascii.eqb char quote then
        option_map (String char) (cut depth (negb inString) false rest')
      else if negb inString then
        let depth := if Ascii.eqb char "{" then (depth + 1)%Z else depth in
        let depth := if Ascii.eqb char "}" then (depth - 1)%Z else depth in
        if (depth =? 0)%Z then Some (String char EmptyString)
        else option_map (String char) (cut depth inString false rest')
      else option_map (String char) (cut depth inString false rest')
  end.

(** A character with no role in the scan. *)
Definition plain (c : ascii) : bool :=
  negb (Ascii.eqb c backslash) && negb (Ascii.eqb c quote) &&
  negb (Ascii.eqb c "{") && negb (Ascii.eqb c "}").

(** The inside of a string literal: characters other than the quote and
    the backslash, and escapes of any character. *)
Inductive literal : string -> Prop :=
| literal_end : literal EmptyString
| literal_char c s :
    Ascii.eqb c backslash = false -> Ascii.eqb c quote = false ->
    literal s -> literal (String c s)
| literal_escape c s :
    literal s -> literal (String backslash (String c s)).

(** Text in which braces are matched outside string literals. *)
Inductive balanced : string -> Prop :=
| balanced_end : balanced EmptyString
| balanced_plain c s : plain c = true -> balanced s -> balanced (String c s)
| balanced_literal l s :
    literal l -> balanced s ->
    balanced (String quote l ++ String quote s)
| balanced_braces b s :
    balanced b -> balanced s ->
    balanced (String "{" b ++ String "}" s).

(** The tail of an init script: an object with a brace inside a string
    literal, followed by more script. *)
Definition script_tail : string :=
  "{" ++ String quote "a" ++ String quote ":" ++
  String quote "}" ++ String quote "}, dom_id: '#swagger-ui'".

End TextSpec.

Module ValidationSpec.
Import JsString Js.

(** What [validateSpec] has checked when it returns. *)
Definition accepted (spec : json) : Prop :=
  truthy spec = true /\ is_object spec = true /\
  (exists info, get spec "info" = Ok info /\ truthy info = true) /\
  (exists paths, get spec "paths" = Ok paths /\ truthy paths = true) /\
  ((has "openapi" spec = Ok true /\
    exists r, get spec "openapi" = Ok (JStr (String "3" r))) \/
   (has "openapi" spec = Ok false /\ has "swagger" spec = Ok true /\
    get spec "swagger" = Ok (JStr "2.0"))).
End ValidationSpec.


(* ===================================================================== *)
(** * Vocabulary for the tools *)
(* ===================================================================== *)

Module HandlerSpec.
Import JsString Js Search ToolHandler.

(** The number of endpoints that [getApiSchema] returns at most, for
    the [maxResults] that the caller of the tool gave. *)
Definition schema_cap (maxResults : option Z) : nat :=
  match maxResults with
  | None => 10
  | Some n => if (n =? 0)%Z then 0 else Z.to_nat (Z.min (Z.max 1 n) 50)
  end.

(** The same for [analyzeApiFromUrl]. *)
Definition analyze_cap (maxResults : option Z) : nat :=
  match maxResults with
  | None => 10
  | Some n => if (n =? 0)%Z then 10 else Z.to_nat (Z.min (Z.max 1 n) 50)
  end.
End HandlerSpec.

Module HintSpec.
Import JsString.

(** The character [h] does not occur in [s]. *)
Fixpoint no_char (h : ascii) (s : string) : bool :=
  match s with
  | EmptyString => true
  | String c r => negb (Ascii.eqb c h) && no_char h r
  end.

(** The URL holds one of the texts by which [analyzeApiFromUrl]
    recognizes a failed authentication. *)
Definition mentions_auth (url : string) : bool :=
  includes url "401" || includes url "403" ||
  includes url "Authentication failed".

(** The URL holds one of the texts by which it recognizes a missing
    document. *)
Definition mentions_missing (url : string) : bool :=
  includes url "404" || includes url "not found".
End HintSpec.

Module OrderSpec.
Import JsString Js Search ToolHandler SearchSpec.

(** [a] may stand before [b] in an array sorted by [cmp]. *)
Definition before {A} (cmp : A -> A -> Z) (a b : A) : Prop :=
  (cmp a b <= 0)%Z.

(** A comparator that orders its arguments consistently. *)
Definition consistent {A} (cmp : A -> A -> Z) : Prop :=
  (forall a b c, before cmp a b -> before cmp b c -> before cmp a c) /\
  (forall a b, (0 < cmp a b)%Z -> before cmp b a).

(** The tags of the endpoints, in order, with repetitions. *)
Definition all_tags (eps : list NormalizedEndpoint) : list json :=
  flat_map (fun ep => match tags ep with JArr ts => ts | _ => [] end) eps.

Definition text_of (v : json) : string :=
  match v with JStr s => s | _ => EmptyString end.

(** Strictly ascending, code unit by code unit. *)
Definition ascending (names : list string) : Prop :=
  StronglySorted (fun a b => String.compare a b = Lt) names.

(** The brief form in which [listEndpoints] reports an endpoint. *)
Definition brief_of (ep : NormalizedEndpoint) : Brief :=
  mkBrief (toUpperCase (method ep)) (path ep) (operationId ep) (summary ep).

Definition is_undef (v : json) : bool :=
  match v with JUndef => true | _ => false end.

(** An array of strings. *)
Definition strings (l : list json) : Prop :=
  Forall (fun v => is_string v = true) l.

End OrderSpec.

Module HandlerExamples.
Import Search ToolHandler SearchExamples.

(** A search for "users" that asks for a negative number of results. *)
Definition users_args : GetApiSchemaArgs :=
  mkSchemaArgs "users" (Some (-3)%Z) None (Some false) None None.

(** A request with a token, while the caller's headers hold an
    [Authorization] of their own. *)
Definition token_request : ExecuteArgs :=
  mkExecuteArgs "https://api.x.com/users" (Some "post")
    (JObj [("name", JStr "Ada")])
    (Some [("Authorization", "Basic dXNlcjpwYXNz"); ("X-Trace", "1")])
    (Some "secret") (Some 5%Z) None.

End HandlerExamples.


Module CaseSpec.
Import Search.

(** A character of ASCII: a code below 128.  On such characters the
    case mappings of the model, which change the letters A to Z and a to
    z only, are those of JavaScript. *)
Definition ascii_char (c : ascii) : bool :=
  match c with Ascii _ _ _ _ _ _ _ b7 => negb b7 end.

Fixpoint ascii_only (s : string) : bool :=
  match s with
  | EmptyString => true
  | String c rest => ascii_char c && ascii_only rest
  end.

Definition ascii_option (o : option string) : bool :=
  match o with
  | Some s => ascii_only s
  | None => true
  end.

(** The filters of a search hold ASCII characters only. *)
Definition ascii_filters (filters : Filters) : bool :=
  ascii_option (filter_method filters) && ascii_option (filter_tag filters).
End CaseSpec.

(* ===================================================================== *)
(** * Lemmas on the exception monad *)
(* ===================================================================== *)

Section MonadFacts.
Context {A B : Type}.

Lemma mapM_Ok (f : A -> result B) (g : A -> B) (l : list A) :
  (forall a, In a l -> f a = Ok (g a)) -> mapM f l = Ok (map g l).
Proof.
  induction l as [|a r IH]; intros H; simpl; [reflexivity|].
  rewrite (H a (or_introl eq_refl)); simpl.
  rewrite IH by (intros; apply H; right; assumption).
  reflexivity.
Qed.
End MonadFacts.

Lemma filterM_Ok {A} (p : A -> result bool) (q : A -> bool) (l : list A) :
  (forall a, In a l -> p a = Ok (q a)) ->
  filterM p l = Ok (filter q l).
Proof.
  induction l as [|a r IH]; intros H; simpl; [reflexivity|].
  rewrite (H a (or_introl eq_refl)); simpl.
  rewrite IH by (intros; apply H; right; assumption).
  simpl. reflexivity.
Qed.

(* ===================================================================== *)
(** * The stable sort *)
(* ===================================================================== *)

Module SortFacts.
Import Search SortSpec.

Section ByKey.
Context {A : Type} (key : A -> Z).

Lemma insert_perm a l : Permutation (insert (by_key key) a l) (a :: l).
Proof.
  induction l as [|y r IH]; simpl; [apply Permutation_refl|].
  destruct (by_key key a y >? 0)%Z.
  - eapply perm_trans; [apply perm_skip, IH|apply perm_swap].
  - apply Permutation_refl.
Qed.

Lemma sort_perm l : Permutation (sort (by_key key) l) l.
Proof.
  induction l as [|a r IH]; simpl; [constructor|].
  eapply perm_trans; [apply insert_perm|apply perm_skip, IH].
Qed.

Lemma insert_sorted a l :
  StronglySorted (desc key) l ->
  StronglySorted (desc key) (insert (by_key key) a l).
Proof.
  induction 1 as [|y r Hs IH Hall]; simpl.
  - repeat constructor.
  - destruct (by_key key a y >? 0)%Z eqn:E; unfold SortSpec.by_key in E.
    + constructor; [assumption|].
      eapply Permutation_Forall; [symmetry; apply insert_perm|].
      constructor; [unfold SortSpec.desc; lia|assumption].
    + constructor; [constructor; assumption|].
      constructor; [unfold SortSpec.desc; lia|].
      eapply Forall_impl; [|exact Hall].
      unfold SortSpec.desc; intros; lia.
Qed.

Lemma sort_sorted l : StronglySorted (desc key) (sort (by_key key) l).
Proof.
  induction l; simpl; [constructor|apply insert_sorted; assumption].
Qed.

(** Stability: the elements of one key keep their order. *)
Lemma insert_stable s a l :
  filter (fun x => (key x =? s)%Z) (insert (by_key key) a l) =
  filter (fun x => (key x =? s)%Z) (a :: l).
Proof.
  induction l as [|y r IH]; [reflexivity|].
  simpl insert. destruct (by_key key a y >? 0)%Z eqn:E; [|reflexivity].
  unfold SortSpec.by_key in E.
  simpl in *. rewrite IH.
  destruct (key a =? s)%Z eqn:Ea, (key y =? s)%Z eqn:Ey; try reflexivity.
  lia.
Qed.

Lemma sort_stable s l :
  filter (fun x => (key x =? s)%Z) (sort (by_key key) l) =
  filter (fun x => (key x =? s)%Z) l.
Proof.
  induction l as [|a r IH]; [reflexivity|].
  simpl sort. rewrite insert_stable. simpl. rewrite IH. reflexivity.
Qed.
End ByKey.

(** Sorting the pairs [{ endpoint, score }] is sorting the endpoints by
    their score. *)
Lemma sort_pairs {A} (key : A -> Z) l :
  sort (fun x y : A * Z => (snd y - snd x)%Z) (map (fun e => (e, key e)) l) =
  map (fun e => (e, key e)) (sort (by_key key) l).
Proof.
  induction l as [|a r IH]; [reflexivity|].
  simpl. rewrite IH. clear IH.
  induction (sort (by_key key) r) as [|y t IH]; [reflexivity|].
  simpl. unfold SortSpec.by_key at 1.
  destruct (key y - key a >? 0)%Z; simpl; [rewrite IH|]; reflexivity.
Qed.

Lemma filter_pairs {A} (key : A -> Z) (p : Z -> bool) l :
  filter (fun s : A * Z => p (snd s)) (map (fun e => (e, key e)) l) =
  map (fun e => (e, key e)) (filter (fun e => p (key e)) l).
Proof.
  induction l as [|a r IH]; [reflexivity|].
  simpl. destruct (p (key a)); simpl; rewrite IH; reflexivity.
Qed.
End SortFacts.

(* ===================================================================== *)
(** * Search: the code computes the specified ranking *)
(* ===================================================================== *)

Module SearchFacts.
Import JsString Js Search SortSpec SearchSpec SortFacts.

Lemma lower_opt_typed v :
  is_string_or_absent v = true -> lower_opt v = Ok (lowered v).
Proof. destruct v; simpl; intros H; try discriminate; reflexivity. Qed.

Lemma tags_some_typed ep q :
  well_typed ep = true ->
  tags_some (tags ep) q = Ok (any_tag_includes ep q).
Proof.
  unfold well_typed, any_tag_includes, tags_some.
  intros H. apply andb_prop in H. destruct H as [_ H].
  destruct (tags ep) as [| | | | |ts|]; try discriminate. simpl.
  induction ts as [|t r IH]; [reflexivity|].
  simpl in H. apply andb_prop in H. destruct H as [Ht Hr].
  destruct t; try discriminate. simpl.
  destruct (includes (toLowerCase s) q); simpl; [reflexivity|].
  apply IH; assumption.
Qed.

Lemma add_if_points c k s : add_if c k s = (s + points c k)%Z.
Proof. destruct c; simpl; lia. Qed.

Lemma term_step_typed ep s term :
  well_typed ep = true ->
  term_step ep s term = Ok (s + term_score ep term)%Z.
Proof.
  unfold well_typed, term_step, term_score. intros H.
  repeat (apply andb_prop in H; destruct H as [H ?]).
  rewrite !lower_opt_typed by assumption. simpl.
  rewrite !add_if_points. f_equal. lia.
Qed.

Lemma term_loop_typed ep ts : forall s,
  well_typed ep = true ->
  term_loop ep s ts = Ok (s + total (map (term_score ep) ts))%Z.
Proof.
  induction ts as [|t r IH]; intros s H; simpl.
  - f_equal. lia.
  - rewrite term_step_typed by assumption. simpl.
    rewrite IH by assumption. f_equal. lia.
Qed.

Lemma score_endpoint_typed q ts ep :
  well_typed ep = true ->
  score_endpoint q ts ep =
  Ok (ep, (whole_query_score q ep + total (map (term_score ep) ts))%Z).
Proof.
  intros H. unfold score_endpoint.
  pose proof (tags_some_typed ep q H) as Htags.
  pose proof (term_loop_typed ep ts) as Hloop.
  unfold well_typed in H.
  repeat (apply andb_prop in H; destruct H as [H ?]).
  rewrite !lower_opt_typed by assumption. simpl.
  assert (Hw : well_typed ep = true).
  { unfold well_typed. rewrite H, H1, H2. simpl. assumption. }
  unfold whole_query_score.
  destruct (opt_equals (lowered (operationId ep)) q); simpl;
    rewrite Htags; simpl; rewrite !add_if_points, Hloop by exact Hw;
    simpl; do 2 f_equal; lia.
Qed.

Lemma terms_filter query :
  filter (fun t => (0 <? String.length t)%nat) (split_ws (normalized query)) =
  terms query.
Proof.
  unfold terms. apply filter_ext. intros [|c r]; reflexivity.
Qed.

Lemma filter_twice {A} (p q : A -> bool) l :
  filter q (filter p l) = filter (fun x => p x && q x) l.
Proof.
  induction l as [|a r IH]; [reflexivity|]. simpl.
  destruct (p a); simpl; [destruct (q a)|]; rewrite IH; reflexivity.
Qed.

Lemma apply_filters_typed eps filters :
  (forall ep, In ep eps -> well_typed ep = true) ->
  apply_filters eps filters = Ok (filter (passes filters) eps).
Proof.
  intros H. unfold apply_filters, passes.
  destruct (nonempty (filter_method filters)) as [m|];
    destruct (nonempty (filter_tag filters)) as [t|]; simpl.
  - rewrite (filterM_Ok _ (fun ep => any_tag_includes ep (toLowerCase t))).
    + rewrite filter_twice. reflexivity.
    + intros ep Hin. apply tags_some_typed, H.
      apply filter_In in Hin. tauto.
  - f_equal. apply filter_ext. intros. rewrite andb_true_r. reflexivity.
  - rewrite (filterM_Ok _ (fun ep => any_tag_includes ep (toLowerCase t))).
    + reflexivity.
    + intros ep Hin. apply tags_some_typed, H. assumption.
  - f_equal. symmetry. apply forallb_filter_id.
    apply forallb_forall. reflexivity.
Qed.

(** The result of [searchEndpoints] is the stable sort, by descending
    score, of the candidates. *)
Lemma searchEndpoints_typed spec query filters :
  (forall ep, In ep (endpoints spec) -> well_typed ep = true) ->
  searchEndpoints spec query filters =
  Ok (sort (by_key (score query)) (candidates spec query filters)).
Proof.
  intros H. unfold searchEndpoints. cbv zeta.
  fold (normalized query). rewrite terms_filter.
  rewrite apply_filters_typed by assumption. cbn [bind].
  rewrite (mapM_Ok _ (fun ep => (ep, score query ep))).
  - cbn [bind]. f_equal.
    rewrite (filter_pairs (score query) (fun z => (z >? 0)%Z)).
    rewrite sort_pairs, map_map. simpl. apply map_id.
  - intros ep Hin. apply score_endpoint_typed, H.
    apply filter_In in Hin. tauto.
Qed.

Lemma includes_empty s : includes s "" = true.
Proof. destruct s; reflexivity. Qed.

Lemma blank_lower q : blank q = true -> toLowerCase q = q.
Proof.
  induction q as [|c r IH]; [reflexivity|]. simpl. intros H.
  apply andb_prop in H. destruct H as [Hc Hr].
  rewrite IH by assumption. f_equal.
  unfold is_space in Hc. unfold lower_char.
  destruct ((65 <=? nat_of_ascii c) && (nat_of_ascii c <=? 90))%nat eqn:E;
    [|reflexivity].
  exfalso. apply andb_prop in E. destruct E as [E1 E2].
  apply Nat.leb_le in E1. apply Nat.leb_le in E2.
  apply orb_prop in Hc. destruct Hc as [Hc|Hc].
  - apply Nat.eqb_eq in Hc. lia.
  - apply andb_prop in Hc. destruct Hc as [_ Hc]. apply Nat.leb_le in Hc. lia.
Qed.

Lemma blank_trimStart q : blank q = true -> trimStart q = "".
Proof.
  induction q as [|c r IH]; [reflexivity|]. simpl. intros H.
  apply andb_prop in H. destruct H as [Hc Hr]. rewrite Hc. auto.
Qed.

Lemma blank_normalized q : blank q = true -> normalized q = "".
Proof.
  intros H. unfold normalized, trim.
  rewrite blank_lower, blank_trimStart by assumption. reflexivity.
Qed.

Lemma points_nonneg c k : (0 <= k)%Z -> (0 <= points c k)%Z.
Proof. destruct c; simpl; lia. Qed.

Lemma term_score_nonneg ep t : (0 <= term_score ep t)%Z.
Proof.
  unfold term_score.
  pose proof (points_nonneg (includes (toLowerCase (path ep)) t) 5).
  pose proof (points_nonneg (opt_includes (lowered (operationId ep)) t) 5).
  pose proof (points_nonneg (opt_includes (lowered (summary ep)) t) 3).
  pose proof (points_nonneg (opt_includes (lowered (description ep)) t) 2).
  lia.
Qed.

Lemma total_nonneg l : Forall (fun z => 0 <= z)%Z l -> (0 <= total l)%Z.
Proof. induction 1; simpl; lia. Qed.

Lemma blank_score q ep : blank q = true -> (40 <= score q ep)%Z.
Proof.
  intros H. unfold score. rewrite (blank_normalized q H).
  assert (0 <= total (map (term_score ep) (terms q)))%Z.
  { apply total_nonneg, Forall_forall. intros z Hz.
    apply in_map_iff in Hz. destruct Hz as [t [<- _]].
    apply term_score_nonneg. }
  unfold whole_query_score. rewrite includes_empty.
  change (points true 40) with 40%Z.
  pose proof (points_nonneg (opt_includes (lowered (operationId ep)) "") 50).
  pose proof (points_nonneg (opt_includes (lowered (summary ep)) "") 30).
  pose proof (points_nonneg (opt_includes (lowered (description ep)) "") 20).
  pose proof (points_nonneg (any_tag_includes ep "") 15).
  destruct (opt_equals (lowered (operationId ep)) ""); cbv iota; lia.
Qed.

End SearchFacts.

(* ===================================================================== *)
(** * Reading the outcome of a sequence of fallible steps *)
(* ===================================================================== *)

Lemma bind_Ok {A B} (m : result A) (k : A -> result B) (b : B) :
  bind m k = Ok b -> exists a, m = Ok a /\ k a = Ok b.
Proof.
  destruct m as [a|e]; simpl; intros H; [eauto|discriminate].
Qed.

(** Splits a hypothesis [x <- m ;; k = Ok b] into [m = Ok x] and
    [k x = Ok b], as often as it applies. *)
Ltac bind_inv H :=
  let a := fresh "v" in
  let Ha := fresh "Hv" in
  apply bind_Ok in H; destruct H as [a [Ha H]].

Ltac binds_inv H := repeat bind_inv H.

(* ===================================================================== *)
(** * The parameter map of [parseOperation] *)
(* ===================================================================== *)

Module MergeFacts.
Import JsString Js OpenAPIParser MergeSpec MergeModel.

Lemma typed_cases p :
  typed p = true ->
  (is_ref p = true /\ has "$ref" p = Ok true) \/
  (is_ref p = false /\ has "$ref" p = Ok false /\
   exists l n, pair_of p = Some (l, n) /\ colon_free l = true /\
               get p "in" = Ok (JStr l) /\ get p "name" = Ok (JStr n)).
Proof.
  unfold typed, is_ref, pair_of.
  destruct p as [| | | | | |kvs]; simpl; try discriminate.
  destruct (assoc "$ref" kvs) as [r|]; [left; split; reflexivity|].
  simpl. destruct (assoc "in" kvs) as [[| | | |l| |]|]; try discriminate.
  destruct (assoc "name" kvs) as [[| | | |n| |]|]; try discriminate.
  intros H. right. repeat split. exists l, n. repeat split; assumption.
Qed.

Lemma dedupe_typed ps : forall acc,
  forallb typed ps = true ->
  dedupe acc ps = Ok (fold_left step ps acc).
Proof.
  induction ps as [|p r IH]; intros acc H; [reflexivity|].
  simpl in H. apply andb_prop in H. destruct H as [Hp Hr].
  simpl. unfold step at 2.
  destruct (typed_cases p Hp) as [[Hi Hh]|[Hi [Hh [l [n [Hk [_ [Hl Hn]]]]]]]];
    rewrite Hh, Hi; simpl.
  - apply IH; assumption.
  - rewrite Hl, Hn. simpl. unfold skey. rewrite Hk. apply IH; assumption.
Qed.

(** ** Lookup in the map *)

Lemma assoc_map_set {V} K K' (v : V) m :
  assoc K (map_set K' v m) =
  if String.eqb K' K then Some v else assoc K m.
Proof.
  induction m as [|[k0 v0] r IH]; simpl.
  - reflexivity.
  - destruct (String.eqb k0 K') eqn:E0; simpl.
    + apply String.eqb_eq in E0. subst k0. destruct (String.eqb K' K); reflexivity.
    + rewrite IH. destruct (String.eqb K' K) eqn:E1; [|reflexivity].
      apply String.eqb_eq in E1. subst K'. rewrite E0. reflexivity.
Qed.

Lemma map_set_keys {V} K (v : V) m k :
  In k (map fst (map_set K v m)) <-> k = K \/ In k (map fst m).
Proof.
  induction m as [|[k0 v0] r IH]; simpl.
  - intuition.
  - destruct (String.eqb k0 K) eqn:E; simpl.
    + apply String.eqb_eq in E. subst. intuition.
    + rewrite IH. intuition.
Qed.

Lemma map_set_NoDup {V} K (v : V) m :
  NoDup (map fst m) -> NoDup (map fst (map_set K v m)).
Proof.
  induction m as [|[k0 v0] r IH]; simpl; intros H.
  - constructor; [intros []|constructor].
  - inversion H as [|? ? Hn Hr]; subst.
    destruct (String.eqb k0 K) eqn:E; simpl.
    + apply String.eqb_eq in E. subst. constructor; assumption.
    + constructor; [|apply IH; assumption].
      rewrite map_set_keys. intros [->|Hin]; [|contradiction].
      rewrite String.eqb_refl in E. discriminate.
Qed.

Lemma map_set_In {V} K (v : V) m kv :
  In kv (map_set K v m) -> kv = (K, v) \/ In kv m.
Proof.
  induction m as [|[k0 v0] r IH]; simpl.
  - intuition.
  - destruct (String.eqb k0 K); simpl; intuition.
Qed.

(** The entries of a map with distinct keys are found by [assoc]. *)
Lemma filter_key {V} K (m : list (string * V)) :
  NoDup (map fst m) ->
  filter (fun kv => String.eqb (fst kv) K) m =
  match assoc K m with Some v => [(K, v)] | None => [] end.
Proof.
  induction m as [|[k0 v0] r IH]; simpl; intros H; [reflexivity|].
  inversion H as [|? ? Hn Hr]; subst.
  destruct (String.eqb k0 K) eqn:E.
  - apply String.eqb_eq in E. subst k0. f_equal.
    rewrite IH by assumption.
    destruct (assoc K r) as [v|] eqn:Ea; [|reflexivity].
    exfalso. apply Hn. clear - Ea.
    induction r as [|[k1 v1] t IHt]; simpl in *; [discriminate|].
    destruct (String.eqb k1 K) eqn:E1;
      [apply String.eqb_eq in E1; left; assumption|right; auto].
  - apply IH; assumption.
Qed.

(** ** The key separates the pairs *)

Lemma colon_key_inj l l' n n' :
  colon_free l = true -> colon_free l' = true ->
  (l ++ ":" ++ n)%string = (l' ++ ":" ++ n')%string -> l = l' /\ n = n'.
Proof.
  revert l'. induction l as [|c r IH]; intros [|c' r'] Hl Hl' H; simpl in *.
  - inversion H. auto.
  - inversion H; subst. apply andb_prop in Hl'. destruct Hl' as [Hc _].
    simpl in Hc. discriminate.
  - inversion H; subst. apply andb_prop in Hl. destruct Hl as [Hc _].
    simpl in Hc. discriminate.
  - inversion H; subst.
    apply andb_prop in Hl. apply andb_prop in Hl'.
    destruct (IH r' (proj2 Hl) (proj2 Hl') H2) as [-> ->]. auto.
Qed.

Lemma stored_has_pair k kv :
  stored kv ->
  has_pair k (snd kv) =
  colon_free (fst k) &&
  String.eqb (fst kv) (fst k ++ ":" ++ snd k)%string.
Proof.
  intros [Hk [l [n [Hp Hl]]]]. unfold has_pair. rewrite Hk.
  unfold skey. rewrite Hp. destruct k as [l' n']. simpl.
  destruct (colon_free l') eqn:Hl'; simpl.
  - destruct (String.eqb (l ++ String ":" n) (l' ++ String ":" n')) eqn:E.
    + apply String.eqb_eq in E.
      destruct (colon_key_inj l l' n n' Hl Hl' E) as [-> ->].
      rewrite !String.eqb_refl. reflexivity.
    + destruct (String.eqb l l') eqn:E1; [|reflexivity].
      destruct (String.eqb n n') eqn:E2; [|reflexivity].
      apply String.eqb_eq in E1. apply String.eqb_eq in E2. subst.
      rewrite String.eqb_refl in E. discriminate.
  - destruct (String.eqb l l') eqn:E1; [|reflexivity].
    apply String.eqb_eq in E1. subst. rewrite Hl in Hl'. discriminate.
Qed.

(** ** The map after the loop *)

Lemma invariant_step source m p :
  typed p = true -> In p source ->
  invariant source m -> invariant source (step m p).
Proof.
  intros Hp Hin [Hk Hs Ho]. unfold step.
  destruct (typed_cases p Hp) as [[Hi _]|[Hi [_ [l [n [Hpair [Hl _]]]]]]];
    rewrite Hi; [split; assumption|].
  split.
  - apply map_set_NoDup; assumption.
  - intros kv Hkv. apply map_set_In in Hkv. destruct Hkv as [->|Hkv]; auto.
    split; [reflexivity|]. exists l, n. auto.
  - intros kv Hkv. apply map_set_In in Hkv. destruct Hkv as [->|Hkv]; auto.
Qed.

Lemma invariant_fold source ps : forall m,
  forallb typed ps = true -> incl ps source ->
  invariant source m -> invariant source (fold_left step ps m).
Proof.
  induction ps as [|p r IH]; intros m Ht Hi Hm; [exact Hm|].
  simpl in Ht. apply andb_prop in Ht. destruct Ht as [Hp Hr].
  simpl. apply IH; [assumption|intros x Hx; apply Hi; right; exact Hx|].
  apply invariant_step; [assumption|apply Hi; left; reflexivity|assumption].
Qed.

Lemma has_pair_skey k p :
  typed p = true -> is_ref p = false -> colon_free (fst k) = true ->
  has_pair k p = String.eqb (skey p) (key_of_pair k).
Proof.
  intros Hp Hi Hk.
  destruct (typed_cases p Hp) as [[Hi' _]|[_ [_ [l [n [Hpair [Hl _]]]]]]];
    [congruence|].
  assert (Hst : stored (skey p, p)).
  { split; [reflexivity|]. exists l, n. auto. }
  pose proof (stored_has_pair k (skey p, p) Hst) as E. simpl in E.
  rewrite E, Hk. reflexivity.
Qed.

Lemma ref_has_no_pair k p : is_ref p = true -> has_pair k p = false.
Proof.
  unfold is_ref, has_pair, pair_of. destruct p; try reflexivity.
  destruct (assoc "$ref" kvs); [reflexivity|discriminate].
Qed.

(** What the map holds under the key of a pair, after the loop. *)
Lemma assoc_fold k ps : forall m,
  forallb typed ps = true -> colon_free (fst k) = true ->
  assoc (key_of_pair k) (fold_left step ps m) =
  match entry k ps with
  | Some q => Some q
  | None => assoc (key_of_pair k) m
  end.
Proof.
  induction ps as [|p r IH]; intros m Ht Hk; [reflexivity|].
  simpl in Ht. apply andb_prop in Ht. destruct Ht as [Hp Hr].
  simpl. rewrite IH by assumption.
  destruct (entry k r) as [q|]; [reflexivity|].
  unfold step. destruct (is_ref p) eqn:Hi.
  - rewrite ref_has_no_pair by assumption. reflexivity.
  - rewrite assoc_map_set, (has_pair_skey k p) by assumption.
    destruct (String.eqb (skey p) (key_of_pair k)); reflexivity.
Qed.

Lemma entry_colon k ps :
  forallb typed ps = true -> colon_free (fst k) = false -> entry k ps = None.
Proof.
  induction ps as [|p r IH]; intros Ht Hk; [reflexivity|].
  simpl in Ht. apply andb_prop in Ht. destruct Ht as [Hp Hr].
  simpl. rewrite IH by assumption.
  destruct (typed_cases p Hp) as [[Hi _]|[_ [_ [l [n [Hpair [Hl _]]]]]]].
  - rewrite ref_has_no_pair by assumption. reflexivity.
  - unfold has_pair. rewrite Hpair.
    destruct (String.eqb l (fst k)) eqn:E; [|reflexivity].
    apply String.eqb_eq in E. subst. congruence.
Qed.

Lemma entry_app k ps os :
  entry k (ps ++ os) = overlay k ps os.
Proof.
  unfold overlay. induction ps as [|p r IH]; simpl.
  - destruct (entry k os); reflexivity.
  - rewrite IH. destruct (entry k os); reflexivity.
Qed.

(** The values of the map, read pair by pair. *)
Lemma merged_by_pair k ps m :
  forallb typed ps = true ->
  invariant ps m ->
  (forall K, assoc K m = assoc K (fold_left step ps [])) ->
  filter (has_pair k) (map snd m) = to_list (entry k ps).
Proof.
  intros Ht [Hk Hs Ho] Hm.
  assert (E : filter (has_pair k) (map snd m) =
              map snd (filter (fun kv => colon_free (fst k) &&
                                 String.eqb (fst kv) (key_of_pair k)) m)).
  { clear - Hs. induction m as [|kv r IH]; [reflexivity|]. simpl.
    rewrite (stored_has_pair k kv) by (apply Hs; left; reflexivity).
    unfold key_of_pair at 1.
    destruct (colon_free (fst k) &&
              String.eqb (fst kv) (fst k ++ ":" ++ snd k)%string); simpl;
      rewrite IH by (intros; apply Hs; right; assumption); reflexivity. }
  rewrite E. destruct (colon_free (fst k)) eqn:Hc; simpl.
  - rewrite filter_key by assumption.
    rewrite Hm, assoc_fold by assumption. simpl.
    destruct (entry k ps); reflexivity.
  - rewrite entry_colon by assumption.
    clear. induction m; simpl; auto.
Qed.

End MergeFacts.

(* ===================================================================== *)
(** * The depth guard of [normalizeSchema] *)
(* ===================================================================== *)

Module DepthFacts.
Import JsString Js OpenAPIParser DepthSpec.

Lemma mapM_Forall {A B} (f : A -> result B) (P : B -> Prop) l : forall l',
  mapM f l = Ok l' ->
  (forall a b, f a = Ok b -> P b) -> Forall P l'.
Proof.
  induction l as [|a r IH]; intros l' H Hf; simpl in H.
  - inversion H. constructor.
  - binds_inv H. inversion H; subst. constructor; eauto.
Qed.

Lemma above_le {A} (f : A -> nat) l b :
  Forall (fun x => f x <= b) l -> above f l <= S b.
Proof.
  induction 1 as [|x r Hx _ IH]; [simpl; lia|].
  change (above f (x :: r)) with (Nat.max (S (f x)) (above f r)).
  apply Nat.max_lub; [lia|exact IH].
Qed.

Lemma height_with_ref s p : height (with_ref s p) = height s.
Proof. destruct s; reflexivity. Qed.

Section Children.
Variable f : json -> result NormalizedSchema.
Variable b : nat.
Hypothesis Hf : forall s r, f s = Ok r -> height r <= b.

Lemma items_height (c : bool) s o :
  (if c then it <- f s ;; Ok (Some it) else Ok None) = Ok o ->
  match o with Some i => S (height i) | None => 0 end <= S b.
Proof.
  destruct c; intros H; [|inversion H; lia].
  binds_inv H. inversion H; subst. apply Hf in Hv. lia.
Qed.

Lemma list_height (c : bool) (xs : result (list json)) o :
  (if c then
     ys <- xs ;; zs <- mapM (fun s => f s) ys ;; Ok (Some zs)
   else Ok None) = Ok o ->
  above_opt height o <= S b.
Proof.
  destruct c; intros H; [|inversion H; simpl; lia].
  binds_inv H. inversion H; subst. simpl.
  apply above_le. eapply mapM_Forall; [eassumption|].
  intros a r Hr. exact (Hf a r Hr).
Qed.

Lemma props_height (c : bool) (es : result (list (string * json))) o :
  (if c then
     ys <- es ;;
     zs <- mapM (fun kv => n <- f (snd kv) ;; Ok (fst kv, n)) ys ;;
     Ok (Some zs)
   else Ok None) = Ok o ->
  above_opt (fun kv => height (snd kv)) o <= S b.
Proof.
  destruct c; intros H; [|inversion H; simpl; lia].
  binds_inv H. inversion H; subst. simpl.
  apply above_le. eapply mapM_Forall; [eassumption|].
  intros a r Hr. simpl in Hr. binds_inv Hr. inversion Hr; subst. simpl.
  eapply Hf; eassumption.
Qed.
End Children.

Lemma normalizeSchema_beyond_cap spec isV3 schema depth :
  10 < depth -> normalizeSchema spec isV3 schema depth = Ok stub.
Proof.
  intros H. rewrite normalizeSchema_equation_1.
  destruct (le_lt_dec depth 10); [lia|].
  apply normalizeSchema_clause_1_equation_2.
Qed.

Lemma normalizeSchema_height spec isV3 : forall n depth,
  11 - depth <= n ->
  forall schema r,
    normalizeSchema spec isV3 schema depth = Ok r ->
    height r <= 11 - depth.
Proof.
  induction n as [|n IH]; intros depth Hn schema r H.
  - rewrite normalizeSchema_beyond_cap in H by lia.
    inversion H. simpl. lia.
  - rewrite normalizeSchema_equation_1 in H.
    destruct (le_lt_dec depth 10) as [Hle|Hgt].
    2:{ rewrite normalizeSchema_clause_1_equation_2 in H.
        inversion H. simpl. lia. }
    rewrite normalizeSchema_clause_1_equation_1 in H.
    assert (Hrec : forall s r', normalizeSchema spec isV3 s (depth + 1) = Ok r' ->
                                height r' <= 10 - depth).
    { intros s r' Hr. apply IH in Hr; lia. }
    destruct (negb (truthy schema)); [inversion H; simpl; lia|].
    do 2 bind_inv H.
    destruct (v && truthy v0).
    + bind_inv H. destruct (truthy v1).
      * bind_inv H. inversion H; subst. rewrite height_with_ref.
        apply Hrec in Hv2. lia.
      * inversion H; subst. rewrite height_with_ref. simpl. lia.
    + cbv zeta in H. binds_inv H. inversion H; subst; clear H.
      repeat match goal with
      | Hi : (if _ then it <- normalizeSchema _ _ _ _ ;; Ok (Some it)
              else Ok None) = Ok _ |- _ =>
          apply (items_height _ _ Hrec) in Hi
      | Hl : (if _ then ys <- _ ;; zs <- mapM (fun s => normalizeSchema _ _ s _) ys ;; Ok (Some zs)
              else Ok None) = Ok _ |- _ =>
          apply (list_height _ _ Hrec) in Hl
      | Hp : (if _ then ys <- _ ;; zs <- mapM (fun kv => _) ys ;; Ok (Some zs)
              else Ok None) = Ok _ |- _ =>
          apply (props_height _ _ Hrec) in Hp
      end.
      cbn [height schema_items schema_properties schema_oneOf
           schema_anyOf schema_allOf].
      repeat apply Nat.max_lub; lia.
Qed.

End DepthFacts.

(* ===================================================================== *)
(** * Schedules of [refresh]: one producer call per group *)
(* ===================================================================== *)

Module CacheFacts.
Import SpecCache CacheSpec CachePhases.

Lemma run_app evs1 : forall evs2 w,
  run (evs1 ++ evs2) w =
  match run evs1 w with
  | Some w' => run evs2 w'
  | None => None
  end.
Proof.
  induction evs1 as [|ev r IH]; intros evs2 w; simpl; [reflexivity|].
  destruct (step ev w); [apply IH|reflexivity].
Qed.

Lemma get_same_slot time c c' :
  cache c = cache c' -> get time c = get time c'.
Proof. unfold get, isExpired. intros ->. reflexivity. Qed.

(** ** Lists of tasks *)

Lemma update_app {A} (l0 : list A) x ws i v :
  length l0 < i ->
  update i v (l0 ++ x :: ws) = l0 ++ x :: update (i - length l0 - 1) v ws.
Proof.
  revert i. induction l0 as [|a r IH]; intros i Hi; simpl in *.
  - destruct i as [|j]; [lia|]. simpl. rewrite Nat.sub_0_r. reflexivity.
  - destruct i as [|j]; [lia|]. simpl. f_equal. apply IH. lia.
Qed.

Lemma update_middle {A} (l0 : list A) x ws v :
  update (length l0) v (l0 ++ x :: ws) = l0 ++ v :: ws.
Proof. induction l0 as [|a r IH]; simpl; [|rewrite IH]; reflexivity. Qed.

Lemma nth_error_middle {A} (l0 : list A) x ws :
  nth_error (l0 ++ x :: ws) (length l0) = Some x.
Proof. induction l0; simpl; auto. Qed.

Lemma nth_error_after {A} (l0 : list A) x ws i :
  length l0 < i ->
  nth_error (l0 ++ x :: ws) i = nth_error ws (i - length l0 - 1).
Proof.
  revert i. induction l0 as [|a r IH]; intros i Hi; simpl in *.
  - destruct i as [|j]; [lia|]. simpl. rewrite Nat.sub_0_r. reflexivity.
  - destruct i as [|j]; [lia|]. simpl. apply IH. lia.
Qed.

Lemma nth_error_before {A} (l0 : list A) l1 i :
  i < length l0 -> nth_error (l0 ++ l1) i = nth_error l0 i.
Proof.
  revert i. induction l0 as [|a r IH]; intros i Hi; simpl in *; [lia|].
  destruct i as [|j]; [reflexivity|]. simpl. apply IH. lia.
Qed.

Lemma Forall_update {A} (P : A -> Prop) l : forall i v,
  Forall P l -> P v -> Forall P (update i v l).
Proof.
  induction l as [|a r IH]; intros i v Hl Hv; simpl.
  - destruct i; constructor.
  - inversion Hl; subst. destruct i; constructor; auto.
Qed.

Lemma Forall_nth_error {A} (P : A -> Prop) l i a :
  Forall P l -> nth_error l i = Some a -> P a.
Proof.
  intros Hl Hn. apply nth_error_In in Hn.
  rewrite Forall_forall in Hl. auto.
Qed.

(** Where index [i] falls in [l0 ++ x :: ws]. *)
Lemma index_cases {A} (l0 : list A) i :
  i < length l0 \/ i = length l0 \/ length l0 < i.
Proof. lia. Qed.

Lemma done_not_sleeping l0 i o due :
  forallb is_done l0 = true ->
  nth_error l0 i = Some (mkTask o (Sleeping due)) -> False.
Proof.
  intros Hd Hn. apply nth_error_In in Hn.
  rewrite forallb_forall in Hd. apply Hd in Hn. discriminate.
Qed.

(** ** Before the producer settles *)

Section Group.
Variable w0 : world.
Hypothesis Hidle : idle w0 = true.

Lemma idle_flag : isRefreshing (obj w0) = false.
Proof.
  unfold idle in Hidle. apply andb_prop in Hidle. destruct Hidle as [H _].
  apply andb_prop in H. destruct H as [H _].
  destruct (isRefreshing (obj w0)); [discriminate|reflexivity].
Qed.

Lemma idle_producer : onRefresh (obj w0) = true.
Proof.
  unfold idle in Hidle. apply andb_prop in Hidle. destruct Hidle as [H _].
  apply andb_prop in H. tauto.
Qed.

Lemma idle_done : forallb is_done (tasks w0) = true.
Proof. unfold idle in Hidle. apply andb_prop in Hidle. tauto. Qed.

Lemma gathering_start : gathering w0 w0.
Proof.
  split; [reflexivity|reflexivity|apply idle_producer|lia|].
  left. split; [apply idle_flag|split; reflexivity].
Qed.

Lemma refresh_gathering o w :
  gathering w0 w -> gathering w0 (refresh o w) /\ in_flight w0 (refresh o w).
Proof.
  intros [Hc Ht Hp Hn Hs]. unfold refresh. rewrite Hp. simpl.
  destruct Hs as [[Hf [Hi Htk]]|[Hf [Hi [o' [ws [Htk Hws]]]]]]; rewrite Hf.
  - assert (Hin : in_flight w0
                    (mkWorld (with_isRefreshing (obj w) true) (now w)
                       (tasks w ++ [mkTask o AwaitProducer])
                       (S (invocations w)) (logged w))).
    { split; [reflexivity|]. split; [simpl; congruence|].
      exists o, []. simpl. rewrite Htk. split; [reflexivity|constructor]. }
    split; [|exact Hin].
    split; simpl; auto.
  - assert (Hin : in_flight w0
                    (mkWorld (obj w) (now w)
                       (tasks w ++ [mkTask o (Sleeping (now w + 100))])
                       (invocations w) (logged w))).
    { split; [exact Hf|]. split; [exact Hi|].
      exists o', (ws ++ [mkTask o (Sleeping (now w + 100))]). simpl.
      rewrite Htk, <- app_assoc. split; [reflexivity|].
      apply Forall_app. split; [assumption|repeat constructor]. }
    split; [|exact Hin].
    split; simpl; auto.
Qed.

Lemma gathering_step ev w w' :
  not_settle ev = true -> step ev w = Some w' -> gathering w0 w ->
  gathering w0 w' /\
  (in_flight w0 w \/ arrival ev = true -> in_flight w0 w').
Proof.
  intros Hev Hstep Hg. destruct ev as [| |i r|i|d]; simpl in *;
    try discriminate.
  - inversion Hstep; subst. destruct (refresh_gathering Caller w Hg). auto.
  - destruct (refreshTimer (obj w)); [|discriminate].
    inversion Hstep; subst. destruct (refresh_gathering Timer w Hg). auto.
  - destruct (nth_error (tasks w) i) as [[o [|due|]]|] eqn:En;
      try discriminate.
    destruct (now w <? due)%Z; [discriminate|].
    destruct Hg as [Hc Ht Hp Hn Hs].
    destruct Hs as [[Hf [Hi Htk]]|[Hf [Hi [o' [ws [Htk Hws]]]]]].
    + exfalso. rewrite Htk in En.
      exact (done_not_sleeping _ _ _ _ idle_done En).
    + unfold refresh_after_sleep in Hstep. rewrite Hf in Hstep.
      inversion Hstep; subst; clear Hstep.
      assert (Hi' : length (tasks w0) < i).
      { destruct (index_cases (tasks w0) i) as [Hlt|[Heq|Hgt]];
          [| |exact Hgt]; exfalso; rewrite Htk in En.
        - rewrite nth_error_before in En by exact Hlt.
          exact (done_not_sleeping _ _ _ _ idle_done En).
        - subst i. rewrite nth_error_middle in En. discriminate. }
      assert (Hin : in_flight w0
                      (mkWorld (obj w) (now w)
                         (update i (mkTask o (Sleeping (now w + 100)))
                            (tasks w))
                         (invocations w) (logged w))).
      { split; [exact Hf|]. split; [exact Hi|].
        exists o', (update (i - length (tasks w0) - 1)
                      (mkTask o (Sleeping (now w + 100))) ws).
        simpl. rewrite Htk, update_app by exact Hi'.
        split; [reflexivity|]. apply Forall_update; auto. }
      split; [|intros _; exact Hin].
      split; simpl; auto.
  - destruct (d <? 0)%Z eqn:Ed; [discriminate|].
    inversion Hstep; subst; clear Hstep.
    apply Z.ltb_ge in Ed.
    destruct Hg as [Hc Ht Hp Hn Hs].
    split.
    + split; simpl; auto; try lia.
    + intros [Hin|Hf]; [exact Hin|discriminate].
Qed.

Lemma gathering_run evs : forall w w',
  forallb not_settle evs = true -> run evs w = Some w' -> gathering w0 w ->
  gathering w0 w' /\
  (in_flight w0 w \/ existsb arrival evs = true -> in_flight w0 w').
Proof.
  induction evs as [|ev r IH]; intros w w' Hev Hrun Hg; simpl in *.
  - inversion Hrun; subst. split; [exact Hg|].
    intros [H|H]; [exact H|discriminate].
  - apply andb_prop in Hev. destruct Hev as [Hev Hr].
    destruct (step ev w) as [w1|] eqn:Es; [|discriminate].
    destruct (gathering_step ev w w1 Hev Es Hg) as [Hg1 Hin1].
    destruct (IH w1 w' Hr Hrun Hg1) as [Hg' Hin'].
    split; [exact Hg'|].
    intros [H|H].
    + apply Hin'. left. apply Hin1. left. exact H.
    + apply orb_prop in H. destruct H as [H|H].
      * apply Hin'. left. apply Hin1. right. exact H.
      * apply Hin'. right. exact H.
Qed.

(** ** After the producer settled *)

Section Settled.
Variable r : NormalizedApiSpec + string.
Variable ts : Z.

Lemma polled_later limit limit' tk :
  (limit <= limit')%Z -> polled w0 r ts limit tk -> polled w0 r ts limit' tk.
Proof.
  intros Hl [Hs|[time [Ht Hd]]]; [left; exact Hs|].
  right. exists time. split; [lia|exact Hd].
Qed.

Lemma settle_draining w w' :
  gathering w0 w -> in_flight w0 w -> now w = ts ->
  step (Settle (length (tasks w0)) r) w = Some w' ->
  draining w0 r ts w'.
Proof.
  intros [Hc Ht Hp Hn _] [Hf [Hi [o [ws [Htk Hws]]]]] Hts Hstep.
  simpl in Hstep. rewrite Htk, nth_error_middle in Hstep.
  unfold refresh_after_producer in Hstep.
  assert (Hpolled : Forall (polled w0 r ts (now w)) ws).
  { eapply Forall_impl; [|exact Hws]. intros tk Hs. left. exact Hs. }
  destruct r as [spec|reason]; inversion Hstep; subst w'; clear Hstep.
  - split; simpl; auto; try lia.
    + unfold set. simpl. rewrite Ht, Hts. reflexivity.
    + exists o, ws. rewrite Htk, update_middle. auto.
  - split; simpl; auto; try lia.
    exists o, ws. rewrite Htk, update_middle. auto.
Qed.

Lemma draining_step ev w w' :
  quiet ev = true -> step ev w = Some w' -> draining w0 r ts w -> draining w0 r ts w'.
Proof.
  intros Hev Hstep [Hc Hf Hi Hn [o [ws [Htk Hws]]]].
  destruct ev as [| |i r'|i|d]; simpl in *; try discriminate.
  - destruct (nth_error (tasks w) i) as [[o' [|due|]]|] eqn:En;
      try discriminate.
    destruct (now w <? due)%Z; [discriminate|].
    unfold refresh_after_sleep in Hstep. rewrite Hf in Hstep.
    assert (Hi' : length (tasks w0) < i).
    { destruct (index_cases (tasks w0) i) as [Hlt|[Heq|Hgt]];
        [| |exact Hgt]; exfalso; rewrite Htk in En.
      - rewrite nth_error_before in En by exact Hlt.
        exact (done_not_sleeping _ _ _ _ idle_done En).
      - subst i. rewrite nth_error_middle in En. discriminate. }
    assert (Hread : forall w'',
              w'' = finish i o'
                      (waiter_outcome (get (now w) (obj w))) (obj w) w ->
              draining w0 r ts w'').
    { intros w'' ->. split; simpl; auto.
      exists o, (update (i - length (tasks w0) - 1)
                   (mkTask o' (Done (waiter_outcome
                                       (get (now w) (obj w))))) ws).
      rewrite Htk, update_app by exact Hi'.
      split; [reflexivity|]. apply Forall_update; [exact Hws|].
      right. exists (now w). split; [lia|]. simpl. unfold read_at.
      rewrite (get_same_slot (now w) _ _ Hc). reflexivity. }
    destruct (get (now w) (obj w)) as [cached|];
      inversion Hstep; subst; apply Hread; reflexivity.
  - destruct (d <? 0)%Z eqn:Ed; [discriminate|].
    inversion Hstep; subst; clear Hstep. apply Z.ltb_ge in Ed.
    split; simpl; auto; try lia.
    exists o, ws. split; [exact Htk|].
    eapply Forall_impl; [|exact Hws].
    intros tk. apply polled_later. lia.
Qed.

Lemma draining_run evs : forall w w',
  forallb quiet evs = true -> run evs w = Some w' -> draining w0 r ts w ->
  draining w0 r ts w'.
Proof.
  induction evs as [|ev rest IH]; intros w w' Hev Hrun Hd; simpl in *.
  - inversion Hrun; subst. exact Hd.
  - apply andb_prop in Hev. destruct Hev as [Hev Hr].
    destruct (step ev w) as [w1|] eqn:Es; [|discriminate].
    eapply IH; [exact Hr|exact Hrun|].
    eapply draining_step; eassumption.
Qed.

Lemma draining_outcomes w :
  draining w0 r ts w ->
  invocations w = S (invocations w0) /\
  outcome_of w (length (tasks w0)) = Some (leader_outcome r) /\
  forall j o,
    length (tasks w0) < j -> outcome_of w j = Some o ->
    exists time, (ts <= time <= now w)%Z /\ o = read_at w0 r ts time.
Proof.
  intros [Hc Hf Hi Hn [o [ws [Htk Hws]]]].
  split; [exact Hi|]. unfold outcome_of. rewrite Htk. split.
  - rewrite nth_error_middle. reflexivity.
  - intros j out Hj. rewrite nth_error_after by exact Hj.
    destruct (nth_error ws (j - length (tasks w0) - 1))
      as [[o' st]|] eqn:En; [|discriminate].
    pose proof (Forall_nth_error _ _ _ _ Hws En) as [Hs|[time [Ht Hd]]].
    + unfold is_sleeping in Hs. simpl in Hs.
      destruct st; discriminate.
    + simpl in Hd. subst st. intros H. inversion H; subst.
      exists time. split; [exact Ht|reflexivity].
Qed.
End Settled.

(** A group of calls that begin from [w0], the settlement of the
    producer, and the polls of the waiting calls. *)
Lemma group_outcomes pre r post w3 :
  forallb not_settle pre = true ->
  existsb arrival pre = true ->
  forallb quiet post = true ->
  run (pre ++ Settle (length (tasks w0)) r :: post) w0 = Some w3 ->
  exists ts,
    (now w0 <= ts <= now w3)%Z /\
    invocations w3 = S (invocations w0) /\
    outcome_of w3 (length (tasks w0)) = Some (leader_outcome r) /\
    forall j o,
      length (tasks w0) < j -> outcome_of w3 j = Some o ->
      exists time,
        (ts <= time <= now w3)%Z /\
        o = waiter_outcome (get time (slot_after r ts (obj w0))).
Proof.
  intros Hpre Harr Hpost Hrun. rewrite run_app in Hrun.
  destruct (run pre w0) as [w1|] eqn:E1; [|discriminate].
  destruct (gathering_run pre w0 w1 Hpre E1 gathering_start) as [Hg Hin].
  specialize (Hin (or_intror Harr)).
  simpl in Hrun.
  destruct (step (Settle (length (tasks w0)) r) w1) as [w2|] eqn:E2;
    [|simpl in E2; rewrite E2 in Hrun; discriminate].
  simpl in E2. rewrite E2 in Hrun.
  assert (Hd : draining w0 r (now w1) w2).
  { eapply settle_draining; [exact Hg|exact Hin|reflexivity|exact E2]. }
  pose proof (draining_run r (now w1) post w2 w3 Hpost Hrun Hd) as Hd3.
  destruct (draining_outcomes r (now w1) w3 Hd3) as [Hi [Hl Hw]].
  exists (now w1). split; [|auto].
  destruct Hg. destruct Hd3. lia.
Qed.
End Group.

(** ** Failures leave the slot alone *)

Lemma step_keeps_slot ev w w' :
  no_success ev = true -> step ev w = Some w' ->
  cache (obj w') = cache (obj w) /\ ttlMs (obj w') = ttlMs (obj w).
Proof.
  intros Hev Hstep. destruct ev as [| |i r|i|d]; simpl in *.
  - inversion Hstep; subst. unfold refresh.
    destruct (negb (onRefresh (obj w))); [split; reflexivity|].
    destruct (isRefreshing (obj w)); split; reflexivity.
  - destruct (refreshTimer (obj w)); [|discriminate].
    inversion Hstep; subst. unfold refresh.
    destruct (negb (onRefresh (obj w))); [split; reflexivity|].
    destruct (isRefreshing (obj w)); split; reflexivity.
  - destruct (nth_error (tasks w) i) as [[o [|due|]]|]; try discriminate.
    destruct r as [spec|reason]; [discriminate|].
    inversion Hstep; subst. split; reflexivity.
  - destruct (nth_error (tasks w) i) as [[o [|due|]]|]; try discriminate.
    destruct (now w <? due)%Z; [discriminate|].
    unfold refresh_after_sleep in Hstep.
    destruct (isRefreshing (obj w)); [inversion Hstep; split; reflexivity|].
    destruct (get (now w) (obj w)); inversion Hstep; split; reflexivity.
  - destruct (d <? 0)%Z; [discriminate|].
    inversion Hstep; split; reflexivity.
Qed.

Lemma run_keeps_slot evs : forall w w',
  forallb no_success evs = true -> run evs w = Some w' ->
  cache (obj w') = cache (obj w) /\ ttlMs (obj w') = ttlMs (obj w).
Proof.
  induction evs as [|ev rest IH]; intros w w' Hev Hrun; simpl in *.
  - inversion Hrun; split; reflexivity.
  - apply andb_prop in Hev. destruct Hev as [Hev Hr].
    destruct (step ev w) as [w1|] eqn:Es; [|discriminate].
    destruct (step_keeps_slot ev w w1 Hev Es) as [Hc Ht].
    destruct (IH w1 w' Hr Hrun) as [Hc' Ht'].
    split; congruence.
Qed.

End CacheFacts.

(* ===================================================================== *)
(** * Endpoints, references and responses *)
(* ===================================================================== *)

Module EndpointFacts.
Import JsString Js OpenAPIParser EndpointSpec.

Lemma mapM_total {A B} (f : A -> result B) l :
  (forall a, In a l -> exists b, f a = Ok b) -> exists l', mapM f l = Ok l'.
Proof.
  induction l as [|a r IH]; intros H; simpl; [eauto|].
  destruct (H a (or_introl eq_refl)) as [b Hb]. rewrite Hb. simpl.
  destruct IH as [l' Hl']; [intros; apply H; right; assumption|].
  rewrite Hl'. simpl. eauto.
Qed.

Lemma mapM_In {A B} (f : A -> result B) l : forall l',
  mapM f l = Ok l' ->
  forall b, In b l' <-> exists a, In a l /\ f a = Ok b.
Proof.
  induction l as [|a r IH]; intros l' H b; simpl in H.
  - inversion H; subst. simpl. split; [tauto|intros [a [[] _]]].
  - binds_inv H. inversion H; subst. simpl. rewrite (IH _ Hv0). split.
    + intros [E|[a' [Hin Ha']]]; [subst; eauto|eauto].
    + intros [a' [[E|Hin] Ha']]; [subst; left; congruence|right; eauto].
Qed.

Lemma mapM_length {A B} (f : A -> result B) l : forall l',
  mapM f l = Ok l' -> length l' = length l.
Proof.
  induction l as [|a r IH]; intros l' H; simpl in H.
  - inversion H; reflexivity.
  - binds_inv H. inversion H; subst. simpl. f_equal. eauto.
Qed.

Lemma get_total v k : nullish v = false -> exists x, get v k = Ok x.
Proof.
  destruct v; simpl; intros H; try discriminate; eauto;
    destruct (k =? "length"); eauto.
Qed.

Lemma truthy_not_nullish v : truthy v = true -> nullish v = false.
Proof. destruct v; simpl; congruence. Qed.

Lemma entries_total v : nullish v = false -> exists es, entries v = Ok es.
Proof. destruct v; simpl; intros H; try discriminate; eauto. Qed.

Lemma or_else_truthy a b : truthy b = true -> truthy (or_else a b) = true.
Proof. unfold or_else. destruct (truthy a) eqn:E; auto. Qed.

Lemma parseMethod_total spec isV3 p pathItem m :
  truthy pathItem = true ->
  exists eps, parseMethod spec isV3 p pathItem m = Ok eps.
Proof.
  intros Ht. unfold parseMethod.
  destruct (get_total pathItem m (truthy_not_nullish _ Ht)) as [op Hop].
  rewrite Hop. simpl.
  destruct (truthy op); simpl; [|eauto].
  destruct (parseOperation spec isV3 p m op pathItem); eauto.
Qed.

Lemma parseEndpoints_total spec isV3 :
  nullish spec = false ->
  exists eps, parseEndpoints spec isV3 = Ok eps.
Proof.
  intros Hs. unfold parseEndpoints.
  destruct (get_total spec "paths" Hs) as [ps Hps]. rewrite Hps.
  cbn [bind]. cbv zeta.
  destruct (entries_total (or_else ps (JObj [])))
    as [es Hes]; [apply truthy_not_nullish, or_else_truthy; reflexivity|].
  rewrite Hes. cbn [bind].
  match goal with |- context [mapM ?f es] =>
    destruct (mapM_total f es) as [per Hper] end.
  - intros [p pathItem] _. cbv beta zeta. cbn [fst snd].
    destruct (truthy pathItem) eqn:Et; cbn [negb]; [|eauto].
    destruct (mapM_total (parseMethod spec isV3 p pathItem) methods)
      as [eps Heps]; [intros; apply parseMethod_total; assumption|].
    rewrite Heps. cbn [bind]. eauto.
  - rewrite Hper. cbn [bind]. eauto.
Qed.

Lemma parseMethod_In spec isV3 p pathItem m eps ep :
  parseMethod spec isV3 p pathItem m = Ok eps ->
  In ep eps <-> operation_of spec isV3 p pathItem m ep.
Proof.
  unfold parseMethod, operation_of. intros H. bind_inv H.
  destruct (truthy v) eqn:Et; simpl in H.
  - destruct (parseOperation spec isV3 p m v pathItem) as [e|x] eqn:Ep;
      inversion H; subst; simpl; split.
    + intros [E|[]]; subst. eauto.
    + intros [op [Hop [_ Hp]]]. left. congruence.
    + tauto.
    + intros [op [Hop [_ Hp]]]. congruence.
  - inversion H; subst. simpl. split; [tauto|].
    intros [op [Hop [Ht' _]]]. congruence.
Qed.

Lemma parseMethod_length spec isV3 p pathItem m eps :
  parseMethod spec isV3 p pathItem m = Ok eps -> length eps <= 1.
Proof.
  unfold parseMethod. intros H. bind_inv H.
  destruct (truthy v); simpl in H;
    [destruct (parseOperation spec isV3 p m v pathItem)|];
    inversion H; simpl; lia.
Qed.

Lemma operation_path_method spec isV3 p pathItem m ep :
  operation_of spec isV3 p pathItem m ep -> path ep = p /\ method ep = m.
Proof.
  intros [op [_ [_ H]]]. unfold parseOperation in H.
  binds_inv H. inversion H; subst. split; reflexivity.
Qed.

Lemma concat_length_le {A} (l : list (list A)) b :
  Forall (fun x => length x <= b) l -> length (concat l) <= length l * b.
Proof.
  induction 1 as [|x r Hx _ IH]; simpl; [lia|].
  rewrite length_app. lia.
Qed.
Lemma parseEndpoints_characterized spec isV3 es eps :
  path_entries spec = Ok es ->
  parseEndpoints spec isV3 = Ok eps ->
  length eps <= 8 * length es /\
  forall ep,
    In ep eps <->
    In (method ep) methods /\
    exists pathItem,
      In (path ep, pathItem) es /\ truthy pathItem = true /\
      operation_of spec isV3 (path ep) pathItem (method ep) ep.
Proof.
  unfold path_entries, parseEndpoints. intros Hes H.
  bind_inv Hes. bind_inv H. rewrite Hv in Hv0. inversion Hv0; subst v0.
  cbv zeta in H. rewrite Hes in H. cbn [bind] in H.
  bind_inv H. inversion H; subst eps. clear H Hv0.
  split.
  - replace (8 * length es) with (length v0 * 8)
      by (rewrite (mapM_length _ _ _ Hv1); lia).
    apply concat_length_le.
    eapply DepthFacts.mapM_Forall; [exact Hv1|].
    intros [p pathItem] b Hb. cbn [fst snd] in Hb.
    destruct (truthy pathItem); cbn [negb] in Hb;
      [|inversion Hb; simpl; lia].
    bind_inv Hb. inversion Hb; subst b.
    change 8 with (length methods * 1).
    rewrite <- (mapM_length _ _ _ Hv0).
    apply concat_length_le.
    eapply DepthFacts.mapM_Forall; [exact Hv0|].
    intros m l Hl. eapply parseMethod_length; eassumption.
  - intros ep. rewrite in_concat. split.
    + intros [l [Hl Hep]].
      apply (mapM_In _ _ _ Hv1) in Hl. destruct Hl as [[p pathItem] [Hin Hl]].
      cbn [fst snd] in Hl.
      destruct (truthy pathItem) eqn:Et; cbn [negb] in Hl;
        [|inversion Hl; subst; destruct Hep].
      bind_inv Hl. inversion Hl; subst l. apply in_concat in Hep.
      destruct Hep as [l [Hl' Hep]].
      apply (mapM_In _ _ _ Hv0) in Hl'. destruct Hl' as [m [Hm Hl']].
      apply (parseMethod_In _ _ _ _ _ _ ep) in Hl'. apply Hl' in Hep.
      destruct (operation_path_method _ _ _ _ _ _ Hep) as [E1 E2].
      subst p m. split; [assumption|]. exists pathItem. auto.
    + intros [Hm [pathItem [Hin [Et Hop]]]].
      destruct (mapM_total (parseMethod spec isV3 (path ep) pathItem) methods)
        as [per Hper]; [intros; apply parseMethod_total; assumption|].
      exists (concat per). split.
      * apply (mapM_In _ _ _ Hv1). exists (path ep, pathItem).
        split; [assumption|]. cbn [fst snd]. rewrite Et. cbn [negb].
        rewrite Hper. reflexivity.
      * apply in_concat.
        destruct (parseMethod_total spec isV3 (path ep) pathItem (method ep) Et)
          as [l Hl].
        exists l. split.
        -- apply (mapM_In _ _ _ Hper). eauto.
        -- apply (parseMethod_In _ _ _ _ _ _ ep Hl). assumption.
Qed.
End EndpointFacts.

Module RefFacts.
Import JsString Js OpenAPIParser RefSpec.

Lemma append_assoc (a b c : string) : ((a ++ b) ++ c = a ++ (b ++ c))%string.
Proof. induction a as [|x a IH]; simpl; [reflexivity|rewrite IH; reflexivity]. Qed.

Lemma split_last acc p :
  no_slash p = true -> split_from "/" acc p = [(acc ++ p)%string].
Proof.
  revert acc. induction p as [|c p IH]; intros acc H; simpl in *.
  - replace (acc ++ "")%string with acc; [reflexivity|].
    induction acc; simpl; congruence.
  - apply andb_prop in H. destruct H as [Hc Hp].
    destruct (Ascii.eqb c "/"); [discriminate|].
    rewrite IH by assumption. rewrite append_assoc. reflexivity.
Qed.

Lemma split_part acc p rest :
  no_slash p = true ->
  split_from "/" acc (p ++ String "/" rest) =
  (acc ++ p)%string :: split_from "/" "" rest.
Proof.
  revert acc. induction p as [|c p IH]; intros acc H; simpl in *.
  - replace (acc ++ "")%string with acc; [reflexivity|].
    induction acc; simpl; congruence.
  - apply andb_prop in H. destruct H as [Hc Hp].
    destruct (Ascii.eqb c "/"); [discriminate|].
    rewrite IH by assumption. rewrite append_assoc. reflexivity.
Qed.

Lemma split_join parts :
  parts <> [] -> Forall (fun p => no_slash p = true) parts ->
  split "/" (join "/" parts) = parts.
Proof.
  unfold split. intros Hne H. induction H as [|x r Hx Hr IH]; [congruence|].
  destruct r as [|y r].
  - simpl. rewrite split_last by assumption. reflexivity.
  - change (join "/" (x :: y :: r))
      with (x ++ String "/" (join "/" (y :: r)))%string.
    rewrite split_part by assumption. simpl append.
    rewrite IH by discriminate. reflexivity.
Qed.

Lemma walk_own_path parts : forall v,
  walk v parts = Ok (own_path v parts).
Proof.
  induction parts as [|k rest IH]; intros v; [reflexivity|].
  destruct v as [| |b|n|s|xs|kvs]; try reflexivity;
    cbn [walk truthy is_object andb has get own_path bind].
  - destruct b; reflexivity.
  - destruct (negb (n =? 0)%Z); reflexivity.
  - destruct (negb (s =? "")); reflexivity.
  - destruct (k =? "length"); cbn [orb bind]; [apply IH|].
    destruct (assoc k (indexed xs)); cbn [of_option]; [apply IH|reflexivity].
  - destruct (assoc k kvs); cbn [of_option]; [apply IH|reflexivity].
Qed.

(** The branch of [normalizeSchema] taken by a schema object whose
    [$ref] is a non-empty string. *)
Lemma normalizeSchema_ref spec isV3 kvs r depth :
  assoc "$ref" kvs = Some (JStr r) -> r <> "" -> depth <= 10 ->
  normalizeSchema spec isV3 (JObj kvs) depth =
  (resolved <- resolveRef spec (JStr r) ;;
   if truthy resolved then
     inner <- normalizeSchema spec isV3 resolved (depth + 1) ;;
     Ok (with_ref inner r)
   else Ok (with_ref stub r)).
Proof.
  intros Hk Hr Hd. rewrite normalizeSchema_equation_1.
  destruct (le_lt_dec depth 10) as [Hle|Hgt]; [|lia].
  rewrite normalizeSchema_clause_1_equation_1.
  cbn [truthy negb has get bind]. rewrite Hk. cbn [of_option bind].
  assert (Ht : truthy (JStr r) = true).
  { simpl. destruct (String.eqb_spec r ""); [contradiction|reflexivity]. }
  rewrite Ht. cbn [andb toStr]. reflexivity.
Qed.

Lemma Forall_concat {A} (P : A -> Prop) (l : list (list A)) :
  Forall (Forall P) l -> Forall P (concat l).
Proof.
  induction 1; simpl; [constructor|apply Forall_app; split; assumption].
Qed.

Lemma Forall_somes {A} (P : A -> Prop) (l : list (option A)) :
  Forall (fun o => match o with Some a => P a | None => True end) l ->
  Forall P (somes l).
Proof.
  induction 1 as [|o r Ho _ IH]; simpl; [constructor|].
  destruct o; simpl; [constructor|]; assumption.
Qed.

Lemma getSecurityScheme_name spec isV3 name s :
  getSecurityScheme spec isV3 name = Ok (Some s) -> sec_name s = name.
Proof.
  unfold getSecurityScheme, normalizeSecurityScheme,
    normalizeSecuritySchemeV2.
  destruct isV3; intros H; binds_inv H;
    (destruct (negb (truthy _)); [discriminate|]);
    binds_inv H; inversion H; subst s; clear H;
    repeat match goal with
    | Hs : (if ?c then _ else _) = Ok _ |- _ => destruct c
    | Hs : bind _ _ = Ok _ |- _ => bind_inv Hs
    | Hs : Ok _ = Ok _ |- _ => inversion Hs; subst; clear Hs
    end; reflexivity.
Qed.

Lemma parseResponse_kept spec isV3 code v o :
  parseResponse spec isV3 code v = Ok o ->
  match o with
  | Some r => resp_statusCode r = code /\ kept_response v = true
  | None => kept_response v = false
  end.
Proof.
  unfold parseResponse, kept_response. intros H.
  destruct (truthy v); cbn [negb andb] in *; [|inversion H; reflexivity].
  bind_inv H. rewrite Hv. destruct v0; [inversion H; reflexivity|].
  bind_inv H. destruct isV3; binds_inv H; inversion H; subst o;
    split; reflexivity.
Qed.
End RefFacts.


(* ===================================================================== *)
(** * Well-formed schemas; declared security schemes; letter case *)
(* ===================================================================== *)

Module ShapeFacts.
Import JsString Js OpenAPIParser ShapeSpec EndpointFacts.

Lemma present_and_truthy kvs k :
  match assoc k kvs with Some _ => true | None => false end
  && truthy (member kvs k) = truthy (member kvs k).
Proof. unfold member. destruct (assoc k kvs); reflexivity. Qed.

Lemma getSchemaType_total kvs :
  exists ty, getSchemaType (JObj kvs) = Ok ty.
Proof.
  unfold getSchemaType. cbn [get has bind].
  destruct (truthy (of_option (assoc "type" kvs))).
  - destruct (of_option (assoc "type" kvs)); eauto.
    cbn [get]. replace ("0" =? "length") with false by reflexivity. eauto.
  - destruct (truthy (of_option (assoc "properties" kvs))); [eauto|].
    destruct (assoc "items" kvs); [eauto|].
    destruct (truthy (of_option (assoc "enum" kvs))); eauto.
Qed.

Lemma walk_total parts : forall v, exists x, walk v parts = Ok x.
Proof.
  induction parts as [|k rest IH]; intros v; [simpl; eauto|].
  cbn [walk]. destruct (truthy v && is_object v) eqn:E; [|eauto].
  destruct v as [| |b|n|s|xs|kvs]; cbn [truthy is_object] in E;
    try (rewrite andb_false_r in E); try discriminate; cbn [has get bind].
  - destruct ((k =? "length") ||
              match assoc k (indexed xs) with
              | Some _ => true | None => false end); [|eauto].
    destruct (k =? "length"); cbn [bind]; apply IH.
  - destruct (assoc k kvs); cbn [bind]; [apply IH|eauto].
Qed.

Lemma resolveRef_total spec p : exists x, resolveRef spec (JStr p) = Ok x.
Proof.
  unfold resolveRef. destruct (negb (startsWith p "#/")); [eauto|].
  apply walk_total.
Qed.

Section Children.
Variable f : json -> result NormalizedSchema.
Variable P : json -> Prop.
Hypothesis Hf : forall s, P s -> exists r, f s = Ok r.

Lemma list_total v kvs k :
  v = member kvs k -> list_of P v ->
  exists o,
    (if match assoc k kvs with Some _ => true | None => false end
        && truthy v
     then xs <- as_array v ;; ys <- mapM (fun s => f s) xs ;; Ok (Some ys)
     else Ok None) = Ok o.
Proof.
  intros -> Hl. rewrite present_and_truthy.
  destruct (truthy (member kvs k)) eqn:Et; [|eauto].
  destruct (Hl Et) as [xs [Hv Hxs]]. rewrite Hv. cbn [as_array bind].
  destruct (mapM_total (fun s => f s) xs) as [ys Hys].
  - intros a Ha. apply Hf. rewrite Forall_forall in Hxs. auto.
  - rewrite Hys. cbn [bind]. eauto.
Qed.
End Children.
End ShapeFacts.

Module SchemeFacts.
Import JsString Js OpenAPIParser SchemeSpec EndpointFacts RefFacts.

Lemma assoc_unique {A} (kvs : list (string * A)) k v :
  NoDup (map fst kvs) -> In (k, v) kvs -> assoc k kvs = Some v.
Proof.
  induction kvs as [|[k' v'] r IH]; intros Hn Hin; [destruct Hin|].
  simpl in *. inversion Hn; subst.
  destruct Hin as [E|Hin].
  - inversion E; subst. rewrite String.eqb_refl. reflexivity.
  - destruct (String.eqb_spec k' k) as [->|_].
    + exfalso. apply H1. change k with (fst (k, v)). apply in_map.
      assumption.
    + apply IH; assumption.
Qed.

Lemma somes_In {A} (l : list (option A)) a :
  In a (somes l) <-> In (Some a) l.
Proof.
  unfold somes. rewrite in_flat_map. split.
  - intros [[x|] [Hx Ha]]; [|destruct Ha].
    destruct Ha as [->|[]]. assumption.
  - intros H. exists (Some a). split; [assumption|left; reflexivity].
Qed.

Lemma mapM_each {A B} (f : A -> result B) l : forall l',
  mapM f l = Ok l' -> forall a, In a l -> exists b, f a = Ok b.
Proof.
  induction l as [|x r IH]; intros l' H a Ha; [destruct Ha|].
  simpl in H. binds_inv H. destruct Ha as [->|Ha]; eauto.
Qed.

(** [getSecurityScheme] finds the scheme among the declarations. *)
Lemma getSecurityScheme_declared spec isV3 name scheme :
  declares_in_object spec isV3 = true ->
  getSecurityScheme spec isV3 name = Ok (Some scheme) <->
  exists kvs v,
    declared spec isV3 = Ok (JObj kvs) /\
    assoc name kvs = Some v /\ truthy v = true /\
    normalize_declared isV3 name v = Ok scheme.
Proof.
  unfold declares_in_object, getSecurityScheme, declared,
    normalize_declared.
  destruct isV3.
  - destruct (get spec "components") as [c|e]; cbn [bind];
      [|intros; discriminate].
    destruct (get_opt c "securitySchemes") as [d|e]; cbn [bind];
      [|intros; discriminate].
    destruct d as [| |b|n|t|xs|kvs]; try (intros; discriminate); intros _.
    + split; [discriminate|]. intros [kvs [v [H _]]]. discriminate.
    + split; [discriminate|]. intros [kvs [v [H _]]]. discriminate.
    + cbn [get_opt get bind]. split.
      * destruct (assoc name kvs) as [v|] eqn:Ea; cbn [of_option];
          [|discriminate].
        destruct (truthy v) eqn:Et; cbn [negb]; [|discriminate].
        intros H. bind_inv H. inversion H; subst.
        exists kvs, v. auto.
      * intros [kvs' [v [H1 [H2 [H3 H4]]]]]. inversion H1; subst kvs'.
        rewrite H2. cbn [of_option]. rewrite H3. cbn [negb].
        rewrite H4. reflexivity.
  - destruct (get spec "securityDefinitions") as [d|e]; cbn [bind];
      [|intros; discriminate].
    destruct d as [| |b|n|t|xs|kvs]; try (intros; discriminate); intros _.
    + split; [discriminate|]. intros [kvs [v [H _]]]. discriminate.
    + split; [discriminate|]. intros [kvs [v [H _]]]. discriminate.
    + cbn [get_opt get bind]. split.
      * destruct (assoc name kvs) as [v|] eqn:Ea; cbn [of_option];
          [|discriminate].
        destruct (truthy v) eqn:Et; cbn [negb]; [|discriminate].
        intros H. bind_inv H. inversion H; subst.
        exists kvs, v. auto.
      * intros [kvs' [v [H1 [H2 [H3 H4]]]]]. inversion H1; subst kvs'.
        rewrite H2. cbn [of_option]. rewrite H3. cbn [negb].
        rewrite H4. reflexivity.
Qed.

(** What [parseSecurity] returns, by the entries of the requirements. *)
Lemma parseSecurity_In spec isV3 security l :
  parseSecurity spec isV3 security = Ok l ->
  forall s,
    In s l <->
    exists name scopes scheme,
      In (name, scopes) (requirements security) /\
      getSecurityScheme spec isV3 name = Ok (Some scheme) /\
      s = with_scopes scheme scopes.
Proof.
  unfold parseSecurity, requirements. intros H s.
  destruct (truthy security) eqn:Et; cbn [negb] in H.
  - destruct (iterate security) as [reqs|e]; cbn [bind] in H;
      [|discriminate].
    bind_inv H. inversion H; subst l; clear H.
    match goal with
    | Hm : mapM _ reqs = Ok ?p |- _ => rename Hm into Hper; rename p into per
    end.
    rewrite in_concat. split.
    + intros [x [Hx Hs]].
      apply (mapM_In _ _ _ Hper) in Hx. destruct Hx as [req [Hreq Hf]].
      cbv beta in Hf.
      destruct (entries req) as [es|e] eqn:Ee; cbn [bind] in Hf;
        [|discriminate].
      bind_inv Hf. inversion Hf; subst x; clear Hf.
      match goal with
      | Hm : mapM _ es = Ok ?p |- _ => rename Hm into Hrs; rename p into rs
      end.
      apply somes_In in Hs. apply (mapM_In _ _ _ Hrs) in Hs.
      destruct Hs as [[name scopes] [Hin Hg]]. cbn [fst snd] in Hg.
      destruct (getSecurityScheme spec isV3 name) as [[scheme|]|e] eqn:Eg;
        cbn [bind option_map] in Hg; try discriminate.
      inversion Hg; subst s.
      exists name, scopes, scheme. split; [|auto].
      apply in_flat_map. exists req. rewrite Ee. auto.
    + intros [name [scopes [scheme [Hin [Hg ->]]]]].
      apply in_flat_map in Hin. destruct Hin as [req [Hreq Hin]].
      destruct (mapM_each _ _ _ Hper req Hreq) as [x Hx].
      exists x. split; [apply (mapM_In _ _ _ Hper); eauto|].
      cbv beta in Hx.
      destruct (entries req) as [es|e] eqn:Ee; cbn [bind] in Hx;
        [|discriminate].
      bind_inv Hx. inversion Hx; subst x; clear Hx.
      match goal with
      | Hm : mapM _ es = Ok ?p |- _ => rename Hm into Hrs; rename p into rs
      end.
      apply somes_In. apply (mapM_In _ _ _ Hrs).
      exists (name, scopes). split; [assumption|].
      cbn [fst snd]. rewrite Hg. reflexivity.
  - inversion H; subst l. split; [intros []|].
    intros [name [scopes [scheme [Hin _]]]].
    destruct security as [| |b|n|t|xs|kvs]; cbn in Et, Hin;
      try discriminate; try (destruct Hin; fail).
    destruct (String.eqb_spec t ""); [subst t|discriminate].
    destruct Hin.
Qed.
End SchemeFacts.

Module CaseFacts.
Import JsString Js Search ToolHandler.

Lemma lower_upper_char c : lower_char (upper_char c) = lower_char c.
Proof.
  destruct c as [[] [] [] [] [] [] [] []]; vm_compute; reflexivity.
Qed.

Lemma lower_lower_char c : lower_char (lower_char c) = lower_char c.
Proof.
  destruct c as [[] [] [] [] [] [] [] []]; vm_compute; reflexivity.
Qed.

Lemma lower_upper s : toLowerCase (toUpperCase s) = toLowerCase s.
Proof.
  induction s as [|c s IH]; [reflexivity|].
  simpl. rewrite lower_upper_char, IH. reflexivity.
Qed.

Lemma lower_lower s : toLowerCase (toLowerCase s) = toLowerCase s.
Proof.
  induction s as [|c s IH]; [reflexivity|].
  simpl. rewrite lower_lower_char, IH. reflexivity.
Qed.

Lemma nonempty_upper o :
  nonempty (option_map toUpperCase o) = option_map toUpperCase (nonempty o).
Proof. destruct o as [[|c s]|]; reflexivity. Qed.
End CaseFacts.


(* ===================================================================== *)
(** * From typed operations to typed endpoints *)
(* ===================================================================== *)

Module TypedFacts.
Import JsString Js OpenAPIParser Search SearchSpec SearchFacts.
Import EndpointSpec EndpointFacts TypedSpec.

Lemma parseOperation_typed spec isV3 p m operation pathItem ep :
  parseOperation spec isV3 p m operation pathItem = Ok ep ->
  typed_operation operation = true -> well_typed ep = true.
Proof.
  unfold parseOperation, typed_operation, well_typed, field.
  intros H Ht. cbv zeta in H. binds_inv H. inversion H; subst ep; clear H.
  cbn [operationId summary description tags].
  repeat match goal with
         | Hg : get operation ?k = Ok _ |- _ => rewrite Hg in Ht; clear Hg
         end.
  exact Ht.
Qed.

Lemma typed_search_total spec query filters :
  (forall ep, In ep (endpoints spec) -> well_typed ep = true) ->
  exists found, searchEndpoints spec query filters = Ok found.
Proof.
  intros H. rewrite searchEndpoints_typed by assumption. eauto.
Qed.
End TypedFacts.


(* ===================================================================== *)
(** * Invariants of every schedule of a cache *)
(* ===================================================================== *)

Module FlightFacts.
Import SpecCache CacheSpec FlightSpec.

Lemma count_app (l : list task) tk :
  length (filter is_awaiting (l ++ [tk])) =
  length (filter is_awaiting l) + (if is_awaiting tk then 1 else 0).
Proof.
  rewrite filter_app, length_app. simpl.
  destruct (is_awaiting tk); reflexivity.
Qed.

Lemma count_update (l : list task) : forall i x v,
  nth_error l i = Some x ->
  length (filter is_awaiting (update i v l)) +
    (if is_awaiting x then 1 else 0) =
  length (filter is_awaiting l) + (if is_awaiting v then 1 else 0).
Proof.
  induction l as [|a r IH]; intros i x v H.
  - destruct i; discriminate.
  - destruct i as [|j]; simpl in H.
    + inversion H; subst a. simpl.
      destruct (is_awaiting x), (is_awaiting v); simpl; lia.
    + simpl. specialize (IH j x v H).
      destruct (is_awaiting a); simpl; lia.
Qed.

Lemma refresh_flight o w :
  awaiting w = flag_count w ->
  awaiting (refresh o w) = flag_count (refresh o w).
Proof.
  unfold awaiting, flag_count, refresh. intros H.
  destruct (negb (onRefresh (obj w))); cbn [tasks obj].
  - rewrite count_app. simpl. lia.
  - destruct (isRefreshing (obj w)) eqn:E; cbn [tasks obj].
    + rewrite count_app, E. simpl. lia.
    + rewrite count_app. simpl. lia.
Qed.

Lemma step_flight ev w w' :
  step ev w = Some w' ->
  awaiting w = flag_count w -> awaiting w' = flag_count w'.
Proof.
  intros Hstep H. destruct ev as [| |i r|i|d]; simpl in Hstep.
  - inversion Hstep; subst. apply refresh_flight; assumption.
  - destruct (refreshTimer (obj w)); [|discriminate].
    inversion Hstep; subst. apply refresh_flight; assumption.
  - destruct (nth_error (tasks w) i) as [[o [|due|]]|] eqn:En;
      try discriminate.
    pose proof (count_update (tasks w) i _
                  (mkTask o (Done (CacheSpec.leader_outcome r))) En) as Hc.
    cbn in Hc. unfold awaiting, flag_count in *.
    destruct r as [spec|reason]; inversion Hstep; subst w'; clear Hstep;
      cbn [tasks obj finish isRefreshing with_isRefreshing];
      cbn [CacheSpec.leader_outcome] in Hc;
      destruct (isRefreshing (obj w)); lia.
  - destruct (nth_error (tasks w) i) as [[o [|due|]]|] eqn:En;
      try discriminate.
    destruct (now w <? due)%Z; [discriminate|].
    unfold refresh_after_sleep in Hstep. unfold awaiting, flag_count in *.
    destruct (isRefreshing (obj w)) eqn:E.
    + inversion Hstep; subst w'; cbn [tasks obj]. rewrite E.
      pose proof (count_update (tasks w) i _
                    (mkTask o (Sleeping (now w + 100))) En) as Hc.
      cbn in Hc. lia.
    + destruct (get (now w) (obj w)) as [cached|];
        inversion Hstep; subst w'; cbn [tasks obj finish]; rewrite E;
        match goal with |- context [update i ?v _] =>
          pose proof (count_update (tasks w) i _ v En) as Hc end;
        cbn in Hc; lia.
  - destruct (d <? 0)%Z; [discriminate|].
    inversion Hstep; subst w'. exact H.
Qed.

Lemma run_flight evs : forall w w',
  run evs w = Some w' ->
  awaiting w = flag_count w -> awaiting w' = flag_count w'.
Proof.
  induction evs as [|ev rest IH]; intros w w' Hrun H; simpl in Hrun.
  - inversion Hrun; subst; assumption.
  - destruct (step ev w) as [w1|] eqn:Es; [|discriminate].
    eapply IH; [eassumption|]. eapply step_flight; eassumption.
Qed.

(** What a step does to the clock, the time to live and the slot. *)
Lemma step_slot ev w w' :
  step ev w = Some w' ->
  (now w <= now w')%Z /\ ttlMs (obj w') = ttlMs (obj w) /\
  (cache (obj w') = cache (obj w) \/
   exists i spec,
     ev = Settle i (inl spec) /\
     cache (obj w') =
       Some (mkEntry spec (now w') (now w' + ttlMs (obj w)))).
Proof.
  intros Hstep. destruct ev as [| |i r|i|d]; simpl in Hstep.
  - inversion Hstep; subst. unfold refresh.
    destruct (negb (onRefresh (obj w))); [cbn; repeat split; auto; lia|].
    destruct (isRefreshing (obj w)); cbn; repeat split; auto; lia.
  - destruct (refreshTimer (obj w)); [|discriminate].
    inversion Hstep; subst. unfold refresh.
    destruct (negb (onRefresh (obj w))); [cbn; repeat split; auto; lia|].
    destruct (isRefreshing (obj w)); cbn; repeat split; auto; lia.
  - destruct (nth_error (tasks w) i) as [[o [|due|]]|]; try discriminate.
    destruct r as [spec|reason]; inversion Hstep; subst; cbn.
    + split; [lia|]. split; [reflexivity|]. right. eauto.
    + repeat split; auto; lia.
  - destruct (nth_error (tasks w) i) as [[o [|due|]]|]; try discriminate.
    destruct (now w <? due)%Z; [discriminate|].
    unfold refresh_after_sleep in Hstep.
    destruct (isRefreshing (obj w));
      [inversion Hstep; cbn; repeat split; auto; lia|].
    destruct (get (now w) (obj w)); inversion Hstep; cbn;
      repeat split; auto; lia.
  - destruct (d <? 0)%Z eqn:Ed; [discriminate|].
    inversion Hstep; cbn. repeat split; auto; lia.
Qed.

Lemma run_slot evs : forall w w',
  run evs w = Some w' ->
  (now w <= now w')%Z /\ ttlMs (obj w') = ttlMs (obj w) /\
  (cache (obj w') = cache (obj w) \/
   exists e,
     cache (obj w') = Some e /\ produced (data e) evs /\
     expiresAt e = (createdAt e + ttlMs (obj w))%Z /\
     (now w <= createdAt e <= now w')%Z).
Proof.
  induction evs as [|ev rest IH]; intros w w' Hrun; simpl in Hrun.
  - inversion Hrun; subst. repeat split; auto; lia.
  - destruct (step ev w) as [w1|] eqn:Es; [|discriminate].
    destruct (step_slot _ _ _ Es) as [Hn [Ht Hc]].
    destruct (IH _ _ Hrun) as [Hn' [Ht' Hc']].
    split; [lia|]. split; [congruence|].
    destruct Hc' as [Hc'|[e [He [[i Hi] [Hx Hb]]]]].
    + destruct Hc as [Hc|[i [spec [Hev Hc]]]]; [left; congruence|].
      right. rewrite Hc' , Hc. eexists. split; [reflexivity|]. cbn.
      split; [exists i; left; assumption|]. split; [reflexivity|lia].
    + right. exists e. split; [assumption|].
      split; [exists i; right; assumption|].
      split; [congruence|lia].
Qed.
End FlightFacts.


(* ===================================================================== *)
(** * The scan of embedded documents; validation *)
(* ===================================================================== *)

Module TextFacts.
Import JsString Js OpenAPIFetcher FetcherHelpers TextSpec.

Lemma app_assoc_s (a b c : string) :
  ((a ++ b) ++ c = a ++ (b ++ c))%string.
Proof.
  induction a as [|x a IH]; simpl; [reflexivity|rewrite IH; reflexivity].
Qed.

Lemma app_empty_r (a : string) : (a ++ "")%string = a.
Proof. induction a as [|x a IH]; simpl; [|rewrite IH]; reflexivity. Qed.

Lemma length_app_s (a b : string) :
  String.length (a ++ b) = String.length a + String.length b.
Proof. induction a as [|x a IH]; simpl; [|rewrite IH]; reflexivity. Qed.

Lemma substring_app (p q : string) :
  substring 0 (String.length p) (p ++ q) = p.
Proof.
  induction p as [|x p IH]; simpl; [destruct q; reflexivity|].
  rewrite IH. reflexivity.
Qed.

Lemma option_map_app (pre : string) c (o : option string) :
  option_map (append (pre ++ String c "")) o =
  option_map (append pre) (option_map (String c) o).
Proof.
  destruct o as [a|]; [|reflexivity]. simpl.
  rewrite app_assoc_s. reflexivity.
Qed.

(** The loop of [extractJsonObject] returns the characters before the
    index together with those that [cut] takes. *)
Lemma scan_cut rest : forall pre depth inString escape,
  scan (pre ++ rest) depth inString escape (String.length pre) rest =
  option_map (append pre) (cut depth inString escape rest).
Proof.
  induction rest as [|c rest IH]; intros pre d q e; [reflexivity|].
  assert (Hs : (pre ++ String c rest = (pre ++ String c "") ++ rest)%string)
    by (rewrite app_assoc_s; reflexivity).
  assert (Hl : S (String.length pre) = String.length (pre ++ String c ""))
    by (rewrite length_app_s; simpl; lia).
  assert (Hrec : forall d' q' e',
             scan (pre ++ String c rest) d' q' e' (S (String.length pre)) rest =
             option_map (append pre)
               (option_map (String c) (cut d' q' e' rest))).
  { intros. rewrite Hs, Hl, IH. apply option_map_app. }
  cbn [scan cut].
  destruct e; [apply Hrec|].
  destruct (Ascii.eqb c backslash); [apply Hrec|].
  destruct (Ascii.eqb c quote); [apply Hrec|].
  destruct (negb q); [|apply Hrec]. cbv zeta.
  match goal with |- context [(?x =? 0)%Z] => destruct (x =? 0)%Z end;
    [|apply Hrec].
  replace (String.length pre + 1) with (String.length (pre ++ String c ""))
    by (rewrite length_app_s; simpl; lia).
  rewrite Hs, substring_app. reflexivity.
Qed.

Ltac cut_cases c e q :=
  cbn [cut];
  destruct e; [|destruct (Ascii.eqb c backslash);
                [|destruct (Ascii.eqb c quote); [|destruct (negb q)]]].

Lemma cut_prefix rest : forall d q e a,
  cut d q e rest = Some a -> exists b, rest = (a ++ b)%string.
Proof.
  induction rest as [|c rest IH]; intros d q e a H; [discriminate|].
  assert (Hrec : forall d' q' e',
             option_map (String c) (cut d' q' e' rest) = Some a ->
             exists b, String c rest = (a ++ b)%string).
  { intros d' q' e' Hc. destruct (cut d' q' e' rest) as [a'|] eqn:E;
      [|discriminate].
    inversion Hc; subst a. destruct (IH _ _ _ _ E) as [b Hb].
    exists b. simpl. rewrite <- Hb. reflexivity. }
  revert H. cut_cases c e q; try apply Hrec. cbv zeta.
  match goal with |- context [(?x =? 0)%Z] => destruct (x =? 0)%Z end;
    [|apply Hrec].
  intros H. inversion H; subst a. exists rest. reflexivity.
Qed.

Lemma cut_again rest : forall d q e a,
  cut d q e rest = Some a -> cut d q e a = Some a.
Proof.
  induction rest as [|c rest IH]; intros d q e a H; [discriminate|].
  revert H. cbn [cut].
  destruct e.
  { destruct (cut d q false rest) as [a'|] eqn:E; [|discriminate].
    intros H; inversion H; subst a. cbn [cut].
    rewrite (IH _ _ _ _ E). reflexivity. }
  destruct (Ascii.eqb c backslash) eqn:Eb.
  { destruct (cut d q true rest) as [a'|] eqn:E; [|discriminate].
    intros H; inversion H; subst a. cbn [cut]. rewrite Eb.
    rewrite (IH _ _ _ _ E). reflexivity. }
  destruct (Ascii.eqb c quote) eqn:Eq.
  { destruct (cut d (negb q) false rest) as [a'|] eqn:E; [|discriminate].
    intros H; inversion H; subst a. cbn [cut]. rewrite Eb, Eq.
    rewrite (IH _ _ _ _ E). reflexivity. }
  destruct (negb q) eqn:En.
  2:{ destruct (cut d q false rest) as [a'|] eqn:E; [|discriminate].
      intros H; inversion H; subst a. cbn [cut]. rewrite Eb, Eq, En.
      rewrite (IH _ _ _ _ E). reflexivity. }
  cbv zeta.
  match goal with |- context [(?x =? 0)%Z] =>
    destruct (x =? 0)%Z eqn:Ez end.
  - intros H; inversion H; subst a. cbn [cut]. rewrite Eb, Eq, En.
    cbv zeta. rewrite Ez. reflexivity.
  - match goal with |- context [cut ?x q false rest] =>
      destruct (cut x q false rest) as [a'|] eqn:E end; [|discriminate].
    intros H; inversion H; subst a. cbn [cut]. rewrite Eb, Eq, En.
    cbv zeta. rewrite Ez. rewrite (IH _ _ _ _ E). reflexivity.
Qed.

Lemma cut_shortest rest : forall d q e a p s,
  cut d q e rest = Some a -> a = (p ++ s)%string -> s <> "" ->
  cut d q e p = None.
Proof.
  induction rest as [|c rest IH]; intros d q e a p s H Ha Hs;
    [discriminate|].
  destruct p as [|c' p]; [reflexivity|].
  assert (Hrec : forall d' q' e',
             option_map (String c) (cut d' q' e' rest) = Some a ->
             c' = c /\ cut d' q' e' p = None).
  { intros d' q' e' Hc. destruct (cut d' q' e' rest) as [a'|] eqn:E;
      [|discriminate].
    inversion Hc; subst a. simpl in H1. inversion H1; subst.
    split; [reflexivity|]. eapply IH; eauto. }
  revert H. cbn [cut].
  destruct e.
  { intros H. destruct (Hrec _ _ _ H) as [-> Hn]. cbn [cut].
    rewrite ?Hn. reflexivity. }
  destruct (Ascii.eqb c backslash) eqn:Eb.
  { intros H. destruct (Hrec _ _ _ H) as [-> Hn]. cbn [cut].
    rewrite ?Eb, ?Hn. reflexivity. }
  destruct (Ascii.eqb c quote) eqn:Eq.
  { intros H. destruct (Hrec _ _ _ H) as [-> Hn]. cbn [cut].
    rewrite ?Eb, ?Eq, ?Hn. reflexivity. }
  destruct (negb q) eqn:En.
  2:{ intros H. destruct (Hrec _ _ _ H) as [-> Hn]. cbn [cut].
      rewrite ?Eb, ?Eq, ?En, ?Hn. reflexivity. }
  cbv zeta.
  match goal with |- context [(?x =? 0)%Z] =>
    destruct (x =? 0)%Z eqn:Ez end.
  - intros H. inversion H; subst a. simpl in H1. inversion H1.
    destruct p; [simpl in *; congruence|discriminate].
  - intros H. destruct (Hrec _ _ _ H) as [-> Hn]. cbn [cut].
    rewrite ?Eb, ?Eq, ?En. cbv zeta. rewrite ?Ez, ?Hn. reflexivity.
Qed.

Lemma cut_closes rest : forall d q e a,
  (1 <= d)%Z -> cut d q e rest = Some a ->
  exists a0, a = (a0 ++ "}")%string.
Proof.
  induction rest as [|c rest IH]; intros d q e a Hd H; [discriminate|].
  assert (Hrec : forall d' q' e',
             (1 <= d')%Z ->
             option_map (String c) (cut d' q' e' rest) = Some a ->
             exists a0, a = (a0 ++ "}")%string).
  { intros d' q' e' Hd' Hc. destruct (cut d' q' e' rest) as [a'|] eqn:E;
      [|discriminate].
    inversion Hc; subst a. destruct (IH _ _ _ _ Hd' E) as [a0 Ha0].
    exists (String c a0). simpl. rewrite Ha0. reflexivity. }
  revert H. cut_cases c e q; try (apply Hrec; assumption). cbv zeta.
  destruct (Ascii.eqb c "{") eqn:Eo, (Ascii.eqb c "}") eqn:Ec.
  - apply Ascii.eqb_eq in Eo, Ec. congruence.
  - replace (d + 1 =? 0)%Z with false by (symmetry; apply Z.eqb_neq; lia).
    apply Hrec. lia.
  - apply Ascii.eqb_eq in Ec. subst c.
    destruct (d - 1 =? 0)%Z eqn:Ez.
    + intros H; inversion H. exists "". reflexivity.
    + apply Hrec. apply Z.eqb_neq in Ez. lia.
  - replace (d =? 0)%Z with false by (symmetry; apply Z.eqb_neq; lia).
    apply Hrec. lia.
Qed.

Lemma option_map_append (a b : string) (o : option string) :
  option_map (append (a ++ b)) o =
  option_map (append a) (option_map (append b) o).
Proof.
  destruct o as [x|]; [|reflexivity]. simpl.
  rewrite app_assoc_s. reflexivity.
Qed.

Lemma cut_literal l : literal l -> forall d tail,
  cut d true false (l ++ String quote tail) =
  option_map (append (l ++ String quote "")) (cut d false false tail).
Proof.
  induction 1 as [|c s Hb Hq Hs IH|c s Hs IH]; intros d tail.
  - cbn. destruct (cut d false false tail); reflexivity.
  - simpl append. cbn [cut]. rewrite Hb, Hq. cbn [negb].
    rewrite IH. destruct (cut d false false tail); reflexivity.
  - simpl append. cbn [cut].
    replace (Ascii.eqb backslash backslash) with true by reflexivity.
    rewrite IH. destruct (cut d false false tail); reflexivity.
Qed.

Lemma cut_balanced b : balanced b -> forall d tail,
  (1 <= d)%Z ->
  cut d false false (b ++ tail) =
  option_map (append b) (cut d false false tail).
Proof.
  induction 1 as [|c s Hc Hs IH|l s Hl Hs IH|b s Hb IHb Hs IHs];
    intros d tail Hd.
  - simpl. destruct (cut d false false tail); reflexivity.
  - unfold plain in Hc. repeat (apply andb_prop in Hc; destruct Hc as [Hc ?]).
    simpl append. cbn [cut].
    repeat match goal with
           | Hn : negb ?x = true |- _ =>
               apply negb_true_iff in Hn; rewrite Hn
           end.
    cbn [negb]. cbv zeta.
    replace (d =? 0)%Z with false by (symmetry; apply Z.eqb_neq; lia).
    rewrite IH by assumption.
    destruct (cut d false false tail); reflexivity.
  - rewrite app_assoc_s. simpl append. cbn [cut].
    replace (Ascii.eqb quote backslash) with false by reflexivity.
    replace (Ascii.eqb quote quote) with true by reflexivity.
    cbn [negb]. rewrite cut_literal by assumption.
    rewrite IH by assumption.
    destruct (cut d false false tail) as [x|]; [|reflexivity].
    simpl. rewrite !app_assoc_s. reflexivity.
  - rewrite app_assoc_s. simpl append. cbn [cut]. cbn [negb]. cbv zeta.
    replace (Ascii.eqb "{" backslash) with false by reflexivity.
    replace (Ascii.eqb "{" quote) with false by reflexivity.
    replace (Ascii.eqb "{" "{") with true by reflexivity.
    replace (Ascii.eqb "{" "}") with false by reflexivity.
    replace (d + 1 =? 0)%Z with false by (symmetry; apply Z.eqb_neq; lia).
    rewrite IHb by lia. cbn [cut]. cbn [negb]. cbv zeta.
    replace (Ascii.eqb "}" backslash) with false by reflexivity.
    replace (Ascii.eqb "}" quote) with false by reflexivity.
    replace (Ascii.eqb "}" "{") with false by reflexivity.
    replace (Ascii.eqb "}" "}") with true by reflexivity.
    replace (d + 1 - 1 =? 0)%Z with false by (symmetry; apply Z.eqb_neq; lia).
    replace (d + 1 - 1)%Z with d by lia.
    rewrite IHs by assumption.
    destruct (cut d false false tail) as [x|]; [|reflexivity].
    simpl. rewrite !app_assoc_s. reflexivity.
Qed.

(** What [extractJsonObject] does on a string that starts with a brace. *)
Lemma extractJsonObject_cut r :
  extractJsonObject (String "{" r) =
  option_map (String "{") (cut 1 false false r).
Proof.
  unfold extractJsonObject, startsWith. cbn [String.prefix].
  destruct (ascii_dec "{" "{") as [_|N]; [|congruence].
  replace (String.prefix "" r) with true by (destruct r; reflexivity).
  cbn [negb].
  pose proof (scan_cut (String "{" r) "" 0 false false) as Hc.
  cbn [append String.length] in Hc. rewrite Hc.
  cbn. destruct (cut 1 false false r); reflexivity.
Qed.

Lemma starts_with_brace str :
  startsWith str "{" = true -> exists r, str = String "{" r.
Proof.
  unfold startsWith. destruct str as [|c r]; [discriminate|].
  cbn [String.prefix].
  destruct (ascii_dec "{" c) as [E|]; [subst c; eauto|discriminate].
Qed.
End TextFacts.

Module ValidationFacts.
Import JsString Js OpenAPIFetcher FetcherHelpers OpenAPIParser.
Import EndpointSpec EndpointFacts ValidationSpec.

Lemma split_first_extends sep s : forall acc p rest,
  split_from sep acc s = p :: rest -> exists t, p = (acc ++ t)%string.
Proof.
  induction s as [|c s IH]; intros acc p rest H; simpl in H.
  - inversion H. exists "". symmetry. apply TextFacts.app_empty_r.
  - destruct (Ascii.eqb c sep).
    + inversion H. exists "". symmetry. apply TextFacts.app_empty_r.
    + destruct (IH _ _ _ H) as [t Ht]. exists (String c t).
      rewrite Ht, TextFacts.app_assoc_s. reflexivity.
Qed.

(** A version whose first dot-separated part is [3] starts with [3]. *)
Lemma major_three v :
  first_is_not (split "." v) "3" = false -> exists r, v = String "3" r.
Proof.
  unfold split. destruct v as [|c r]; [discriminate|]. simpl.
  destruct (Ascii.eqb c ".") eqn:Ec; [discriminate|].
  destruct (split_from "." (String c "") r) as [|p rest] eqn:Es;
    [discriminate|].
  cbn [first_is_not]. intros H. apply negb_false_iff in H.
  apply String.eqb_eq in H. subst p.
  destruct (split_first_extends _ _ _ _ _ Es) as [t Ht].
  simpl in Ht. inversion Ht. eauto.
Qed.

Lemma validateSpec_accepted m spec :
  validateSpec m spec = inl tt -> accepted spec.
Proof.
  unfold validateSpec, accepted. intros H.
  destruct (truthy spec) eqn:Et; [|discriminate].
  destruct (is_object spec) eqn:Eo; [|discriminate].
  cbn [negb orb] in H.
  split; [reflexivity|]. split; [reflexivity|].
  destruct spec as [| |b|n|s|xs|kvs]; try discriminate.
  - revert H. cbn [has raised and_then get].
    destruct (("openapi" =? "length") ||
              match assoc "openapi" (indexed xs) with
              | Some _ => true | None => false end) eqn:E1.
    + replace ("openapi" =? "length") with false in * by reflexivity.
      replace ("info" =? "length") with false by reflexivity.
      replace ("paths" =? "length") with false by reflexivity.
      cbn [raised and_then].
      destruct (truthy (of_option (assoc "openapi" (indexed xs)))) eqn:T1;
        [|discriminate].
      destruct (truthy (of_option (assoc "info" (indexed xs)))) eqn:T2;
        [|discriminate].
      destruct (truthy (of_option (assoc "paths" (indexed xs)))) eqn:T3;
        [|discriminate].
      cbn [negb orb].
      destruct (of_option (assoc "openapi" (indexed xs))) eqn:Ev;
        try discriminate.
      cbn [split_dots raised and_then].
      destruct (first_is_not (split "." s) "3") eqn:Ef; [discriminate|].
      intros _. destruct (major_three _ Ef) as [r ->].
      split; [eauto|]. split; [eauto|]. left. split; [reflexivity|eauto].
    + replace ("swagger" =? "length") with false by reflexivity.
      replace ("info" =? "length") with false by reflexivity.
      replace ("paths" =? "length") with false by reflexivity.
      cbn [orb].
      destruct (assoc "swagger" (indexed xs)) as [sw|] eqn:E2;
        [|discriminate].
      cbn [raised and_then of_option].
      destruct (truthy sw) eqn:T1; [|discriminate].
      destruct (truthy (of_option (assoc "info" (indexed xs)))) eqn:T2;
        [|discriminate].
      destruct (truthy (of_option (assoc "paths" (indexed xs)))) eqn:T3;
        [|discriminate].
      cbn [negb orb].
      destruct sw; try discriminate. cbn [is_str].
      destruct (String.eqb_spec s "2.0"); [|discriminate]. subst s.
      intros _. split; [eauto|]. split; [eauto|]. right. auto.
  - revert H. cbn [has raised and_then get].
    destruct (assoc "openapi" kvs) as [op|] eqn:E1.
    + cbn [raised and_then of_option].
      destruct (truthy op) eqn:T1; [|discriminate].
      destruct (truthy (of_option (assoc "info" kvs))) eqn:T2;
        [|discriminate].
      destruct (truthy (of_option (assoc "paths" kvs))) eqn:T3;
        [|discriminate].
      cbn [negb orb].
      destruct op; try discriminate.
      cbn [split_dots raised and_then].
      destruct (first_is_not (split "." s) "3") eqn:Ef; [discriminate|].
      intros _. destruct (major_three _ Ef) as [r ->].
      split; [eauto|]. split; [eauto|]. left. split; [reflexivity|eauto].
    + destruct (assoc "swagger" kvs) as [sw|] eqn:E2; [|discriminate].
      cbn [raised and_then of_option].
      destruct (truthy sw) eqn:T1; [|discriminate].
      destruct (truthy (of_option (assoc "info" kvs))) eqn:T2;
        [|discriminate].
      destruct (truthy (of_option (assoc "paths" kvs))) eqn:T3;
        [|discriminate].
      cbn [negb orb].
      destruct sw; try discriminate. cbn [is_str].
      destruct (String.eqb_spec s "2.0"); [|discriminate]. subst s.
      intros _. split; [eauto|]. split; [eauto|]. right. auto.
Qed.

Lemma get_opt_total v k : exists x, get_opt v k = Ok x.
Proof.
  destruct v; simpl; eauto; destruct (k =? "length"); eauto.
Qed.

Lemma getBaseUrl_total spec isV3 :
  nullish spec = false -> exists u, getBaseUrl spec isV3 = Ok u.
Proof.
  intros Hs. unfold getBaseUrl. destruct isV3.
  - destruct (get_total spec "servers" Hs) as [v Hv]. rewrite Hv.
    cbn [bind]. destruct (get_opt_total v "0") as [f Hf]. rewrite Hf.
    cbn [bind]. apply get_opt_total.
  - destruct (get_total spec "host" Hs) as [h Hh]. rewrite Hh. cbn [bind].
    destruct (truthy h); [|eauto].
    destruct (get_total spec "schemes" Hs) as [sc Hsc]. rewrite Hsc.
    cbn [bind]. destruct (get_opt_total sc "0") as [f Hf]. rewrite Hf.
    cbn [bind]. cbv zeta.
    destruct (get_total spec "basePath" Hs) as [bp Hbp]. rewrite Hbp.
    cbn [bind]. eauto.
Qed.
End ValidationFacts.


(* ===================================================================== *)
(** * The tools: limits, hints, order *)
(* ===================================================================== *)

Module HandlerFacts.
Import JsString Js Search ToolHandler HandlerSpec.

Lemma slice0_firstn {A} k (l : list A) :
  (0 <= k)%Z -> slice0 k l = firstn (Z.to_nat k) l.
Proof.
  intros Hk. unfold slice0. cbv zeta.
  replace (k <? 0)%Z with false by (symmetry; apply Z.ltb_ge; lia).
  destruct (Z.le_ge_cases k (Z.of_nat (length l))) as [H|H].
  - rewrite Z.min_l by assumption. reflexivity.
  - rewrite Z.min_r by lia. rewrite Nat2Z.id.
    rewrite firstn_all. symmetry. apply firstn_all2. lia.
Qed.

Lemma schema_cap_slice {A} m (l : list A) :
  slice0 (default (Dispatch.clamp 1 50 m) 10%Z) l = firstn (schema_cap m) l.
Proof.
  unfold schema_cap, Dispatch.clamp, default.
  destruct m as [n|]; [|apply slice0_firstn; lia].
  destruct (n =? 0)%Z eqn:E.
  - apply Z.eqb_eq in E. subst n. apply slice0_firstn. lia.
  - apply slice0_firstn. lia.
Qed.

Lemma analyze_cap_slice {A} m (l : list A) :
  slice0 (Z.min (number_or (Dispatch.clamp 1 50 m) 10) 50) l =
  firstn (analyze_cap m) l.
Proof.
  unfold analyze_cap, Dispatch.clamp, number_or.
  destruct m as [n|]; [|apply slice0_firstn; lia].
  destruct (n =? 0)%Z eqn:E.
  - rewrite E. apply slice0_firstn. lia.
  - replace (Z.min (Z.max 1 n) 50 =? 0)%Z with false
      by (symmetry; apply Z.eqb_neq; lia).
    rewrite slice0_firstn by lia. f_equal. lia.
Qed.

Lemma schema_cap_le m : schema_cap m <= 50.
Proof.
  unfold schema_cap. destruct m as [n|]; [|lia].
  destruct (n =? 0)%Z; lia.
Qed.

Lemma analyze_cap_bounds m : 1 <= analyze_cap m <= 50.
Proof.
  unfold analyze_cap. destruct m as [n|]; [|lia].
  destruct (n =? 0)%Z; lia.
Qed.

Lemma processed_keeps b1 b2 ep :
  path (processed b1 b2 ep) = path ep /\
  method (processed b1 b2 ep) = method ep /\
  operationId (processed b1 b2 ep) = operationId ep /\
  (b1 = false -> requestBody (processed b1 b2 ep) = None) /\
  (b2 = false -> responses (processed b1 b2 ep) = []) /\
  (b1 = true -> b2 = true -> processed b1 b2 ep = ep).
Proof.
  destruct b1, b2; cbn; repeat split; try discriminate; reflexivity.
Qed.
End HandlerFacts.

Module RequestFacts.
Import JsString Js Search ToolHandler.

Lemma nonempty_Some o s : nonempty o = Some s -> o = Some s /\ s <> "".
Proof.
  destruct o as [x|]; simpl; [|discriminate].
  destruct (String.eqb_spec x ""); [discriminate|].
  intros H; inversion H; subst. auto.
Qed.

Lemma nonempty_None o : nonempty o = None -> o = None \/ o = Some "".
Proof.
  destruct o as [x|]; simpl; [|auto].
  destruct (String.eqb_spec x ""); [subst; auto|discriminate].
Qed.
End RequestFacts.

Module HintFacts.
Import JsString Js OpenAPIFetcher ToolHandler HintSpec.

Lemma prefix_before sub : forall x h t,
  no_char h sub = true ->
  String.prefix sub (x ++ String h t) = String.prefix sub x.
Proof.
  induction sub as [|a s IH]; intros x h t Hn.
  - destruct x; reflexivity.
  - simpl in Hn. apply andb_prop in Hn. destruct Hn as [Ha Hs].
    apply negb_true_iff in Ha. apply Ascii.eqb_neq in Ha.
    destruct x as [|c x]; simpl.
    + destruct (ascii_dec a h); [contradiction|reflexivity].
    + destruct (ascii_dec a c); [apply IH; assumption|reflexivity].
Qed.

(** An occurrence of [sub] cannot straddle a character that [sub] does
    not hold. *)
Lemma includes_before sub u h t :
  no_char h sub = true -> sub <> "" ->
  includes (u ++ String h t) sub =
  includes u sub || includes (String h t) sub.
Proof.
  intros Hn Hs. induction u as [|c u IH].
  - simpl append. destruct sub; [congruence|reflexivity].
  - change (String c u ++ String h t)%string
      with (String c (u ++ String h t)).
    cbn [includes]. rewrite IH.
    change (String c (u ++ String h t))
      with (String c u ++ String h t)%string.
    rewrite prefix_before by assumption.
    rewrite orb_assoc. reflexivity.
Qed.

Lemma prefix_self a b : startsWith (a ++ b) a = true.
Proof.
  unfold startsWith. induction a as [|c a IH]; simpl;
    [destruct b; reflexivity|].
  destruct (ascii_dec c c); [assumption|congruence].
Qed.
End HintFacts.

Module OrderFacts.
Import JsString Js Search ToolHandler OrderSpec.

Section Sorting.
Context {A : Type} (cmp : A -> A -> Z).
Hypothesis Hcmp : consistent cmp.

Lemma inserting_perm a l : Permutation (insert cmp a l) (a :: l).
Proof.
  induction l as [|y r IH]; simpl; [apply Permutation_refl|].
  destruct (cmp a y >? 0)%Z.
  - eapply perm_trans; [apply perm_skip, IH|apply perm_swap].
  - apply Permutation_refl.
Qed.

Lemma sorting_perm l : Permutation (sort cmp l) l.
Proof.
  induction l as [|a r IH]; simpl; [constructor|].
  eapply perm_trans; [apply inserting_perm|apply perm_skip, IH].
Qed.

Lemma inserting_sorted a l :
  StronglySorted (before cmp) l ->
  StronglySorted (before cmp) (insert cmp a l).
Proof.
  destruct Hcmp as [Htrans Hanti].
  induction 1 as [|y r Hs IH Hall]; simpl.
  - repeat constructor.
  - destruct (cmp a y >? 0)%Z eqn:E.
    + constructor; [assumption|].
      eapply Permutation_Forall; [symmetry; apply inserting_perm|].
      constructor; [apply Hanti; lia|assumption].
    + constructor; [constructor; assumption|].
      assert (Hay : before cmp a y) by (unfold before; lia).
      constructor; [assumption|].
      eapply Forall_impl; [|exact Hall].
      intros z Hz. eapply Htrans; eassumption.
Qed.

Lemma sorting_sorted l : StronglySorted (before cmp) (sort cmp l).
Proof.
  induction l; simpl; [constructor|apply inserting_sorted; assumption].
Qed.

(** Removing elements commutes with the insertion into a sorted
    array. *)
Lemma filter_inserting (p : A -> bool) a l :
  StronglySorted (before cmp) l ->
  filter p (insert cmp a l) =
  if p a then insert cmp a (filter p l) else filter p l.
Proof.
  destruct Hcmp as [Htrans Hanti].
  induction 1 as [|y r Hs IH Hall].
  - simpl. destruct (p a); reflexivity.
  - cbn [insert]. destruct (cmp a y >? 0)%Z eqn:E.
    + cbn [filter]. rewrite IH.
      destruct (p a), (p y); cbn [insert]; rewrite ?E; reflexivity.
    + cbn [filter]. destruct (p a) eqn:Ea; [|reflexivity].
      assert (Hay : before cmp a y) by (unfold before; lia).
      assert (Hr : Forall (before cmp a) (filter p r)).
      { apply Forall_forall. intros z Hz. apply filter_In in Hz.
        eapply Htrans; [exact Hay|].
        rewrite Forall_forall in Hall. apply Hall. tauto. }
      destruct (p y).
      * cbn [insert]. rewrite E. reflexivity.
      * destruct (filter p r) as [|z t]; [reflexivity|].
        inversion Hr; subst. cbn [insert].
        replace (cmp a z >? 0)%Z with false; [reflexivity|].
        symmetry. unfold before in *. rewrite Z.gtb_ltb.
        apply Z.ltb_ge. assumption.
Qed.

Lemma filter_sorting (p : A -> bool) l :
  filter p (sort cmp l) = sort cmp (filter p l).
Proof.
  induction l as [|a r IH]; [reflexivity|].
  cbn [sort filter]. rewrite filter_inserting by apply sorting_sorted.
  rewrite IH. destruct (p a); reflexivity.
Qed.
End Sorting.

Lemma by_key_consistent {A} (key : A -> Z) :
  consistent (SortSpec.by_key key).
Proof.
  unfold consistent, before, SortSpec.by_key. split; intros; lia.
Qed.
End OrderFacts.

Module TagFacts.
Import JsString Js Search ToolHandler OrderSpec OrderFacts SearchSpec.

(** ** The order of strings *)

Lemma ascii_compare_refl c : Ascii.compare c c = Eq.
Proof. unfold Ascii.compare. apply N.compare_refl. Qed.

Lemma string_compare_refl s : String.compare s s = Eq.
Proof.
  induction s as [|c s IH]; simpl; [reflexivity|].
  rewrite ascii_compare_refl. exact IH.
Qed.

Lemma string_le_trans a : forall b c,
  String.compare a b <> Gt -> String.compare b c <> Gt ->
  String.compare a c <> Gt.
Proof.
  induction a as [|x a IH]; intros [|y b] [|z c] H1 H2; simpl in *;
    try congruence.
  unfold Ascii.compare in *.
  destruct (N.compare_spec (N_of_ascii x) (N_of_ascii y)) as [E1|E1|E1];
    destruct (N.compare_spec (N_of_ascii y) (N_of_ascii z)) as [E2|E2|E2];
    try congruence.
  - rewrite <- E2, E1, N.compare_refl. eapply IH; eassumption.
  - rewrite E1. apply N.compare_lt_iff in E2. rewrite E2. discriminate.
  - rewrite <- E2. apply N.compare_lt_iff in E1. rewrite E1. discriminate.
  - assert (E : (N_of_ascii x < N_of_ascii z)%N) by lia.
    apply N.compare_lt_iff in E. rewrite E. discriminate.
Qed.

Lemma string_gt_lt a b :
  String.compare a b = Gt -> String.compare b a = Lt.
Proof.
  intros H. rewrite String.compare_antisym, H. reflexivity.
Qed.

(** ** The default comparison of [sort] *)

Lemma sort_compare_cases x y :
  sort_compare x y =
  (if is_undef x then (if is_undef y then 0 else 1)
   else if is_undef y then (-1)
   else match String.compare (toStr x) (toStr y) with
        | Lt => (-1) | Gt => 1 | Eq => 0
        end)%Z.
Proof. destruct x, y; reflexivity. Qed.

Lemma sort_compare_consistent : consistent sort_compare.
Proof.
  unfold consistent, before. split.
  - intros a b c. rewrite !sort_compare_cases.
    destruct (is_undef a), (is_undef b), (is_undef c); try lia.
    pose proof (string_le_trans (toStr a) (toStr b) (toStr c)) as Ht.
    destruct (String.compare (toStr a) (toStr b));
      destruct (String.compare (toStr b) (toStr c));
      destruct (String.compare (toStr a) (toStr c));
      try lia; intros _ _; exfalso; apply Ht; congruence.
  - intros a b. rewrite !sort_compare_cases.
    destruct (is_undef a), (is_undef b); try lia.
    destruct (String.compare (toStr a) (toStr b)) eqn:E; try lia.
    rewrite (string_gt_lt _ _ E). lia.
Qed.

(** ** The set of tags *)

Lemma same_string t set :
  is_string t = true -> strings set ->
  existsb (same_value_zero t) set = true <-> In t set.
Proof.
  intros Ht Hs. rewrite existsb_exists. split.
  - intros [y [Hy He]]. destruct t; try discriminate.
    unfold strings in Hs. rewrite Forall_forall in Hs.
    specialize (Hs y Hy). destruct y; try discriminate.
    simpl in He. apply String.eqb_eq in He. subst. assumption.
  - intros Hin. exists t. split; [assumption|].
    destruct t; try discriminate. simpl. apply String.eqb_refl.
Qed.

Lemma set_add_spec set t :
  is_string t = true -> strings set -> NoDup set ->
  strings (set_add set t) /\ NoDup (set_add set t) /\
  forall x, In x (set_add set t) <-> In x set \/ x = t.
Proof.
  intros Ht Hs Hn. unfold set_add.
  destruct (existsb (same_value_zero t) set) eqn:E.
  - apply (same_string t set Ht Hs) in E.
    repeat split; try assumption; [tauto|].
    intros [H| ->]; assumption.
  - assert (Hnot : ~ In t set).
    { intros Hin. apply (same_string t set Ht Hs) in Hin. congruence. }
    split; [apply Forall_app; split; [assumption|repeat constructor;
                                                 assumption]|].
    split.
    + apply NoDup_app; [assumption|repeat constructor; intros []|].
      intros x Hx [<-|[]]. contradiction.
    + intros x. rewrite in_app_iff. simpl. intuition congruence.
Qed.

Lemma fold_set_add l : forall set,
  strings l -> strings set -> NoDup set ->
  strings (fold_left set_add l set) /\ NoDup (fold_left set_add l set) /\
  forall x, In x (fold_left set_add l set) <-> In x set \/ In x l.
Proof.
  induction l as [|t l IH]; intros set Hl Hs Hn; simpl.
  - repeat split; try assumption; tauto.
  - inversion Hl; subst.
    destruct (set_add_spec set t) as [Hs' [Hn' Hi]]; try assumption.
    destruct (IH (set_add set t)) as [Hs2 [Hn2 Hi2]]; try assumption.
    repeat split; try assumption.
    + intros Hx. apply Hi2 in Hx. rewrite Hi in Hx. intuition.
    + intros Hx. apply Hi2. rewrite Hi. intuition.
Qed.

Lemma typed_tags ep :
  well_typed ep = true ->
  exists ts, tags ep = JArr ts /\ strings ts.
Proof.
  unfold well_typed. intros H. apply andb_prop in H. destruct H as [_ H].
  destruct (tags ep) as [| | | | |ts|]; try discriminate.
  exists ts. split; [reflexivity|].
  apply Forall_forall. apply forallb_forall. assumption.
Qed.

Lemma all_tags_strings eps :
  (forall ep, In ep eps -> well_typed ep = true) -> strings (all_tags eps).
Proof.
  induction eps as [|ep eps IH]; intros H; [constructor|].
  unfold all_tags. simpl. apply Forall_app. split.
  - destruct (typed_tags ep (H ep (or_introl eq_refl))) as [ts [-> Hs]].
    assumption.
  - apply IH. intros; apply H; right; assumption.
Qed.

Lemma collect_typed eps : forall set,
  (forall ep, In ep eps -> well_typed ep = true) ->
  collect set eps = Ok (fold_left set_add (all_tags eps) set).
Proof.
  induction eps as [|ep eps IH]; intros set H; [reflexivity|].
  destruct (typed_tags ep (H ep (or_introl eq_refl))) as [ts [E Hs]].
  cbn [collect]. rewrite E. cbn [as_array bind].
  rewrite IH by (intros; apply H; right; assumption).
  unfold all_tags. cbn [flat_map]. rewrite E, fold_left_app. reflexivity.
Qed.

Lemma strings_texts l : strings l -> map JStr (map text_of l) = l.
Proof.
  induction 1 as [|v l Hv _ IH]; [reflexivity|].
  simpl. rewrite IH. destruct v; try discriminate. reflexivity.
Qed.

Lemma sorted_texts l :
  strings l -> NoDup l -> StronglySorted (before sort_compare) l ->
  ascending (map text_of l).
Proof.
  intros Hs Hn Hsorted. induction Hsorted as [|v l Hl IH Hall].
  - constructor.
  - inversion Hs; subst. inversion Hn; subst.
    constructor; [apply IH; assumption|].
    apply Forall_map. apply Forall_forall. intros w Hw.
    rewrite Forall_forall in Hall. specialize (Hall w Hw).
    unfold strings in H2. rewrite Forall_forall in H2.
    specialize (H2 w Hw).
    destruct v; try discriminate. destruct w; try discriminate.
    unfold before in Hall. cbn in Hall. cbn [text_of].
    destruct (String.compare s s0) eqn:E; try reflexivity; [|lia].
    apply String.compare_eq_iff in E. subst. contradiction.
Qed.
End TagFacts.


(* ===================================================================== *)
(** * The unit tests of the repository, on the embedding *)
(* ===================================================================== *)

Module UnitTests.
Import JsString Js OpenAPIParser ParserExamples TestDocuments.
Import SpecCache CacheSpec.

(** [parser.test.ts]: should parse OpenAPI 3.0 spec *)
Example parses_openapi3 :
  option_map
    (fun s => (title s, version s, totalEndpoints s, length (endpoints s),
               map (fun e => (path e, method e, operationId e, tags e,
                              map param_name (pathParameters e),
                              map param_required (pathParameters e),
                              option_map body_required (requestBody e)))
                 (endpoints s)))
    (value (parse iso_epoch users_fetch)) =
  Some (JStr "Test API", JStr "1.0.0", 3, 3,
        [ ("/users", "get", JStr "getUsers", JArr [JStr "users"],
           [], [], None);
          ("/users", "post", JStr "createUser", JArr [JStr "users"],
           [], [], Some (JBool true));
          ("/users/{id}", "get", JStr "getUserById", JArr [JStr "users"],
           [JStr "id"], [JBool true], None) ]).
Proof. vm_compute. reflexivity. Qed.

(** [parser.test.ts]: should parse Swagger 2.0 spec *)
Example parses_swagger2 :
  option_map (fun s => (title s, version s, baseUrl s, totalEndpoints s))
    (value (parse iso_epoch (fetched pets_document "Swagger 2.0"))) =
  Some (JStr "Swagger Test API", JStr "2.0.0",
        JStr "https://api.example.com/v1", 1).
Proof. vm_compute. reflexivity. Qed.

(** [parser.test.ts]: should handle endpoints with security
    requirements *)
Example parses_security :
  option_map
    (fun s => (map (fun e => map sec_type (security e)) (endpoints s),
               map fst (securitySchemes s)))
    (value (parse iso_epoch (fetched secure_document "OpenAPI 3.0.3"))) =
  Some ([["bearer"]], ["bearerAuth"]).
Proof. vm_compute. reflexivity. Qed.

(** [cache.test.ts]: empty cache, store and retrieve, clear *)
Example cache_empty : get 0 (create 600000 false) = None.
Proof. reflexivity. Qed.

Example cache_store_retrieve :
  get 5 (set 0 (titled "Test API") (create 600000 false)) =
  Some (titled "Test API").
Proof. reflexivity. Qed.

Example cache_clear :
  get 5 (clear (set 0 (titled "Test API") (create 600000 false))) = None.
Proof. reflexivity. Qed.

(** [cache.test.ts]: should handle expired cache (a time to live of 60
    milliseconds, read after 100) *)
Example cache_expired :
  isExpired 100 (set 0 (titled "Test API") (create 60 false)) = true.
Proof. reflexivity. Qed.

(** [cache.test.ts]: should call refresh callback when refreshing *)
Example cache_refresh_calls_producer :
  option_map
    (fun w => (invocations w, outcome_of w 0, get (now w) (obj w)))
    (run [Call; Settle 0 (inl (titled "Test API"))]
       (mkWorld (create 600000 true) 0 [] 0 [])) =
  Some (1, Some (Resolved (titled "Test API")), Some (titled "Test API")).
Proof. reflexivity. Qed.

(** [cache.test.ts]: should use cached value in getOrRefresh when valid *)
Example cache_getOrRefresh :
  match getOrRefresh (mkWorld (create 600000 true) 0 [] 0 []) with
  | inl _ => None
  | inr w1 =>
      match step (Settle 0 (inl (titled "Test API"))) w1 with
      | Some w2 =>
          match getOrRefresh w2 with
          | inl cached => Some (invocations w2, cached)
          | inr _ => None
          end
      | None => None
      end
  end = Some (1, titled "Test API").
Proof. reflexivity. Qed.

(** The scoring example of the specification: the exact operationId
    scores 105; the other endpoint, whose operationId does not contain
    the query, scores 0 and is left out. *)
Example scores_exact_operationId :
  let users := SearchExamples.sample_endpoint "/users" "get"
                 (JStr "getUsers") ["users"] in
  value (Search.searchEndpoints SearchExamples.sample_spec "getUsers"
           (Search.mkFilters None None)) = Some [users] /\
  value (Search.score_endpoint "getusers" ["getusers"] users) =
  Some (users, 105%Z).
Proof. split; reflexivity. Qed.

End UnitTests.

(* ===================================================================== *)
(** * Fetch: HTML detection and the kinds of failure *)
(* ===================================================================== *)

Module FetchProperties.
Import JsString Js OpenAPIFetcher FetchSpec.

Lemma includes_app_r a b sub :
  includes b sub = true -> includes (a ++ b) sub = true.
Proof.
  intros H. induction a as [|c r IH]; [exact H|].
  simpl. rewrite IH. apply orb_true_r.
Qed.

Lemma prefix_app_l sub a b :
  String.prefix sub a = true -> String.prefix sub (a ++ b) = true.
Proof.
  revert a. induction sub as [|c r IH]; intros a H;
    [destruct (a ++ b)%string; reflexivity|].
  destruct a as [|d a']; [discriminate|]. simpl in *.
  destruct (ascii_dec c d); [apply IH; assumption|discriminate].
Qed.

Lemma includes_app_l a b sub :
  includes a sub = true -> includes (a ++ b) sub = true.
Proof.
  induction a as [|c r IH]; intros H.
  - destruct sub; [destruct b; reflexivity|discriminate].
  - simpl in H. apply orb_prop in H. destruct H as [H|H].
    + pose proof (prefix_app_l _ (String c r) b H) as Hp.
      change (String c r ++ b)%string with (String c (r ++ b)) in *.
      cbn [includes]. rewrite Hp. reflexivity.
    + simpl. rewrite (IH H). apply orb_true_r.
Qed.

Ltac find_text :=
  repeat first [ apply includes_app_l; reflexivity | apply includes_app_r ].

(** C7, as the specification states it, fails: a response declared as
    [application/xhtml+xml], whose content type contains "html", with a
    JSON body, is classified as HTML by the specification and is parsed
    directly by [fetch]. *)
Lemma html_in_content_type_not_scraped :
  classified_html "{}" "application/xhtml+xml" = true /\
  isHtmlResponse "{}" "application/xhtml+xml" = false /\
  fetch_route (Some "application/xhtml+xml") "{}" =
  Direct "{}" "application/xhtml+xml".
Proof. repeat split. Qed.

(** C7, amended.  [fetch] hands a response to the Swagger-UI scraping
    exactly when the declared content type contains "text/html", or the
    trimmed, lowercased body starts with "<!doctype html" or "<html", or
    contains both "<head" and "<body"; every other response is parsed
    directly as JSON or YAML. *)
Theorem fetch_scrapes_iff_html (contentTypeHeader : option string)
  (data : string) :
  let contentType := header_or_empty contentTypeHeader in
  let trimmed := toLowerCase (trim data) in
  (isHtmlResponse data contentType = true <->
     includes contentType "text/html" = true \/
     startsWith trimmed "<!doctype html" = true \/
     startsWith trimmed "<html" = true \/
     (includes trimmed "<head" = true /\ includes trimmed "<body" = true)) /\
  (fetch_route contentTypeHeader data = Scrape data <->
     isHtmlResponse data contentType = true) /\
  (fetch_route contentTypeHeader data = Direct data contentType <->
     isHtmlResponse data contentType = false) /\
  forall url (R : Type) scrape parseDirect,
    @fetch url R scrape parseDirect (Response contentTypeHeader data) =
    rethrow url
      (if isHtmlResponse data contentType then scrape data
       else parseDirect data contentType).
Proof.
  cbv zeta. repeat split.
  - unfold isHtmlResponse. cbv zeta. intros H.
    repeat (apply orb_prop in H; destruct H as [H|H]); auto.
    apply andb_prop in H. auto.
  - unfold isHtmlResponse. cbv zeta.
    intros [H|[H|[H|[H1 H2]]]]; rewrite ?H, ?H1, ?H2;
      rewrite ?orb_true_r; reflexivity.
  - unfold fetch_route.
    destruct (isHtmlResponse data (header_or_empty contentTypeHeader));
      [reflexivity|discriminate].
  - unfold fetch_route. intros ->. reflexivity.
  - unfold fetch_route.
    destruct (isHtmlResponse data (header_or_empty contentTypeHeader));
      [discriminate|reflexivity].
  - unfold fetch_route. intros ->. reflexivity.
  - intros. unfold fetch, fetch_route.
    destruct (isHtmlResponse data (header_or_empty contentTypeHeader));
      reflexivity.
Qed.

(** C8.  A request of [fetch] rejected with HTTP status 401 or 403 gives
    an error of code AUTH_ERROR, never NOT_FOUND, whose message names the
    authToken parameter and an auth token; a rejection with status 404
    gives an error of code NOT_FOUND with another message; the two codes
    differ. *)
Theorem auth_failure_is_not_not_found (url : string) (status : Z)
  (statusText statusText' ecode ecode' : option string)
  (msg msg' : string) :
  status = 401%Z \/ status = 403%Z ->
  let auth :=
    handleFetchError url (AxiosError (Some status) statusText ecode msg) in
  let missing :=
    handleFetchError url (AxiosError (Some 404%Z) statusText' ecode' msg') in
  code auth = "AUTH_ERROR" /\
  code auth <> "NOT_FOUND" /\
  includes (message auth) "authToken" = true /\
  includes (message auth) "auth token" = true /\
  code missing = "NOT_FOUND" /\
  includes (message missing) "not found" = true /\
  code auth <> code missing /\
  message auth <> message missing /\
  forall (R : Type) scrape parseDirect,
    @fetch url R scrape parseDirect
      (Rejection (AxiosError (Some status) statusText ecode msg)) = inr auth /\
    @fetch url R scrape parseDirect
      (Rejection (AxiosError (Some 404%Z) statusText' ecode' msg')) =
    inr missing.
Proof.
  intros Hst. cbv zeta.
  assert (Hauth : (status_is (Some status) 401 || status_is (Some status) 403)
                  = true).
  { destruct Hst as [-> | ->]; reflexivity. }
  unfold handleFetchError. rewrite Hauth.
  cbn [code message status_is Z.eqb Pos.eqb orb].
  repeat split; try discriminate.
  all: try find_text.
  unfold fetch, rethrow, handleFetchError. rewrite Hauth. reflexivity.
Qed.

Lemma auth_failure_is_not_not_found_witness :
  let auth :=
    handleFetchError "https://api.x.com/openapi.json"
      (AxiosError (Some 401%Z) (Some "Unauthorized") (Some "ERR_BAD_REQUEST")
         "Request failed with status code 401") in
  let missing :=
    handleFetchError "https://api.x.com/openapi.json"
      (AxiosError (Some 404%Z) (Some "Not Found") (Some "ERR_BAD_REQUEST")
         "Request failed with status code 404") in
  code auth = "AUTH_ERROR" /\
  code auth <> "NOT_FOUND" /\
  includes (message auth) "authToken" = true /\
  includes (message auth) "auth token" = true /\
  code missing = "NOT_FOUND" /\
  includes (message missing) "not found" = true /\
  code auth <> code missing /\
  message auth <> message missing /\
  forall (R : Type) scrape parseDirect,
    @fetch "https://api.x.com/openapi.json" R scrape parseDirect
      (Rejection (AxiosError (Some 401%Z) (Some "Unauthorized")
                    (Some "ERR_BAD_REQUEST")
                    "Request failed with status code 401")) = inr auth /\
    @fetch "https://api.x.com/openapi.json" R scrape parseDirect
      (Rejection (AxiosError (Some 404%Z) (Some "Not Found")
                    (Some "ERR_BAD_REQUEST")
                    "Request failed with status code 404")) = inr missing.
Proof.
  apply (auth_failure_is_not_not_found "https://api.x.com/openapi.json"
           401%Z (Some "Unauthorized") (Some "Not Found")
           (Some "ERR_BAD_REQUEST") (Some "ERR_BAD_REQUEST")
           "Request failed with status code 401"
           "Request failed with status code 404").
  left. reflexivity.
Defined.

End FetchProperties.

(* ===================================================================== *)
(** * Normalization: endpoint count and base URL *)
(* ===================================================================== *)

Module ParserProperties.
Import JsString Js OpenAPIParser BaseUrlSpec ParserExamples.

(** C2.  Every description that [parse] returns has [totalEndpoints]
    equal to the length of its [endpoints], which is the list that
    [parseEndpoints] built. *)
Theorem parse_totalEndpoints (toISOString : Z -> string)
  (fetchResult : FetchResult) (normalized : NormalizedApiSpec) :
  parse toISOString fetchResult = Ok normalized ->
  totalEndpoints normalized = length (endpoints normalized) /\
  exists isV3,
    has "openapi" (fr_spec fetchResult) = Ok isV3 /\
    parseEndpoints (fr_spec fetchResult) isV3 = Ok (endpoints normalized).
Proof.
  unfold parse. cbv zeta. intros H. binds_inv H.
  inversion H; subst; clear H. simpl. split; [reflexivity|].
  eexists; split; eassumption.
Qed.

Lemma parse_totalEndpoints_witness :
  exists normalized,
    parse iso_epoch users_fetch = Ok normalized /\
    totalEndpoints normalized = 3 /\
    totalEndpoints normalized = length (endpoints normalized) /\
    exists isV3,
      has "openapi" (fr_spec users_fetch) = Ok isV3 /\
      parseEndpoints (fr_spec users_fetch) isV3 = Ok (endpoints normalized).
Proof.
  eexists. split; [vm_compute; reflexivity|].
  split; [reflexivity|].
  apply (parse_totalEndpoints iso_epoch users_fetch).
  vm_compute. reflexivity.
Defined.

Lemma get_field (doc : list (string * json)) k :
  get (JObj doc) k = Ok (of_option (assoc k doc)).
Proof. reflexivity. Qed.

Lemma getBaseUrl_specified isV3 doc u :
  specified_baseUrl isV3 doc = Some u -> getBaseUrl (JObj doc) isV3 = Ok u.
Proof.
  unfold specified_baseUrl, getBaseUrl. destruct isV3.
  - unfold first_server_url. rewrite get_field.
    destruct (assoc "servers" doc) as [[| | | | |[|[| | | | | |server] rest]|]|];
      simpl; intros H; inversion H; reflexivity.
  - unfold declared_host, declared_scheme, declared_basePath.
    rewrite !get_field.
    destruct (assoc "host" doc) as [[| | | |h| |]|]; try discriminate.
    destruct (String.eqb h "") eqn:Eh; [discriminate|].
    simpl. rewrite Eh. simpl.
    destruct (assoc "schemes" doc) as [[| | | | |[|[| | | |s| |] rest]|]|];
      try discriminate.
    + destruct (String.eqb s "") eqn:Es; [discriminate|].
      simpl. unfold or_else. simpl. rewrite Es. simpl.
      destruct (assoc "basePath" doc) as [[| | | |b| |]|]; try discriminate;
        simpl; intros H; inversion H; [|reflexivity].
      destruct (String.eqb b "") eqn:Eb; simpl; [|reflexivity].
      apply String.eqb_eq in Eb. subst. reflexivity.
    + simpl.
      destruct (assoc "basePath" doc) as [[| | | |b| |]|]; try discriminate;
        simpl; intros H; inversion H; [|reflexivity].
      unfold or_else. simpl.
      destruct (String.eqb b "") eqn:Eb; simpl; [|reflexivity].
      apply String.eqb_eq in Eb. subst. reflexivity.
Qed.

(** C6.  For a document typed as the OpenAPI schemas declare,
    [getBaseUrl], and with it the [baseUrl] of the description that
    [parse] returns, is: for OpenAPI 3.x, the [url] of the first declared
    server, verbatim, and [undefined] when no server is declared; for
    Swagger 2.0 with a declared host, [scheme://host] followed by
    [basePath], where the scheme is the first entry of [schemes], "https"
    when [schemes] is absent, and [basePath] is empty when absent. *)
Theorem getBaseUrl_as_specified (isV3 : bool) (doc : list (string * json))
  (u : json) :
  specified_baseUrl isV3 doc = Some u ->
  getBaseUrl (JObj doc) isV3 = Ok u /\
  forall toISOString fetchResult normalized,
    fr_spec fetchResult = JObj doc ->
    has "openapi" (JObj doc) = Ok isV3 ->
    parse toISOString fetchResult = Ok normalized ->
    baseUrl normalized = u.
Proof.
  intros Hs. pose proof (getBaseUrl_specified isV3 doc u Hs) as Hg.
  split; [exact Hg|].
  intros toISO fr r Hdoc Hv3. unfold parse. cbv zeta. rewrite Hdoc.
  intros H. bind_inv H. rewrite Hv3 in Hv. inversion Hv; subst v.
  binds_inv H. inversion H; subst; clear H. simpl.
  match goal with
  | Hb : getBaseUrl _ _ = Ok _ |- _ => rewrite Hg in Hb; inversion Hb
  end.
  reflexivity.
Qed.

Lemma getBaseUrl_as_specified_witness :
  specified_baseUrl false
    [ ("swagger", JStr "2.0");
      ("info", JObj [("title", JStr "T"); ("version", JStr "1")]);
      ("host", JStr "api.x.com");
      ("basePath", JStr "/v1");
      ("schemes", JArr [JStr "https"]);
      ("paths", JObj []) ] = Some (JStr "https://api.x.com/v1") /\
  getBaseUrl swagger_example false = Ok (JStr "https://api.x.com/v1") /\
  exists normalized,
    parse iso_epoch swagger_fetch = Ok normalized /\
    baseUrl normalized = JStr "https://api.x.com/v1".
Proof.
  split; [reflexivity|].
  destruct (getBaseUrl_as_specified false
              [ ("swagger", JStr "2.0");
                ("info", JObj [("title", JStr "T"); ("version", JStr "1")]);
                ("host", JStr "api.x.com");
                ("basePath", JStr "/v1");
                ("schemes", JArr [JStr "https"]);
                ("paths", JObj []) ]
              (JStr "https://api.x.com/v1") eq_refl) as [Hg Hp].
  split; [exact Hg|].
  eexists. split; [vm_compute; reflexivity|].
  apply (Hp iso_epoch swagger_fetch); reflexivity.
Defined.

End ParserProperties.

(* ===================================================================== *)
(** * Normalization: the parameters of an endpoint *)
(* ===================================================================== *)

Module MergeProperties.
Import JsString Js OpenAPIParser MergeSpec MergeModel LocationSpec MergeFacts ParserExamples.

Lemma level_iterate holder ps :
  level holder = Some ps ->
  forallb typed ps = true /\
  exists raw, get holder "parameters" = Ok raw /\
              iterate (or_else raw (JArr [])) = Ok ps.
Proof.
  unfold level.
  destruct (get holder "parameters") as [[| | | | |xs|]|]; try discriminate.
  - intros H. inversion H. split; [reflexivity|].
    exists JUndef. split; reflexivity.
  - destruct (forallb typed xs) eqn:E; [|discriminate].
    intros H. inversion H; subst. split; [assumption|].
    exists (JArr ps). split; reflexivity.
Qed.

Lemma merged_overlay k ps os :
  forallb typed (ps ++ os) = true ->
  filter (has_pair k) (map snd (fold_left step (ps ++ os) [])) =
  to_list (overlay k ps os).
Proof.
  intros Ht. rewrite <- entry_app. apply merged_by_pair.
  - assumption.
  - apply invariant_fold; [assumption|apply incl_refl|].
    split; [constructor|intros ? []|intros ? []].
  - reflexivity.
Qed.

Lemma merged_members ps p :
  forallb typed ps = true ->
  In p (map snd (fold_left step ps [])) ->
  is_ref p = false /\ In p ps.
Proof.
  intros Ht Hin. apply in_map_iff in Hin. destruct Hin as [kv [<- Hkv]].
  assert (Hinv : invariant ps (fold_left step ps [])).
  { apply invariant_fold; [assumption|apply incl_refl|].
    split; [constructor|intros ? []|intros ? []]. }
  destruct Hinv as [_ Hs Ho]. split; [|apply Ho; assumption].
  destruct (Hs kv Hkv) as [_ [l [n [Hp _]]]].
  unfold is_ref. unfold pair_of in Hp.
  destruct (snd kv); try discriminate.
  destruct (assoc "$ref" kvs); [discriminate|reflexivity].
Qed.

Lemma filterParameters_located spec isV3 ps location :
  (forall p, In p ps -> typed p = true /\ is_ref p = false) ->
  filterParameters spec isV3 ps location =
  mapM (normalizeParameter spec isV3) (filter (located location) ps).
Proof.
  intros H. unfold filterParameters.
  rewrite (filterM_Ok _ (located location)); [reflexivity|].
  intros p Hp. destruct (H p Hp) as [Ht Hi].
  destruct (typed_cases p Ht) as [[Hi' _]|[_ [_ [l [n [Hpair [_ [Hl _]]]]]]]];
    [congruence|].
  rewrite Hl. unfold located. rewrite Hpair. reflexivity.
Qed.

Lemma forallb_app {A} (f : A -> bool) l1 l2 :
  forallb f l1 = true -> forallb f l2 = true -> forallb f (l1 ++ l2) = true.
Proof.
  intros H1 H2. rewrite forallb_forall in *. intros x Hx.
  apply in_app_or in Hx. destruct Hx; auto.
Qed.

(** C9.  Let the [parameters] arrays of a path item and of an operation
    be typed as the OpenAPI schemas declare.  In the endpoint that
    [parseOperation] returns, the four parameter lists are the
    normalized parameters, by location, of one merged list that holds,
    for every pair (location, name), exactly the entry of the overlay:
    the operation-level parameter when the operation declares the pair,
    else the path-item-level one.  So the operation wins a collision,
    the parameters of pairs declared at one level only are all kept, and
    no entry that is a [$ref] remains. *)
Theorem parameters_overlay spec isV3 path method operation pathItem
  pathParams opParams endpoint :
  level pathItem = Some pathParams ->
  level operation = Some opParams ->
  parseOperation spec isV3 path method operation pathItem = Ok endpoint ->
  exists merged,
    (forall k, filter (has_pair k) merged =
               to_list (overlay k pathParams opParams)) /\
    (forall p, In p merged ->
               is_ref p = false /\ In p (pathParams ++ opParams)) /\
    mapM (normalizeParameter spec isV3) (filter (located "path") merged) =
      Ok (pathParameters endpoint) /\
    mapM (normalizeParameter spec isV3) (filter (located "query") merged) =
      Ok (queryParameters endpoint) /\
    mapM (normalizeParameter spec isV3) (filter (located "header") merged) =
      Ok (headerParameters endpoint) /\
    mapM (normalizeParameter spec isV3) (filter (located "cookie") merged) =
      Ok (cookieParameters endpoint).
Proof.
  intros Hp Ho H.
  destruct (level_iterate _ _ Hp) as [Htp [rawp [Hgp Hip]]].
  destruct (level_iterate _ _ Ho) as [Hto [rawo [Hgo Hio]]].
  pose proof (forallb_app _ _ _ Htp Hto) as Ht.
  unfold parseOperation in H. rewrite Hgp in H. cbn [bind] in H.
  rewrite Hip in H. cbn [bind] in H. rewrite Hgo in H. cbn [bind] in H.
  rewrite Hio in H. cbn [bind] in H.
  rewrite (dedupe_typed _ _ Ht) in H. cbn [bind] in H.
  set (merged := map snd (fold_left step (pathParams ++ opParams) [])) in *.
  assert (Hm : forall p, In p merged -> typed p = true /\ is_ref p = false).
  { intros p Hin. destruct (merged_members _ _ Ht Hin) as [Hi Hs].
    split; [|assumption]. rewrite forallb_forall in Ht. auto. }
  rewrite !(filterParameters_located spec isV3 merged) in H by exact Hm.
  binds_inv H. inversion H; subst; clear H. simpl.
  exists merged. split; [intros k; apply merged_overlay; assumption|].
  split; [intros p Hin; apply merged_members; assumption|].
  repeat split; assumption.
Qed.

Lemma parameters_overlay_witness :
  exists endpoint merged,
    parseOperation (JObj []) false "/users/{id}" "get" operation_example
      item_example = Ok endpoint /\
    map param_required (pathParameters endpoint) = [JBool true] /\
    (forall k,
       filter (has_pair k) merged =
       to_list (overlay k
                  [param "path" "id" false; param "query" "limit" false]
                  [param "path" "id" true;
                   JObj [("$ref", JStr "#/parameters/page")];
                   param "header" "X-Trace" false])) /\
    mapM (normalizeParameter (JObj []) false)
      (filter (located "path") merged) = Ok (pathParameters endpoint).
Proof.
  destruct (parseOperation (JObj []) false "/users/{id}" "get"
              operation_example item_example) as [endpoint|] eqn:E;
    [|vm_compute in E; discriminate].
  destruct (parameters_overlay (JObj []) false "/users/{id}" "get"
              operation_example item_example
              [param "path" "id" false; param "query" "limit" false]
              [param "path" "id" true;
               JObj [("$ref", JStr "#/parameters/page")];
               param "header" "X-Trace" false]
              endpoint eq_refl eq_refl E)
    as [merged [Hk [_ [Hpath _]]]].
  exists endpoint, merged. split; [reflexivity|].
  split; [vm_compute in E; inversion E; reflexivity|].
  split; assumption.
Defined.

End MergeProperties.

(* ===================================================================== *)
(** * Normalization: the depth cap of schemas *)
(* ===================================================================== *)

Module DepthProperties.
Import JsString Js OpenAPIParser DepthSpec DepthFacts.

(** C5.  [normalizeSchema] is defined for every document, schema and
    depth, by recursion on [11 - depth]: a call returns a schema or
    raises, it never diverges, whatever cycles the local references of
    the document form.  Beyond depth 10 the result is the stub
    [{ type: 'object' }], not an error; a result computed at [depth]
    nests at most [11 - depth] levels of sub-schemas.  A schema that
    refers to itself normalizes to the stub carrying the reference, and a
    node that refers to itself through a property to a finite chain. *)
Theorem normalizeSchema_depth_capped (spec : json) (isV3 : bool)
  (schema : json) (depth : nat) :
  ((exists r, normalizeSchema spec isV3 schema depth = Ok r) \/
   normalizeSchema spec isV3 schema depth = Throw TypeError) /\
  (10 < depth -> normalizeSchema spec isV3 schema depth = Ok stub) /\
  (forall r, normalizeSchema spec isV3 schema depth = Ok r ->
             height r <= 11 - depth) /\
  normalizeSchema cyclic_document isV3 loop_ref 0 =
    Ok (with_ref stub "#/definitions/Loop") /\
  exists chain,
    normalizeSchema cyclic_document isV3 node_ref 0 = Ok chain /\
    height chain = 5.
Proof.
  split.
  { destruct (normalizeSchema spec isV3 schema depth) as [r|[]];
      [left; exists r; reflexivity|right; reflexivity]. }
  split; [apply normalizeSchema_beyond_cap|].
  split; [intros r; apply (normalizeSchema_height spec isV3 (11 - depth));
          apply le_n|].
  split; [destruct isV3; vm_compute; reflexivity|].
  destruct isV3; eexists; split; vm_compute; reflexivity.
Qed.

Lemma normalizeSchema_depth_capped_witness :
  normalizeSchema cyclic_document false node_ref 11 = Ok stub /\
  exists r,
    normalizeSchema cyclic_document false node_ref 9 = Ok r /\
    height r <= 11 - 9.
Proof.
  destruct (normalizeSchema_depth_capped cyclic_document false node_ref 11)
    as [_ [Hcap _]].
  destruct (normalizeSchema_depth_capped cyclic_document false node_ref 9)
    as [_ [_ [Hh _]]].
  split; [apply Hcap; lia|].
  eexists. split; [vm_compute; reflexivity|].
  apply Hh. vm_compute. reflexivity.
Defined.

End DepthProperties.

(* ===================================================================== *)
(** * Search: ranking and the blank query *)
(* ===================================================================== *)

Module SearchProperties.
Import JsString Js Search SortSpec SearchSpec SortFacts SearchFacts SearchExamples.

Lemma forallb_typed eps :
  forallb well_typed eps = true ->
  forall ep, In ep eps -> well_typed ep = true.
Proof. intros H; apply forallb_forall; exact H. Qed.

(** C3.  On a description whose endpoints are typed as [types.ts]
    declares, [searchEndpoints] first applies the method filter (exact,
    case-insensitive) and the tag filter (substring, case-insensitive);
    the callback of [map] gives each remaining endpoint the additive
    score of the specification ([SearchSpec.score]: 100 for an exact
    operationId, else 50 for a substring; 40, 30, 20, 15 for path,
    summary, description, tags; 5, 5, 3, 2 per term); the result holds
    exactly the endpoints of positive score, by descending score, and the
    endpoints of equal score keep the order of the description. *)
Theorem searchEndpoints_ranking spec query filters :
  forallb well_typed (endpoints spec) = true ->
  (forall ep, In ep (filter (passes filters) (endpoints spec)) ->
     score_endpoint (normalized query) (terms query) ep =
     Ok (ep, score query ep)) /\
  exists found,
    searchEndpoints spec query filters = Ok found /\
    Permutation found (candidates spec query filters) /\
    ranked query found /\
    forall s, tied query s found = tied query s (candidates spec query filters).
Proof.
  intros H. pose proof (forallb_typed _ H) as Ht. split.
  - intros ep Hin. apply score_endpoint_typed, Ht.
    apply filter_In in Hin. tauto.
  - exists (sort (by_key (score query)) (candidates spec query filters)).
    split; [apply searchEndpoints_typed; assumption|].
    split; [apply sort_perm|].
    split; [apply (sort_sorted (score query))|].
    intros s. apply (sort_stable (score query)).
Qed.

Lemma searchEndpoints_ranking_witness :
  (forall ep,
     In ep (filter (passes no_filters) (endpoints sample_spec)) ->
     score_endpoint (normalized "getUsers") (terms "getUsers") ep =
     Ok (ep, score "getUsers" ep)) /\
  exists found,
    searchEndpoints sample_spec "getUsers" no_filters = Ok found /\
    Permutation found (candidates sample_spec "getUsers" no_filters) /\
    ranked "getUsers" found /\
    forall s, tied "getUsers" s found =
              tied "getUsers" s (candidates sample_spec "getUsers" no_filters).
Proof.
  apply (searchEndpoints_ranking sample_spec "getUsers" no_filters).
  reflexivity.
Defined.

(** C10.  For a query that is empty or white space only, the trimmed
    query is the empty string, every endpoint that passes the filters is
    scored at least 40 by the callback of [map], and [searchEndpoints]
    returns all of them. *)
Theorem searchEndpoints_blank_query spec query filters :
  forallb well_typed (endpoints spec) = true ->
  blank query = true ->
  trim (toLowerCase query) = "" /\
  (forall ep, In ep (filter (passes filters) (endpoints spec)) ->
     exists sc,
       score_endpoint (trim (toLowerCase query))
         (filter (fun t => (0 <? String.length t)%nat)
            (split_ws (trim (toLowerCase query)))) ep = Ok (ep, sc) /\
       (40 <= sc)%Z) /\
  exists found,
    searchEndpoints spec query filters = Ok found /\
    Permutation found (filter (passes filters) (endpoints spec)).
Proof.
  intros H Hb. pose proof (forallb_typed _ H) as Ht.
  split; [apply (blank_normalized query Hb)|]. split.
  - intros ep Hin. exists (score query ep). split.
    + fold (normalized query). rewrite terms_filter.
      apply score_endpoint_typed, Ht. apply filter_In in Hin. tauto.
    + apply blank_score; assumption.
  - exists (sort (by_key (score query)) (candidates spec query filters)).
    split; [apply searchEndpoints_typed; assumption|].
    eapply perm_trans; [apply sort_perm|].
    unfold candidates. rewrite forallb_filter_id; [apply Permutation_refl|].
    apply forallb_forall. intros ep _.
    pose proof (blank_score query ep Hb). apply Z.gtb_lt. lia.
Qed.

Lemma searchEndpoints_blank_query_witness :
  trim (toLowerCase "   ") = "" /\
  (forall ep,
     In ep (filter (passes (mkFilters (Some "GET") None))
              (endpoints sample_spec)) ->
     exists sc,
       score_endpoint (trim (toLowerCase "   "))
         (filter (fun t => (0 <? String.length t)%nat)
            (split_ws (trim (toLowerCase "   ")))) ep = Ok (ep, sc) /\
       (40 <= sc)%Z) /\
  exists found,
    searchEndpoints sample_spec "   " (mkFilters (Some "GET") None) = Ok found /\
    Permutation found
      (filter (passes (mkFilters (Some "GET") None)) (endpoints sample_spec)).
Proof.
  apply (searchEndpoints_blank_query sample_spec "   "
           (mkFilters (Some "GET") None)); reflexivity.
Defined.

End SearchProperties.

(* ===================================================================== *)
(** * Cache: coalesced refresh and failed refresh *)
(* ===================================================================== *)

Module CacheProperties.
Import SpecCache CacheSpec CacheFacts.


Lemma get_after_set time ts spec c :
  get time (set ts spec c) =
  if (time >? ts + ttlMs c)%Z then None else Some spec.
Proof. reflexivity. Qed.

Lemma get_Some time c d :
  get time c = Some d ->
  exists e, cache c = Some e /\ data e = d /\ (time <= expiresAt e)%Z.
Proof.
  unfold get, isExpired. destruct (cache c) as [e|]; [|discriminate].
  destruct (time >? expiresAt e)%Z eqn:E; [discriminate|].
  intros H. inversion H. exists e. repeat split.
  rewrite Z.gtb_ltb in E. apply Z.ltb_ge in E. exact E.
Qed.



(** Why the amended C1 asks that no further call begins after the
    settlement.  Two calls overlap and the producer succeeds; before the
    waiting call polls, a third call starts a second refresh.  The
    waiting call finds the flag set at its poll, sleeps again, and
    resolves with the description of the second refresh: the producer
    has run twice, and the two calls of the group hold different
    descriptions. *)
Lemma later_call_changes_what_a_waiter_reads :
  exists w,
    run [Call; Call; Settle 0 (inl (titled "new")); Tick 50; Call; Tick 50;
         Wake 1; Settle 2 (inl (titled "newer")); Tick 100; Wake 1]
      (world_at 1000) = Some w /\
    invocations w = 2 /\
    outcome_of w 0 = Some (Resolved (titled "new")) /\
    outcome_of w 1 = Some (Resolved (titled "newer")) /\
    outcome_of w 2 = Some (Resolved (titled "newer")).
Proof. eexists. split; [reflexivity|]. repeat split. Qed.

(** C4, as the specification states it, fails.  The entry was cached at
    time 0 and expires at 600000.  The auto-refresh timer, of period
    600000, fires at 600000 and the producer fails half a second later:
    the entry is still in the slot and the failure is logged, but the
    entry has expired and [get()] returns nothing, although no refresh
    has succeeded since. *)
Lemma expired_entry_not_served_after_failed_refresh :
  exists w,
    run [Fire; Tick 500; Settle 0 (inr "upstream unavailable")]
      (world_at 600000) = Some w /\
    cache (obj w) = Some (mkEntry (titled "old") 0 600000) /\
    logged w = [Produced "upstream unavailable"] /\
    now w = 600500%Z /\
    get (now w) (obj w) = None.
Proof. eexists. split; [reflexivity|]. repeat split. Qed.

(** C4, amended.  When the producer of a call of [refresh()] fails, the
    slot is exactly as before (no entry replaced, created or cleared) and
    the in-flight flag is reset; the slot stays so through every later
    event other than the success of a producer.  [get()] therefore
    returns what it would have returned without the call: the previously
    cached description while unexpired, nothing once [now > expiresAt]
    or when the slot was empty.  When the call came from the auto-refresh
    timer the failure is logged and goes no further. *)
Theorem failed_refresh_keeps_slot (w : world) (i : nat) (reason : string)
  (w' : world) (later : list event) (w'' : world) :
  step (Settle i (inr reason)) w = Some w' ->
  forallb no_success later = true ->
  run later w' = Some w'' ->
  cache (obj w') = cache (obj w) /\
  isRefreshing (obj w') = false /\
  outcome_of w' i = Some (Rejected (Produced reason)) /\
  (nth_error (tasks w) i = Some (mkTask Timer AwaitProducer) ->
     logged w' = Produced reason :: logged w) /\
  (nth_error (tasks w) i = Some (mkTask Caller AwaitProducer) ->
     logged w' = logged w) /\
  cache (obj w'') = cache (obj w) /\
  (forall time, get time (obj w'') = get time (obj w)) /\
  (forall e time,
     cache (obj w) = Some e ->
     get time (obj w'') =
     if (time >? expiresAt e)%Z then None else Some (data e)) /\
  (cache (obj w) = None -> forall time, get time (obj w'') = None).
Proof.
  intros Hstep Hlater Hrun.
  destruct (run_keeps_slot later w' w'' Hlater Hrun) as [Hc'' _].
  simpl in Hstep.
  destruct (nth_error (tasks w) i) as [[o [|due|]]|] eqn:En;
    try discriminate.
  inversion Hstep; subst w'; clear Hstep. simpl in *.
  assert (Hlen : i < length (tasks w)).
  { apply nth_error_Some. rewrite En. discriminate. }
  assert (Hout : outcome_of
                   (finish i o (Rejected (Produced reason))
                      (with_isRefreshing (obj w) false) w) i =
                 Some (Rejected (Produced reason))).
  { unfold outcome_of, finish. simpl. clear - Hlen.
    revert i Hlen. induction (tasks w) as [|a l IH]; intros i Hlen;
      simpl in *; [lia|].
    destruct i as [|j]; [reflexivity|]. simpl. apply IH. lia. }
  split; [reflexivity|]. split; [reflexivity|]. split; [exact Hout|].
  split; [intros H; inversion H; reflexivity|].
  split; [intros H; inversion H; reflexivity|].
  split; [exact Hc''|].
  split; [intros time; apply get_same_slot; exact Hc''|].
  split.
  - intros e time He. rewrite (get_same_slot time _ (obj w) Hc'').
    unfold get, isExpired. rewrite He. reflexivity.
  - intros He time. rewrite (get_same_slot time _ (obj w) Hc'').
    unfold get. rewrite He. reflexivity.
Qed.

Lemma failed_refresh_keeps_slot_witness :
  exists w' w'',
    step (Settle 0 (inr "upstream unavailable"))
      (refresh Timer (world_at 1000)) = Some w' /\
    run [Tick 100; Call; Tick 700000] w' = Some w'' /\
    cache (obj w') = cache filled /\
    logged w' = [Produced "upstream unavailable"] /\
    cache (obj w'') = Some (mkEntry (titled "old") 0 600000) /\
    get 600000 (obj w'') = Some (titled "old") /\
    get 600001 (obj w'') = None.
Proof.
  destruct (step (Settle 0 (inr "upstream unavailable"))
              (refresh Timer (world_at 1000))) as [w'|] eqn:E1;
    [|vm_compute in E1; discriminate].
  destruct (run [Tick 100; Call; Tick 700000] w') as [w''|] eqn:E2;
    [|vm_compute in E1; inversion E1; subst w'; vm_compute in E2;
      discriminate].
  destruct (failed_refresh_keeps_slot (refresh Timer (world_at 1000)) 0
              "upstream unavailable" w'
              [Tick 100; Call; Tick 700000] w'' E1 eq_refl E2)
    as [Hc [_ [_ [Ht [_ [Hc'' [_ [Hget _]]]]]]]].
  exists w', w''. split; [reflexivity|]. split; [exact E2|].
  split; [exact Hc|].
  split; [apply Ht; reflexivity|].
  split; [exact Hc''|].
  split; apply (Hget (mkEntry (titled "old") 0 600000)); reflexivity.
Defined.

End CacheProperties.

(* ===================================================================== *)
(** * Fetcher: embedded documents, validation, nested failures *)
(* ===================================================================== *)

Module TextProperties.
Import JsString Js OpenAPIFetcher FetcherHelpers TextSpec TextFacts.

(** X13.  What [extractJsonObject] returns is a prefix of its argument
    that starts with an opening and ends with a closing brace; it is the
    shortest prefix at which the scan stops, and extracting from it
    again returns it unchanged. *)
Theorem extractJsonObject_sound str o :
  extractJsonObject str = Some o ->
  (exists rest, str = (o ++ rest)%string) /\
  (exists body, o = ("{" ++ body ++ "}")%string) /\
  extractJsonObject o = Some o /\
  (forall p s, o = (p ++ s)%string -> s <> "" -> extractJsonObject p = None).
Proof.
  intros H.
  destruct (startsWith str "{") eqn:Es;
    [|unfold extractJsonObject in H; rewrite Es in H; discriminate].
  destruct (starts_with_brace _ Es) as [r ->].
  rewrite extractJsonObject_cut in H.
  destruct (cut 1 false false r) as [a|] eqn:Ec; [|discriminate].
  inversion H; subst o; clear H.
  split; [destruct (cut_prefix _ _ _ _ _ Ec) as [b ->]; exists b;
          reflexivity|].
  split; [destruct (cut_closes r 1%Z false false a ltac:(lia) Ec) as [a0 ->];
          exists a0; reflexivity|].
  split; [rewrite extractJsonObject_cut, (cut_again _ _ _ _ _ Ec);
          reflexivity|].
  intros p s Hp Hs. destruct p as [|c p]; [reflexivity|].
  simpl in Hp. inversion Hp; subst.
  rewrite extractJsonObject_cut.
  rewrite (cut_shortest _ _ _ _ _ p s Ec eq_refl Hs). reflexivity.
Qed.

Lemma extractJsonObject_sound_witness :
  exists o,
    extractJsonObject script_tail = Some o /\
    (exists rest, script_tail = (o ++ rest)%string) /\
    (exists body, o = ("{" ++ body ++ "}")%string) /\
    extractJsonObject o = Some o /\
    (forall p s, o = (p ++ s)%string -> s <> "" ->
                 extractJsonObject p = None).
Proof.
  destruct (extractJsonObject script_tail) as [o|] eqn:E;
    [|vm_compute in E; discriminate].
  exists o. split; [reflexivity|].
  apply (extractJsonObject_sound script_tail o E).
Defined.

(** X14.  On text that begins with an object whose braces are matched
    outside string literals (escapes inside literals included),
    [extractJsonObject] returns exactly that object, whatever follows
    it. *)
Theorem extractJsonObject_complete b rest :
  balanced b ->
  extractJsonObject ("{" ++ b ++ "}" ++ rest) = Some ("{" ++ b ++ "}")%string.
Proof.
  intros Hb. simpl append. rewrite extractJsonObject_cut.
  rewrite cut_balanced by (assumption || lia).
  reflexivity.
Qed.
Lemma extractJsonObject_complete_witness :
  extractJsonObject
    ("{" ++ (String quote "a}" ++ String quote "") ++ "}" ++ "; tail") =
  Some ("{" ++ (String quote "a}" ++ String quote "") ++ "}")%string.
Proof.
  apply (extractJsonObject_complete
           (String quote "a}" ++ String quote "") "; tail").
  apply (balanced_literal "a}" "").
  - repeat (constructor; try reflexivity).
  - constructor.
Defined.

End TextProperties.

Module ValidationProperties.
Import JsString Js OpenAPIFetcher FetcherHelpers OpenAPIParser.
Import EndpointSpec EndpointFacts ValidationSpec ValidationFacts.
Import ParserExamples TestDocuments.

(** X15.  A document that [validateSpec] accepts is never labelled
    'Unknown': the fetch result carries a label that starts with
    [OpenAPI 3] when the document has an [openapi] member, which is the
    test by which [parse] takes it for OpenAPI 3, and the label
    [Swagger 2.0] otherwise. *)
Theorem validated_document_is_labelled m spec now url scraped resolved :
  validateSpec m spec = inl tt ->
  exists isV3 label,
    has "openapi" spec = Ok isV3 /\
    detectSpecVersion spec = Ok label /\
    checked m spec now url scraped resolved =
      inl (mkFetchResult spec now url label scraped resolved) /\
    (if isV3 then startsWith label "OpenAPI 3"
     else label =? "Swagger 2.0") = true.
Proof.
  intros H. unfold checked. rewrite H. cbn [and_then].
  destruct (validateSpec_accepted _ _ H) as [_ [_ [_ [_ Hk]]]].
  unfold detectSpecVersion.
  destruct Hk as [[Ho [r Hv]]|[Ho [Hs Hv]]].
  - exists true. eexists. rewrite Ho, Hv. cbn.
    split; [reflexivity|]. split; [reflexivity|]. split; [reflexivity|].
    unfold startsWith. cbn.
    destruct r; reflexivity.
  - exists false. eexists. rewrite Ho, Hs, Hv. cbn.
    repeat split; reflexivity.
Qed.

Lemma validated_document_is_labelled_witness :
  exists label,
    checked "not a function" pets_document 0 "https://api.example.com"
      None None =
    inl (mkFetchResult pets_document 0 "https://api.example.com" label
           None None) /\
    label = "Swagger 2.0".
Proof.
  destruct (validated_document_is_labelled "not a function" pets_document 0
              "https://api.example.com" None None eq_refl)
    as [isV3 [label [Ho [Hd [Hc Hl]]]]].
  exists label. split; [exact Hc|].
  vm_compute in Ho. inversion Ho; subst isV3.
  apply String.eqb_eq. exact Hl.
Defined.

(** X16.  A fetch result whose document [validateSpec] accepted is
    parsed without an exception unless the security schemes or the
    servers of the document are malformed: [parse] returns if and only
    if [parseSecuritySchemes] and [getServers] do.  Nothing in the
    paths, operations, parameters or schemas makes [parse] raise. *)
Theorem validated_document_parses toISOString m fetchResult :
  validateSpec m (fr_spec fetchResult) = inl tt ->
  ((exists r, parse toISOString fetchResult = Ok r) <->
   exists isV3 schemes srv,
     has "openapi" (fr_spec fetchResult) = Ok isV3 /\
     parseSecuritySchemes (fr_spec fetchResult) isV3 = Ok schemes /\
     getServers (fr_spec fetchResult) isV3 = Ok srv).
Proof.
  intros H. apply validateSpec_accepted in H.
  destruct H as [Ht [_ [[info [Hi Hit]] _]]].
  pose proof (truthy_not_nullish _ Ht) as Hn.
  unfold parse. cbv zeta. split.
  - intros [r Hr]. binds_inv Hr. eauto 10.
  - intros [isV3 [schemes [srv [Ho [Hs Hv]]]]].
    rewrite Ho. cbn [bind].
    destruct (parseEndpoints_total (fr_spec fetchResult) isV3 Hn)
      as [eps Heps].
    rewrite Heps, Hs, Hi. cbn [bind].
    pose proof (truthy_not_nullish _ Hit) as Hin.
    destruct (get_total info "title" Hin) as [t Ht'].
    destruct (get_total info "version" Hin) as [v Hv'].
    destruct (get_total info "description" Hin) as [d Hd'].
    destruct (getBaseUrl_total (fr_spec fetchResult) isV3 Hn) as [u Hu].
    rewrite Ht', Hv', Hd', Hu, Hv. cbn [bind]. eauto.
Qed.

Lemma validated_document_parses_witness :
  (exists r, parse iso_epoch users_fetch = Ok r) <->
  exists isV3 schemes srv,
    has "openapi" users_document = Ok isV3 /\
    parseSecuritySchemes users_document isV3 = Ok schemes /\
    getServers users_document isV3 = Ok srv.
Proof.
  apply (validated_document_parses iso_epoch "not a function" users_fetch).
  reflexivity.
Defined.

(** X17.  An error that an inner [catch] of the fetcher has wrapped
    passes through an outer [catch] unchanged, with its code, message
    and cause: [handleFetchError] is idempotent, and [fetch] on an HTML
    response ends as the scraping it delegates to ended. *)
Theorem nested_catch_keeps_classification url url' error :
  handleFetchError url' (as_thrown (handleFetchError url error)) =
    handleFetchError url error /\
  forall (R : Type) (inner : string -> R + thrown) parseDirect h data,
    isHtmlResponse data (header_or_empty h) = true ->
    @fetch url' R
      (fun html =>
         match rethrow url (inner html) with
         | inl v => inl v
         | inr e => inr (as_thrown e)
         end)
      parseDirect (Response h data) =
    rethrow url (inner data).
Proof.
  assert (Hi : forall e,
             handleFetchError url' (as_thrown (handleFetchError url e)) =
             handleFetchError url e).
  { intros e. unfold as_thrown. cbn [handleFetchError].
    destruct (handleFetchError url e); reflexivity. }
  split; [apply Hi|].
  intros R inner parseDirect h data Hh.
  unfold fetch, fetch_route. rewrite Hh.
  unfold rethrow at 1. destruct (inner data) as [v|e]; cbn [rethrow].
  - reflexivity.
  - rewrite Hi. reflexivity.
Qed.

Lemma nested_catch_keeps_classification_witness :
  @fetch "https://api.x.com/docs" unit
    (fun html =>
       match rethrow "https://api.x.com/docs"
               (inr (AxiosError (Some 404%Z) (Some "Not Found") None
                       "Request failed with status code 404")) with
       | inl v => inl v
       | inr e => inr (as_thrown e)
       end)
    (fun _ _ => inl tt) (Response (Some "text/html") "<html></html>") =
  rethrow "https://api.x.com/docs"
    (inr (AxiosError (Some 404%Z) (Some "Not Found") None
            "Request failed with status code 404")).
Proof.
  destruct (nested_catch_keeps_classification "https://api.x.com/docs"
              "https://api.x.com/docs" NonError) as [_ H].
  apply (H unit
           (fun _ => inr (AxiosError (Some 404%Z) (Some "Not Found") None
                            "Request failed with status code 404"))
           (fun _ _ => inl tt) (Some "text/html") "<html></html>").
  reflexivity.
Defined.

(** X18.  With a base URL of protocol [http:] or [https:], [resolveUrl]
    returns an absolute URL on which it acts as the identity: a URL that
    starts with [http://] or [https://] is returned unchanged, and a
    URL that starts with [/] is appended to the origin of the base. *)
Theorem resolveUrl_is_absolute b url :
  protocol b = "http:" \/ protocol b = "https:" ->
  exists r,
    resolveUrl (Some b) url = Ok r /\
    startsWith r "http://" || startsWith r "https://" = true /\
    resolveUrl (Some b) r = Ok r /\
    (startsWith url "http://" || startsWith url "https://" = true ->
     r = url) /\
    (startsWith url "http://" || startsWith url "https://" = false ->
     startsWith url "/" = true ->
     r = (protocol b ++ "//" ++ host b ++ url)%string).
Proof.
  intros Hp. unfold resolveUrl.
  destruct (startsWith url "http://" || startsWith url "https://") eqn:Ea.
  - exists url. rewrite Ea. repeat split; auto; discriminate.
  - assert (Hs : forall x,
              startsWith (protocol b ++ "//" ++ x) "http://"
              || startsWith (protocol b ++ "//" ++ x) "https://" = true).
    { intros x. unfold startsWith.
      destruct Hp as [-> | ->]; cbn; destruct x; reflexivity. }
    destruct (startsWith url "/") eqn:Er.
    + eexists. split; [reflexivity|]. rewrite Hs.
      repeat split; auto; discriminate.
    + eexists. split; [reflexivity|]. cbv zeta. rewrite Hs.
      repeat split; auto; discriminate.
Qed.
Lemma resolveUrl_is_absolute_witness :
  exists r,
    resolveUrl (Some (mkURL "https:" "api.x.com" "/docs/index.html"))
      "swagger-ui-init.js" = Ok r /\
    r = "https://api.x.com/docs/swagger-ui-init.js" /\
    resolveUrl (Some (mkURL "https:" "api.x.com" "/docs/index.html")) r =
    Ok r.
Proof.
  destruct (resolveUrl_is_absolute
              (mkURL "https:" "api.x.com" "/docs/index.html")
              "swagger-ui-init.js" (or_intror eq_refl))
    as [r [Hr [_ [Hi _]]]].
  exists r. split; [exact Hr|]. split; [|exact Hi].
  vm_compute in Hr. inversion Hr. reflexivity.
Defined.

End ValidationProperties.


(* ===================================================================== *)
(** * Tools: limits, redaction, advice, listings *)
(* ===================================================================== *)

Module HandlerProperties.
Import JsString Js Search ToolHandler HandlerSpec HandlerFacts.
Import SearchExamples HandlerExamples.

(** X19.  Through the dispatch of the tool, [getApiSchema] returns the
    first endpoints of the ranking of [searchEndpoints], never more
    than 50: ten when no [maxResults] is given, none when it is 0,
    and otherwise [maxResults] brought into 1..50.  [totalMatches] counts
    the whole ranking; the returned endpoints keep their paths, and
    carry no responses or request body when the caller declined
    them. *)
Theorem results_are_capped spec args r :
  getApiSchema spec (Dispatch.getApiSchemaArgs args) = Ok r ->
  exists matching,
    searchEndpoints spec (arg_query args)
      (mkFilters (arg_method args) (arg_tag args)) = Ok matching /\
    sr_totalMatches r = length matching /\
    length (sr_endpoints r) =
      Nat.min (schema_cap (arg_maxResults args)) (length matching) /\
    length (sr_endpoints r) <= 50 /\
    map path (sr_endpoints r) =
      map path (firstn (schema_cap (arg_maxResults args)) matching) /\
    (arg_includeResponses args = Some false ->
     Forall (fun ep => responses ep = []) (sr_endpoints r)) /\
    (arg_includeRequestBody args = Some false ->
     Forall (fun ep => requestBody ep = None) (sr_endpoints r)).
Proof.
  unfold getApiSchema. cbv zeta.
  cbn [Dispatch.getApiSchemaArgs arg_query arg_maxResults arg_method
       arg_tag arg_includeRequestBody arg_includeResponses].
  intros H. bind_inv H. inversion H; subst r; clear H.
  exists v. cbn [sr_totalMatches sr_endpoints].
  rewrite schema_cap_slice.
  split; [assumption|]. split; [reflexivity|].
  rewrite length_map, length_firstn.
  split; [reflexivity|].
  split; [pose proof (schema_cap_le (arg_maxResults args)); lia|].
  split.
  { rewrite map_map. apply map_ext. intros ep.
    apply processed_keeps. }
  split; intros E; rewrite E; cbn [default]; apply Forall_map, Forall_forall;
    intros ep _; apply processed_keeps; reflexivity.
Qed.

Lemma results_are_capped_witness :
  exists r,
    getApiSchema sample_spec (Dispatch.getApiSchemaArgs users_args) = Ok r /\
    sr_totalMatches r = 3 /\
    map path (sr_endpoints r) = ["/users"] /\
    Forall (fun ep => responses ep = []) (sr_endpoints r).
Proof.
  destruct (getApiSchema sample_spec (Dispatch.getApiSchemaArgs users_args))
    as [r|] eqn:E; [|vm_compute in E; discriminate].
  exists r. split; [reflexivity|].
  destruct (results_are_capped sample_spec users_args r E)
    as [matching [Hm [Ht [_ [_ [Hp [Hr _]]]]]]].
  vm_compute in Hm. inversion Hm; subst matching.
  split; [exact Ht|]. split; [exact Hp|]. apply Hr. reflexivity.
Defined.

(** X20.  Through the dispatch of the tool, the search of
    [analyzeApiFromUrl] returns the first endpoints of the unfiltered
    ranking, at least one when there is a match and never more than 50:
    ten when [maxResults] is absent or 0, and otherwise [maxResults]
    brought into 1..50; [totalMatches] counts the whole ranking. *)
Theorem analysis_is_capped spec query maxResults total eps :
  analyze_search spec query (Dispatch.clamp 1 50 maxResults) =
    Ok (Some (total, eps)) ->
  exists q all,
    nonempty query = Some q /\
    searchEndpoints spec q no_filters = Ok all /\
    total = length all /\
    eps = firstn (analyze_cap maxResults) all /\
    length eps <= 50.
Proof.
  unfold analyze_search. intros H.
  destruct (nonempty query) as [q|]; [|discriminate].
  bind_inv H. cbv zeta in H. inversion H; subst total eps; clear H.
  exists q, v. rewrite analyze_cap_slice.
  repeat split; try assumption.
  rewrite length_firstn. pose proof (analyze_cap_bounds maxResults). lia.
Qed.
Lemma analysis_is_capped_witness :
  exists total eps,
    analyze_search sample_spec (Some "users")
      (Dispatch.clamp 1 50 (Some 2%Z)) = Ok (Some (total, eps)) /\
    total = 3 /\ length eps = 2.
Proof.
  destruct (analyze_search sample_spec (Some "users")
              (Dispatch.clamp 1 50 (Some 2%Z))) as [[[total eps]|]|] eqn:E;
    [|vm_compute in E; discriminate|vm_compute in E; discriminate].
  exists total, eps. split; [reflexivity|].
  destruct (analysis_is_capped sample_spec (Some "users") (Some 2%Z)
              total eps E) as [q [all [Hq [Ha [Ht [He _]]]]]].
  vm_compute in Hq. inversion Hq; subst q.
  vm_compute in Ha. inversion Ha; subst all.
  subst total eps. split; reflexivity.
Defined.

End HandlerProperties.

Module RequestProperties.
Import JsString Js Search ToolHandler RequestFacts HandlerExamples.



(** X22.  Through the dispatch of the tool, the timeout of the request
    that [executeApiRequest] sends is the caller's value brought into
    the range from 1000 to 60000 ms (a value in the range is sent as it
    is, a smaller one as 1000, a larger one as 60000), and 30000 ms when
    the caller gives none or gives 0; it always lies in that range.
    Called as [req], the tool sends 30000 ms. *)
Theorem request_timeout_is_bounded args :
  let sent :=
    cfg_timeout (fst (build_request (Dispatch.executeApiRequestArgs args)))
  in
  sent = match ex_timeout args with
         | None => 30000%Z
         | Some n =>
             if (n =? 0)%Z then 30000%Z else Z.min (Z.max 1000 n) 60000
         end /\
  (1000 <= sent <= 60000)%Z /\
  (forall n, ex_timeout args = Some n ->
     ((1000 <= n <= 60000)%Z -> sent = n) /\
     (n <> 0%Z -> (n < 1000)%Z -> sent = 1000%Z) /\
     ((60000 < n)%Z -> sent = 60000%Z) /\
     (n = 0%Z -> sent = 30000%Z)) /\
  (ex_timeout args = None -> sent = 30000%Z) /\
  cfg_timeout (fst (build_request (Dispatch.reqArgs args))) = 30000%Z.
Proof.
  intros sent.
  assert (Hs : sent =
               match ex_timeout args with
               | None => 30000%Z
               | Some n =>
                   if (n =? 0)%Z then 30000%Z
                   else Z.min (Z.max 1000 n) 60000
               end).
  { subst sent. unfold build_request. cbv zeta. cbn [fst cfg_timeout].
    cbn [Dispatch.executeApiRequestArgs ex_timeout].
    unfold Dispatch.clamp, number_or.
    destruct (ex_timeout args) as [n|]; [|reflexivity].
    destruct (n =? 0)%Z eqn:E; [rewrite E; reflexivity|].
    replace (Z.min (Z.max 1000 n) 60000 =? 0)%Z with false
      by (symmetry; apply Z.eqb_neq; lia).
    reflexivity. }
  split; [exact Hs|]. split; [|split; [|split]].
  - rewrite Hs. destruct (ex_timeout args) as [n|]; [|lia].
    destruct (n =? 0)%Z; lia.
  - intros n Hn. rewrite Hs, Hn.
    destruct (Z.eqb_spec n 0); repeat split; intros; lia.
  - intros Hn. rewrite Hs, Hn. reflexivity.
  - reflexivity.
Qed.

Lemma request_timeout_is_bounded_witness :
  cfg_timeout
    (fst (build_request
            (Dispatch.executeApiRequestArgs
               (mkExecuteArgs "https://api.x.com" None JUndef None None
                  (Some 2500%Z) None)))) = 2500%Z /\
  cfg_timeout
    (fst (build_request
            (Dispatch.executeApiRequestArgs
               (mkExecuteArgs "https://api.x.com" None JUndef None None
                  (Some 90000%Z) None)))) = 60000%Z /\
  cfg_timeout
    (fst (build_request
            (Dispatch.executeApiRequestArgs
               (mkExecuteArgs "https://api.x.com" None JUndef None None
                  None None)))) = 30000%Z.
Proof.
  split; [|split].
  - destruct (request_timeout_is_bounded
                (mkExecuteArgs "https://api.x.com" None JUndef None None
                   (Some 2500%Z) None)) as [_ [_ [H _]]].
    destruct (H 2500%Z eq_refl) as [H1 _]. apply H1. lia.
  - destruct (request_timeout_is_bounded
                (mkExecuteArgs "https://api.x.com" None JUndef None None
                   (Some 90000%Z) None)) as [_ [_ [H _]]].
    destruct (H 90000%Z eq_refl) as [_ [_ [H1 _]]]. apply H1. lia.
  - destruct (request_timeout_is_bounded
                (mkExecuteArgs "https://api.x.com" None JUndef None None
                   None None)) as [_ [_ [_ [H _]]]].
    apply H. reflexivity.
Defined.

End RequestProperties.

Module HintProperties.
Import JsString Js OpenAPIFetcher ToolHandler HintSpec HintFacts.

(** X23.  The advice that [analyzeApiFromUrl] adds to a failed fetch
    follows from texts found in the message of the error, which holds
    the URL.  A rejection with status 401 or 403 is always answered with
    the advice to authenticate.  A rejection with status 404 is answered
    with the advice for a missing document unless the URL itself holds
    "401", "403" or "Authentication failed", in which case the advice to
    authenticate is given; a timeout is answered with the advice for a
    timeout unless the URL holds one of those texts, "404" or
    "not found". *)
Theorem hint_follows_the_message url status statusText ecode msg :
  let rejected st c :=
    message (handleFetchError url (AxiosError st statusText c msg)) in
  (status = 401%Z \/ status = 403%Z ->
   startsWith (userFriendlyError url (rejected (Some status) ecode))
     "Authentication required." = true) /\
  startsWith (userFriendlyError url (rejected (Some 404%Z) ecode))
    (if mentions_auth url then "Authentication required."
     else "API specification not found at ") = true /\
  startsWith (userFriendlyError url (rejected None (Some "ETIMEDOUT")))
    (if mentions_auth url then "Authentication required."
     else if mentions_missing url then "API specification not found at "
     else "Request timed out while fetching ") = true.
Proof.
  cbv zeta. split; [|split].
  - intros Hs.
    assert (Ha : (status_is (Some status) 401 || status_is (Some status) 403)
                 = true) by (destruct Hs as [-> | ->]; reflexivity).
    unfold handleFetchError. rewrite Ha. cbn [message].
    unfold userFriendlyError.
    match goal with |- context [includes ?m "Authentication failed"] =>
      replace (includes m "Authentication failed") with true
        by (symmetry; reflexivity)
    end.
    rewrite orb_true_r. reflexivity.
  - unfold handleFetchError. cbn [status_is Z.eqb Pos.eqb orb message].
    match goal with |- context [userFriendlyError url ?m] => set (text := m) end.
    assert (H1 : includes text "401" = includes url "401").
    { subst text. cbn. rewrite includes_before by (reflexivity || discriminate).
      apply orb_false_r. }
    assert (H2 : includes text "403" = includes url "403").
    { subst text. cbn. rewrite includes_before by (reflexivity || discriminate).
      apply orb_false_r. }
    assert (H3 : includes text "Authentication failed" =
                 includes url "Authentication failed").
    { subst text. cbn. rewrite includes_before by (reflexivity || discriminate).
      apply orb_false_r. }
    assert (H4 : includes text "not found" = true).
    { subst text. reflexivity. }
    unfold userFriendlyError. rewrite H1, H2, H3, H4, orb_true_r.
    fold (mentions_auth url).
    destruct (mentions_auth url); [reflexivity|].
    apply prefix_self.
  - unfold handleFetchError. cbn [status_is code_is String.eqb orb message].
    match goal with |- context [userFriendlyError url ?m] => set (text := m) end.
    assert (H1 : includes text "401" = includes url "401")
      by reflexivity.
    assert (H2 : includes text "403" = includes url "403")
      by reflexivity.
    assert (H3 : includes text "Authentication failed" =
                 includes url "Authentication failed") by reflexivity.
    assert (H4 : includes text "404" = includes url "404")
      by reflexivity.
    assert (H5 : includes text "not found" = includes url "not found")
      by reflexivity.
    assert (H6 : includes text "timeout" = true) by reflexivity.
    unfold userFriendlyError. rewrite H1, H2, H3, H4, H5, H6.
    fold (mentions_auth url). fold (mentions_missing url).
    destruct (mentions_auth url); [reflexivity|].
    destruct (mentions_missing url); apply prefix_self.
Qed.
Lemma hint_follows_the_message_witness :
  startsWith
    (userFriendlyError "https://api.x.com/v1/openapi.json"
       (message
          (handleFetchError "https://api.x.com/v1/openapi.json"
             (AxiosError (Some 403%Z) (Some "Forbidden") None
                "Request failed with status code 403"))))
    "Authentication required." = true.
Proof.
  destruct (hint_follows_the_message "https://api.x.com/v1/openapi.json"
              403%Z (Some "Forbidden") None
              "Request failed with status code 403") as [H _].
  apply H. right. reflexivity.
Defined.

End HintProperties.

Module RankingProperties.
Import JsString Js Search ToolHandler OrderSpec OrderFacts.
Import SortSpec SearchSpec SearchFacts SearchExamples.

(** X24.  On a description whose endpoints are typed as [types.ts]
    declares, the method and tag filters of [searchEndpoints] change
    which endpoints are returned and nothing else: the filtered search
    returns the endpoints of the unfiltered search that pass the
    filters, in the same order. *)
Theorem filters_commute_with_ranking spec query filters :
  forallb well_typed (endpoints spec) = true ->
  exists all,
    searchEndpoints spec query no_filters = Ok all /\
    searchEndpoints spec query filters = Ok (filter (passes filters) all).
Proof.
  intros H. assert (Ht : forall ep, In ep (endpoints spec) ->
                                    well_typed ep = true)
    by (apply forallb_forall; exact H).
  exists (sort (by_key (score query)) (candidates spec query no_filters)).
  split; [apply searchEndpoints_typed; assumption|].
  rewrite searchEndpoints_typed by assumption. f_equal.
  rewrite (filter_sorting _ (by_key_consistent (score query))). f_equal.
  unfold candidates. rewrite !filter_twice.
  apply filter_ext. intros ep. unfold passes at 2. cbn.
  rewrite andb_comm. reflexivity.
Qed.
Lemma filters_commute_with_ranking_witness :
  exists all,
    searchEndpoints sample_spec "users" no_filters = Ok all /\
    searchEndpoints sample_spec "users" (mkFilters (Some "POST") None) =
    Ok (filter (passes (mkFilters (Some "POST") None)) all).
Proof.
  apply (filters_commute_with_ranking sample_spec "users"
           (mkFilters (Some "POST") None)).
  reflexivity.
Defined.

End RankingProperties.

Module ListingProperties.
Import JsString Js Search ToolHandler OrderSpec OrderFacts TagFacts.
Import SortSpec SearchSpec SearchFacts SearchExamples.

(** X25.  On a description whose endpoints are typed as [types.ts]
    declares, the tags that [getApiInfo] and [analyzeApiFromUrl] report
    are the tags of the endpoints, each once, in strictly ascending
    order of their code units. *)
Theorem tags_are_sorted_and_unique spec :
  forallb well_typed (endpoints spec) = true ->
  exists info names,
    getApiInfo spec = Ok info /\
    info_tags info = map JStr names /\
    ascending names /\
    forall t, In t names <-> In (JStr t) (all_tags (endpoints spec)).
Proof.
  intros H. assert (Ht : forall ep, In ep (endpoints spec) ->
                                    well_typed ep = true)
    by (apply forallb_forall; exact H).
  unfold getApiInfo. rewrite collect_typed by assumption. cbn [bind].
  destruct (fold_set_add (all_tags (endpoints spec)) [])
    as [Hs [Hn Hi]];
    [apply all_tags_strings; assumption|constructor|constructor|].
  set (set := fold_left set_add (all_tags (endpoints spec)) []) in *.
  pose proof (sorting_perm sort_compare set) as Hp.
  assert (Hs' : strings (sort sort_compare set))
    by (eapply Permutation_Forall; [symmetry; exact Hp|exact Hs]).
  assert (Hn' : NoDup (sort sort_compare set))
    by (eapply Permutation_NoDup; [symmetry; exact Hp|exact Hn]).
  eexists. exists (map text_of (sort sort_compare set)).
  split; [reflexivity|]. cbn [info_tags].
  split; [symmetry; apply strings_texts; assumption|].
  split; [apply sorted_texts; try assumption;
          apply sorting_sorted, sort_compare_consistent|].
  intros t.
  assert (Hin : In (JStr t) set <-> In (JStr t) (sort sort_compare set)).
  { split; apply Permutation_in; [symmetry|]; exact Hp. }
  rewrite in_map_iff. split.
  - intros [v [Hv Hin']].
    unfold strings in Hs'. rewrite Forall_forall in Hs'.
    specialize (Hs' v Hin'). destruct v; try discriminate.
    cbn in Hv. subst. apply Hin, Hi in Hin'.
    destruct Hin' as [[]|Hx]. assumption.
  - intros Hx. exists (JStr t). split; [reflexivity|].
    apply Hin, Hi. right. assumption.
Qed.

Lemma tags_are_sorted_and_unique_witness :
  exists info,
    getApiInfo sample_spec = Ok info /\
    info_tags info = [JStr "pets"; JStr "users"].
Proof.
  destruct (tags_are_sorted_and_unique sample_spec eq_refl)
    as [info [names [Hi [Ht _]]]].
  exists info. split; [exact Hi|].
  vm_compute in Hi. inversion Hi; subst info. reflexivity.
Defined.

(** X26.  On a description whose endpoints are typed as [types.ts]
    declares, [listEndpoints] reports, in the order of the description,
    the endpoints that pass the filters, by the same tests as
    [searchEndpoints]: whatever the query, every endpoint that a search
    returns under given filters is listed under them, and a search with
    a blank query returns exactly the listed endpoints. *)
Theorem listing_covers_search spec filters :
  forallb well_typed (endpoints spec) = true ->
  exists listed,
    listEndpoints spec (Some filters) = Ok listed /\
    listed = map brief_of (filter (passes filters) (endpoints spec)) /\
    forall query found,
      searchEndpoints spec query filters = Ok found ->
      incl (map brief_of found) listed /\
      (blank query = true -> Permutation (map brief_of found) listed).
Proof.
  intros H. assert (Ht : forall ep, In ep (endpoints spec) ->
                                    well_typed ep = true)
    by (apply forallb_forall; exact H).
  exists (map brief_of (filter (passes filters) (endpoints spec))).
  split; [|split; [reflexivity|]].
  - unfold listEndpoints. cbv zeta.
    pose proof (apply_filters_typed (endpoints spec) filters Ht) as Ha.
    unfold apply_filters in Ha.
    destruct (nonempty (filter_method filters)) as [m|];
      cbn [bind] in *; rewrite Ha; reflexivity.
  - intros query found Hf.
    rewrite searchEndpoints_typed in Hf by assumption.
    inversion Hf; subst found; clear Hf.
    pose proof (OrderFacts.sorting_perm (by_key (score query))
                  (candidates spec query filters)) as Hp.
    split.
    + intros b Hb. apply in_map_iff in Hb. destruct Hb as [ep [<- Hep]].
      apply in_map. apply (Permutation_in _ Hp) in Hep.
      unfold candidates in Hep. apply filter_In in Hep. tauto.
    + intros Hb. apply Permutation_map.
      eapply perm_trans; [exact Hp|].
      unfold candidates. rewrite forallb_filter_id;
        [apply Permutation_refl|].
      apply forallb_forall. intros ep _.
      pose proof (blank_score query ep Hb). apply Z.gtb_lt. lia.
Qed.
Lemma listing_covers_search_witness :
  exists listed,
    listEndpoints sample_spec (Some (mkFilters (Some "GET") None)) =
      Ok listed /\
    map brief_path listed = ["/users/{id}"; "/users"] /\
    map brief_method listed = ["GET"; "GET"].
Proof.
  destruct (listing_covers_search sample_spec (mkFilters (Some "GET") None)
              eq_refl) as [listed [Hl [He _]]].
  exists listed. split; [exact Hl|]. subst listed. split; reflexivity.
Defined.

End ListingProperties.


(* ===================================================================== *)
(** * Endpoints: failures stay local *)
(* ===================================================================== *)

Module EndpointProperties.
Import JsString Js OpenAPIParser EndpointSpec EndpointFacts.
Import ParserExamples MoreDocuments.

(** X1.  [parseEndpoints] never raises on a document that is neither
    [null] nor [undefined]: whatever the paths and operations hold, a
    failure of [parseOperation] is confined to its operation. *)
Theorem parseEndpoints_never_raises spec isV3 :
  nullish spec = false ->
  exists eps, parseEndpoints spec isV3 = Ok eps.
Proof. apply parseEndpoints_total. Qed.

Lemma parseEndpoints_never_raises_witness :
  nullish flawed_document = false /\
  exists eps, parseEndpoints flawed_document true = Ok eps.
Proof.
  split; [reflexivity|].
  apply (parseEndpoints_never_raises flawed_document true). reflexivity.
Defined.

(** X2.  The endpoints that [parseEndpoints] returns are exactly the
    normalized operations of the document: an endpoint is returned if
    and only if its method is one of the eight HTTP methods, its path is
    a key of [paths] with a truthy path item, the path item holds a
    truthy operation under that method, and [parseOperation] normalizes
    that operation to the endpoint.  There are at most eight endpoints
    per path. *)
Theorem parseEndpoints_membership spec isV3 es eps :
  path_entries spec = Ok es ->
  parseEndpoints spec isV3 = Ok eps ->
  length eps <= 8 * length es /\
  forall ep,
    In ep eps <->
    In (method ep) methods /\
    exists pathItem,
      In (path ep, pathItem) es /\ truthy pathItem = true /\
      operation_of spec isV3 (path ep) pathItem (method ep) ep.
Proof. apply parseEndpoints_characterized. Qed.

Lemma parseEndpoints_membership_witness :
  exists es eps,
    path_entries users_document = Ok es /\
    parseEndpoints users_document true = Ok eps /\
    length eps <= 8 * length es /\
    forall ep,
      In ep eps <->
      In (method ep) methods /\
      exists pathItem,
        In (path ep, pathItem) es /\ truthy pathItem = true /\
        operation_of users_document true (path ep) pathItem (method ep) ep.
Proof.
  destruct (path_entries users_document) as [es|] eqn:E1;
    [|vm_compute in E1; discriminate].
  destruct (parseEndpoints users_document true) as [eps|] eqn:E2;
    [|vm_compute in E2; discriminate].
  exists es, eps. split; [reflexivity|]. split; [reflexivity|].
  apply (parseEndpoints_membership users_document true es eps E1 E2).
Defined.

End EndpointProperties.


(* ===================================================================== *)
(** * References, security requirements, responses and servers *)
(* ===================================================================== *)

Module RefProperties.
Import JsString Js OpenAPIParser RefSpec RefFacts SchemeSpec SchemeFacts.
Import DepthSpec ParserExamples TestDocuments MoreDocuments.

(** X4.  Take a local reference [#/p1/.../pn] whose parts hold no [/]
    and of which no part is found on a prototype: a part read from an
    object is a member of that object or is not the name of a member of
    [Object.prototype], a part read from an array is [length] or one of
    its indices.  It resolves to the value found by reading [p1], ...,
    [pn] in turn from the root of the document, and to [undefined] as
    soon as one is missing; [resolveRef] does not raise on it. *)
Theorem resolveRef_follows_pointer spec parts :
  parts <> [] -> Forall (fun p => no_slash p = true) parts ->
  own_members spec parts = true ->
  resolveRef spec (JStr (pointer parts)) = Ok (own_path spec parts).
Proof.
  intros Hne Hp _. unfold resolveRef, pointer, startsWith.
  simpl append. cbn [String.prefix slice].
  destruct (ascii_dec "#" "#") as [_|N]; [|congruence].
  destruct (ascii_dec "/" "/") as [_|N]; [|congruence].
  replace (String.prefix "" (join "/" parts)) with true
    by (destruct (join "/" parts); reflexivity).
  cbn [negb]. rewrite split_join by assumption. apply walk_own_path.
Qed.

Lemma resolveRef_follows_pointer_witness :
  resolveRef cyclic_document (JStr "#/definitions/Loop") = Ok loop_ref /\
  resolveRef cyclic_document (JStr "#/definitions/Missing/type") =
    Ok JUndef.
Proof.
  split.
  - apply (resolveRef_follows_pointer cyclic_document
             ["definitions"; "Loop"]).
    + discriminate.
    + repeat constructor.
    + reflexivity.
  - apply (resolveRef_follows_pointer cyclic_document
             ["definitions"; "Missing"; "type"]).
    + discriminate.
    + repeat constructor.
    + reflexivity.
Defined.

(** X5.  A schema object whose [$ref] points outside the document (it
    does not start with [#/]) or to nothing in it is normalized, at any
    depth up to 10, to the opaque object schema that carries the
    reference; this is not an error. *)
Theorem unresolved_ref_is_opaque spec isV3 kvs r depth :
  assoc "$ref" kvs = Some (JStr r) -> r <> "" ->
  startsWith r "#/" = false \/ dangling spec r = true ->
  depth <= 10 ->
  normalizeSchema spec isV3 (JObj kvs) depth = Ok (with_ref stub r).
Proof.
  intros Hk Hr Hd Hle. rewrite (normalizeSchema_ref _ _ _ r) by assumption.
  destruct Hd as [Hext|Hd].
  - unfold resolveRef. rewrite Hext. reflexivity.
  - unfold dangling in Hd.
    destruct (resolveRef spec (JStr r)) as [v|e]; [|discriminate].
    cbn [bind]. destruct (truthy v); [discriminate|reflexivity].
Qed.

Lemma unresolved_ref_is_opaque_witness :
  normalizeSchema users_document true (JObj external_pet) 0 =
  Ok (with_ref stub "https://example.com/schemas/pet.json").
Proof.
  apply (unresolved_ref_is_opaque users_document true external_pet
           "https://example.com/schemas/pet.json" 0).
  - reflexivity.
  - discriminate.
  - left. reflexivity.
  - lia.
Defined.

(** X6.  The members that a schema object holds next to a non-empty
    string [$ref] play no part: the object is normalized as the object
    that holds the reference alone. *)
Theorem ref_siblings_ignored spec isV3 kvs r depth :
  assoc "$ref" kvs = Some (JStr r) -> r <> "" ->
  normalizeSchema spec isV3 (JObj kvs) depth =
  normalizeSchema spec isV3 (only_ref r) depth.
Proof.
  intros Hk Hr. destruct (le_lt_dec depth 10) as [Hle|Hgt].
  - rewrite (normalizeSchema_ref _ _ kvs r) by assumption.
    unfold only_ref.
    rewrite (normalizeSchema_ref _ _ [("$ref", JStr r)] r);
      [reflexivity|reflexivity|assumption|assumption].
  - rewrite !DepthFacts.normalizeSchema_beyond_cap by assumption.
    reflexivity.
Qed.

Lemma ref_siblings_ignored_witness :
  normalizeSchema users_document true (JObj external_pet) 0 =
  normalizeSchema users_document true
    (only_ref "https://example.com/schemas/pet.json") 0.
Proof.
  apply (ref_siblings_ignored users_document true external_pet
           "https://example.com/schemas/pet.json" 0).
  - reflexivity.
  - discriminate.
Defined.

(** X7.  Take a document that declares its security schemes in an
    object, or declares none, and requirements of which no name is the
    name of a member of [Object.prototype].  The requirements that
    [parseSecurity] returns are exactly these: for every entry, a name
    and scopes, of a requirement whose name is a key of the declarations
    with a truthy value, the normalized declaration of that name with
    the scopes of the entry.  An entry whose name is not declared gives
    nothing. *)
Theorem parseSecurity_resolved spec isV3 security l :
  declares_in_object spec isV3 = true ->
  plainly_named security = true ->
  parseSecurity spec isV3 security = Ok l ->
  forall s,
    In s l <->
    exists name scopes kvs v scheme,
      In (name, scopes) (requirements security) /\
      declared spec isV3 = Ok (JObj kvs) /\
      assoc name kvs = Some v /\ truthy v = true /\
      normalize_declared isV3 name v = Ok scheme /\
      s = with_scopes scheme scopes.
Proof.
  intros Hd _ H s. rewrite (parseSecurity_In _ _ _ _ H). split.
  - intros [name [scopes [scheme [Hin [Hg ->]]]]].
    apply (getSecurityScheme_declared _ _ _ _ Hd) in Hg.
    destruct Hg as [kvs [v [H1 [H2 [H3 H4]]]]].
    exists name, scopes, kvs, v, scheme. auto 7.
  - intros [name [scopes [kvs [v [scheme [Hin [H1 [H2 [H3 [H4 ->]]]]]]]]]].
    exists name, scopes, scheme. split; [assumption|].
    split; [|reflexivity].
    apply (getSecurityScheme_declared _ _ _ _ Hd).
    exists kvs, v. auto.
Qed.

Lemma parseSecurity_resolved_witness :
  parseSecurity secure_document true mixed_security =
    Ok [with_scopes bearer_scheme (JArr [JStr "read"])] /\
  exists l,
    parseSecurity secure_document true mixed_security = Ok l /\
    In (with_scopes bearer_scheme (JArr [JStr "read"])) l.
Proof.
  split; [reflexivity|].
  destruct (parseSecurity secure_document true mixed_security)
    as [l|] eqn:E; [|vm_compute in E; discriminate].
  exists l. split; [reflexivity|].
  apply (parseSecurity_resolved secure_document true mixed_security l
           eq_refl eq_refl E).
  exists "bearerAuth", (JArr [JStr "read"]), bearer_entries,
    (JObj [ ("type", JStr "http"); ("scheme", JStr "bearer");
            ("bearerFormat", JStr "JWT") ]), bearer_scheme.
  split; [left; reflexivity|].
  repeat (split; [reflexivity|]). reflexivity.
Defined.

(** X8.  The status codes of the responses that [parseResponses]
    returns are the keys of the responses object whose value is truthy
    and is not a reference, in the order of the object. *)
Theorem parseResponses_status_codes spec isV3 responses rs :
  truthy responses = true ->
  parseResponses spec isV3 responses = Ok rs ->
  exists es,
    entries responses = Ok es /\
    map resp_statusCode rs =
    map fst (filter (fun kv => kept_response (snd kv)) es).
Proof.
  unfold parseResponses. intros Ht H. rewrite Ht in H. cbn [negb] in H.
  binds_inv H. inversion H; subst rs; clear H.
  exists v. split; [assumption|]. clear Hv.
  revert v0 Hv0. induction v as [|[code x] es IH]; intros os Hos;
    simpl in Hos.
  - inversion Hos. reflexivity.
  - binds_inv Hos. inversion Hos; subst os. clear Hos.
    apply parseResponse_kept in Hv. cbn [filter snd].
    change (somes (v :: v0)) with
      ((match v with Some a => [a] | None => [] end) ++ somes v0).
    rewrite map_app, (IH _ Hv0).
    destruct v as [r|].
    + destruct Hv as [Hc Hk]. rewrite Hk. simpl. rewrite Hc. reflexivity.
    + rewrite Hv. reflexivity.
Qed.

Lemma parseResponses_status_codes_witness :
  exists rs,
    parseResponses users_document true mixed_responses = Ok rs /\
    map resp_statusCode rs = ["200"; "default"].
Proof.
  destruct (parseResponses users_document true mixed_responses)
    as [rs|] eqn:E; [|vm_compute in E; discriminate].
  exists rs. split; [reflexivity|].
  destruct (parseResponses_status_codes users_document true mixed_responses
              rs eq_refl E) as [es [Hes Hrs]].
  vm_compute in Hes. inversion Hes; subst es. exact Hrs.
Defined.

(** X3.  In every description that [parse] returns, of either
    generation, [baseUrl] is the URL of the first entry of [servers],
    and is absent when [servers] is empty. *)
Theorem baseUrl_is_first_server (toISOString : Z -> string) fetchResult r :
  parse toISOString fetchResult = Ok r ->
  baseUrl r =
  match servers r with
  | [] => JUndef
  | s :: _ => server_url s
  end.
Proof.
  unfold parse. intros H. cbv zeta in H. binds_inv H.
  inversion H; subst r; clear H. cbn [baseUrl servers].
  match goal with
  | Hb : getBaseUrl _ ?g = Ok ?u, Hs : getServers _ _ = Ok ?l |- _ =>
      revert Hb Hs; generalize u l; generalize g;
      generalize (fr_spec fetchResult)
  end.
  clear. intros spec isV3 u l Hb Hs.
  unfold getServers in Hs. destruct isV3.
  - unfold getBaseUrl in Hb. binds_inv Hb. binds_inv Hs.
    rewrite Hv in Hv1. inversion Hv1; subst v1; clear Hv1.
    destruct v as [| |b|n|s|xs|kvs]; try discriminate;
      try (inversion Hv2; subst v2; inversion Hs; subst l;
           inversion Hv0; subst v0; inversion Hb; reflexivity).
    + destruct b; [discriminate|].
      inversion Hv2; subst v2; inversion Hs; subst l.
      inversion Hv0; subst v0; inversion Hb; reflexivity.
    + unfold or_else in Hv2. cbn [truthy] in Hv2.
      destruct (negb (n =? 0)%Z); [discriminate|].
      inversion Hv2; subst v2; inversion Hs; subst l.
      inversion Hv0; subst v0; inversion Hb; reflexivity.
    + unfold or_else in Hv2. cbn [truthy] in Hv2.
      destruct (String.eqb_spec s ""); [|discriminate]. subst s.
      inversion Hv2; subst v2; inversion Hs; subst l.
      inversion Hv0; subst v0; inversion Hb; reflexivity.
    + inversion Hv2; subst v2; clear Hv2.
      destruct xs as [|x xs].
      * inversion Hs; subst l. inversion Hv0; subst v0.
        inversion Hb; reflexivity.
      * cbn in Hv0. inversion Hv0; subst v0; clear Hv0.
        simpl in Hs. bind_inv Hs. bind_inv Hs. inversion Hs; subst l.
        match goal with
        | Hx : bind (get x "url") _ = Ok _ |- _ =>
            binds_inv Hx; inversion Hx; subst; cbn [server_url]
        end.
        destruct x; try discriminate; unfold get_opt in Hb; congruence.
  - bind_inv Hs. rewrite Hb in Hv. inversion Hv; subst v; clear Hv.
    inversion Hs; subst l; clear Hs.
    destruct (truthy u) eqn:Et; [reflexivity|].
    unfold getBaseUrl in Hb. bind_inv Hb.
    destruct (truthy v); [|inversion Hb; reflexivity].
    binds_inv Hb. cbv zeta in Hb. inversion Hb; subst u.
    exfalso. revert Et. cbn [truthy].
    destruct (toStr (or_else v1 (JStr "https"))); simpl; discriminate.
Qed.
Lemma baseUrl_is_first_server_witness :
  exists r,
    parse iso_epoch swagger_fetch = Ok r /\
    baseUrl r =
    match servers r with
    | [] => JUndef
    | s :: _ => server_url s
    end.
Proof.
  destruct (parse iso_epoch swagger_fetch) as [r|] eqn:E;
    [|vm_compute in E; discriminate].
  exists r. split; [reflexivity|].
  apply (baseUrl_is_first_server iso_epoch swagger_fetch r E).
Defined.

End RefProperties.


(* ===================================================================== *)
(** * Schemas that normalize; the table of security schemes *)
(* ===================================================================== *)

Module ShapeProperties.
Import JsString Js OpenAPIParser ShapeSpec ShapeFacts EndpointFacts.
Import DepthSpec.

(** X27.  [normalizeSchema] raises only on a malformed schema.  Let
    [P] be a set of schemas of the document in which every truthy
    schema is an object whose [$ref], when truthy, is a string, whose
    [oneOf], [anyOf] and [allOf], when truthy, are arrays, and whose
    sub-schemas (the target of the reference, the items of an array
    type, the properties, the members of the combinators) are again in
    [P]; references may form cycles.  Then [normalizeSchema] returns a
    schema for every member of [P], at every depth. *)
Theorem well_formed_schema_normalizes (P : json -> Prop) spec isV3 :
  well_formed P spec ->
  forall schema depth,
    P schema -> exists r, normalizeSchema spec isV3 schema depth = Ok r.
Proof.
  intros Hw.
  assert (Hmain : forall n depth, 11 - depth <= n ->
            forall schema, P schema ->
              exists r, normalizeSchema spec isV3 schema depth = Ok r).
  { induction n as [|n IH]; intros depth Hn schema Hp.
    - rewrite DepthFacts.normalizeSchema_beyond_cap by lia. eauto.
    - rewrite normalizeSchema_equation_1.
      destruct (le_lt_dec depth 10) as [Hle|Hgt].
      2:{ rewrite normalizeSchema_clause_1_equation_2. eauto. }
      rewrite normalizeSchema_clause_1_equation_1.
      assert (Hrec : forall s, P s ->
                exists r, normalizeSchema spec isV3 s (depth + 1) = Ok r)
        by (intros s Hs; apply IH; [lia|assumption]).
      destruct (truthy schema) eqn:Et; cbn [negb]; [|eauto].
      destruct (Hw schema Hp Et) as [kvs [-> Hk]].
      unfold node_ok in Hk.
      cbn [has get bind].
      change (of_option (assoc "$ref" kvs)) with (member kvs "$ref").
      assert (Hr : (if match assoc "$ref" kvs with
                       | Some _ => true | None => false end
                    then Ok (member kvs "$ref") else Ok JUndef)
                   = Ok (member kvs "$ref")).
      { unfold member. destruct (assoc "$ref" kvs); reflexivity. }
      rewrite Hr. cbn [bind]. rewrite present_and_truthy.
      destruct (truthy (member kvs "$ref")) eqn:Eref.
      + destruct Hk as [p [Hp' Ht]]. rewrite Hp'.
        destruct (resolveRef_total spec p) as [target Htarget].
        rewrite Htarget. cbn [bind].
        destruct (truthy target) eqn:Ett; [|eauto].
        destruct (Hrec target (Ht target Htarget Ett)) as [inner Hi].
        rewrite Hi. cbn [bind]. eauto.
      + destruct Hk as [Hitems [Hprops [Hone [Hany Hall]]]].
        destruct (getSchemaType_total kvs) as [ty Hty]. rewrite Hty.
        cbn [bind]. cbv zeta.
        change (of_option (assoc ?k kvs)) with (member kvs k).
        (* items *)
        match goal with
        | |- context [bind (if ?c then ?a else Ok None) ?k] =>
            assert (Hi : exists o, (if c then a else Ok None) = Ok o)
        end.
        { destruct (is_str (member kvs "type") "array") eqn:Ea;
            cbn [andb]; [|eauto].
          destruct (truthy (member kvs "items")) eqn:Ei; [|eauto].
          destruct (Hrec _ (Hitems eq_refl eq_refl)) as [it Hit].
          rewrite Hit. cbn [bind]. eauto. }
        destruct Hi as [items Hi]. rewrite Hi. cbn [bind].
        (* properties *)
        match goal with
        | |- context [bind (if ?c then ?a else Ok None) ?k] =>
            assert (Hpr : exists o, (if c then a else Ok None) = Ok o)
        end.
        { destruct (truthy (member kvs "properties")) eqn:Epr;
            [|rewrite andb_false_r; eauto].
          rewrite orb_true_r. cbn [andb].
          destruct (entries_total (member kvs "properties")
                      (truthy_not_nullish _ Epr)) as [es Hes].
          rewrite Hes. cbn [bind].
          specialize (Hprops eq_refl es Hes).
          match goal with |- context [mapM ?g es] =>
            destruct (mapM_total g es) as [ps Hps] end.
          - intros kv Hkv. rewrite Forall_forall in Hprops.
            destruct (Hrec _ (Hprops kv Hkv)) as [x Hx].
            rewrite Hx. cbn [bind]. eauto.
          - rewrite Hps. cbn [bind]. eauto. }
        destruct Hpr as [props Hpr]. rewrite Hpr. cbn [bind].
        destruct (list_total (fun s => normalizeSchema spec isV3 s (depth + 1))
                    P Hrec _ kvs "oneOf" eq_refl Hone) as [o1 H1].
        destruct (list_total (fun s => normalizeSchema spec isV3 s (depth + 1))
                    P Hrec _ kvs "anyOf" eq_refl Hany) as [o2 H2].
        destruct (list_total (fun s => normalizeSchema spec isV3 s (depth + 1))
                    P Hrec _ kvs "allOf" eq_refl Hall) as [o3 H3].
        cbv beta in H1, H2, H3.
        rewrite H1. cbn [bind]. rewrite H2. cbn [bind].
        rewrite H3. cbn [bind]. eauto. }
  intros schema depth Hp. apply (Hmain (11 - depth) depth (le_n _) schema Hp).
Qed.
Lemma well_formed_schema_normalizes_witness :
  well_formed list_nodes cyclic_document /\
  exists r, normalizeSchema cyclic_document false node_ref 0 = Ok r.
Proof.
  assert (Hw : well_formed list_nodes cyclic_document).
  { intros s [-> | ->] _.
    - eexists. split; [reflexivity|]. unfold node_ok. cbn.
      exists "#/definitions/Node". split; [reflexivity|].
      intros target Ht _. vm_compute in Ht. inversion Ht.
      right. reflexivity.
    - eexists. split; [reflexivity|]. unfold node_ok, list_of. cbn.
      repeat split; try discriminate.
      intros _ es Hes. inversion Hes. repeat constructor. }
  split; [exact Hw|].
  apply (well_formed_schema_normalizes list_nodes cyclic_document false Hw
           node_ref 0).
  left. reflexivity.
Defined.

End ShapeProperties.

Module SchemeProperties.
Import JsString Js OpenAPIParser SchemeSpec SchemeFacts EndpointFacts.
Import RefFacts TestDocuments.

(** X28.  The table of security schemes of a description and the
    security requirements of its endpoints are normalized alike: when
    the document declares its schemes in an object, every entry
    [(name, s)] of the table that [parseSecuritySchemes] returns comes
    from the declaration of [name], and [getSecurityScheme], by which
    [parseSecurity] resolves a requirement, returns [s] for that name
    whenever the declaration is truthy. *)
Theorem declared_schemes_agree spec isV3 kvs table name s :
  declared spec isV3 = Ok (JObj kvs) ->
  NoDup (map fst kvs) ->
  parseSecuritySchemes spec isV3 = Ok table ->
  In (name, s) table ->
  exists scheme,
    assoc name kvs = Some scheme /\
    (truthy scheme = true ->
     getSecurityScheme spec isV3 name = Ok (Some s)).
Proof.
  unfold declared, parseSecuritySchemes, getSecurityScheme.
  intros Hd Hn Hp Hin. destruct isV3.
  - bind_inv Hd. bind_inv Hp. rewrite Hv in Hv0. inversion Hv0; subst v0.
    bind_inv Hp. rewrite Hd in Hv1. inversion Hv1; subst v0.
    cbn [or_else truthy entries bind] in Hp.
    bind_inv Hp. inversion Hp; subst table; clear Hp.
    apply somes_In in Hin.
    apply (mapM_In _ _ _ Hv2) in Hin.
    destruct Hin as [[k scheme] [Hk Hs]]. cbn [fst snd] in Hs.
    bind_inv Hs.
    match goal with
    | Hh : has "$ref" scheme = Ok ?b |- _ => destruct b; [discriminate|]
    end.
    bind_inv Hs. inversion Hs; subst. clear Hs.
    exists scheme. split; [apply assoc_unique; assumption|].
    intros Ht. rewrite Hv. cbn [bind]. rewrite Hd. cbn [bind get_opt get].
    rewrite (assoc_unique _ _ _ Hn Hk). cbn [of_option bind].
    rewrite Ht. cbn [negb].
    match goal with
    | Hh : normalizeSecurityScheme _ _ = Ok _ |- _ => rewrite Hh
    end.
    reflexivity.
  - bind_inv Hp. rewrite Hd in Hv. inversion Hv; subst v.
    cbn [or_else truthy entries bind] in Hp.
    apply (mapM_In _ _ _ Hp) in Hin.
    destruct Hin as [[k scheme] [Hk Hs]]. cbn [fst snd] in Hs.
    bind_inv Hs. inversion Hs; subst. clear Hs.
    exists scheme. split; [apply assoc_unique; assumption|].
    intros Ht. rewrite Hd. cbn [bind get_opt get].
    rewrite (assoc_unique _ _ _ Hn Hk). cbn [of_option bind].
    rewrite Ht. cbn [negb].
    match goal with
    | Hh : normalizeSecuritySchemeV2 _ _ = Ok _ |- _ => rewrite Hh
    end.
    reflexivity.
Qed.
Lemma declared_schemes_agree_witness :
  exists scheme,
    assoc "bearerAuth" bearer_entries = Some scheme /\
    (truthy scheme = true ->
     getSecurityScheme secure_document true "bearerAuth" =
     Ok (Some bearer_scheme)).
Proof.
  destruct (parseSecuritySchemes secure_document true) as [table|] eqn:E;
    [|vm_compute in E; discriminate].
  apply (declared_schemes_agree secure_document true bearer_entries table
           "bearerAuth" bearer_scheme eq_refl).
  - repeat constructor. intros [].
  - exact E.
  - vm_compute in E. inversion E. left. reflexivity.
Defined.

End SchemeProperties.

(* ===================================================================== *)
(** * Search: letter case *)
(* ===================================================================== *)

Module CaseProperties.
Import JsString Js Search ToolHandler CaseSpec CaseFacts SearchExamples.

(** X29.  For a query and filters of ASCII characters, [searchEndpoints]
    does not tell upper case from lower case in what the caller gives:
    the query in upper case or in lower case, and the method and tag
    filters in upper case, give the result of the query and the filters
    as written. *)
Theorem search_ignores_case spec query filters :
  ascii_only query = true ->
  ascii_filters filters = true ->
  searchEndpoints spec (toUpperCase query) filters =
    searchEndpoints spec query filters /\
  searchEndpoints spec (toLowerCase query) filters =
    searchEndpoints spec query filters /\
  searchEndpoints spec query
    (mkFilters (option_map toUpperCase (filter_method filters))
       (option_map toUpperCase (filter_tag filters))) =
    searchEndpoints spec query filters.
Proof.
  intros _ _. unfold searchEndpoints. cbv zeta.
  rewrite lower_upper, lower_lower.
  split; [reflexivity|]. split; [reflexivity|].
  f_equal. unfold apply_filters. cbn [filter_method filter_tag].
  rewrite !nonempty_upper.
  destruct (nonempty (filter_method filters)) as [m|],
           (nonempty (filter_tag filters)) as [t|];
    cbn [option_map]; rewrite ?lower_upper; reflexivity.
Qed.

Lemma search_ignores_case_witness :
  searchEndpoints sample_spec "GETUSERS" (mkFilters (Some "Get") None) =
    searchEndpoints sample_spec "getUsers" (mkFilters (Some "Get") None) /\
  searchEndpoints sample_spec "getusers" (mkFilters (Some "Get") None) =
    searchEndpoints sample_spec "getUsers" (mkFilters (Some "Get") None) /\
  searchEndpoints sample_spec "getUsers" (mkFilters (Some "GET") None) =
    searchEndpoints sample_spec "getUsers" (mkFilters (Some "Get") None) /\
  exists found,
    searchEndpoints sample_spec "getUsers" (mkFilters (Some "Get") None) =
      Ok found /\
    length found = 1.
Proof.
  destruct (search_ignores_case sample_spec "getUsers"
              (mkFilters (Some "Get") None) eq_refl eq_refl)
    as [H1 [H2 H3]].
  split; [exact H1|]. split; [exact H2|]. split; [exact H3|].
  eexists. split; [vm_compute; reflexivity|reflexivity].
Defined.
End CaseProperties.

(* ===================================================================== *)
(** * From the document to the search *)
(* ===================================================================== *)

Module TypedProperties.
Import JsString Js OpenAPIParser Search SearchSpec SearchFacts.
Import EndpointSpec EndpointFacts TypedSpec TypedFacts ParserExamples.

(** X30.  From the document to the search: when the [operationId],
    [summary] and [description] of every operation of the document are
    strings or absent and its [tags] an array of strings or absent,
    every endpoint of the description that [parse] returns is typed as
    [types.ts] declares, and [searchEndpoints] on that description
    returns for every query and every filter; it does not raise. *)
Theorem parsed_document_is_searchable toISOString fetchResult r :
  typed_document (fr_spec fetchResult) ->
  parse toISOString fetchResult = Ok r ->
  forallb well_typed (endpoints r) = true /\
  forall query filters,
    exists found, searchEndpoints r query filters = Ok found.
Proof.
  intros Hd Hp. unfold parse in Hp. cbv zeta in Hp.
  do 2 bind_inv Hp.
  assert (Ht : forall ep, In ep v0 -> well_typed ep = true).
  { pose proof Hv0 as He. unfold parseEndpoints in He.
    bind_inv He. cbv zeta in He. bind_inv He.
    assert (Hes : path_entries (fr_spec fetchResult) = Ok v2).
    { unfold path_entries. rewrite Hv1. cbn [bind]. assumption. }
    intros ep Hin.
    destruct (parseEndpoints_characterized _ _ _ _ Hes Hv0) as [_ Hc].
    apply Hc in Hin.
    destruct Hin as [Hm [pathItem [Hi [Hti [op [Hop [Hto Hpo]]]]]]].
    eapply parseOperation_typed; [exact Hpo|].
    eapply Hd; eassumption. }
  binds_inv Hp. inversion Hp; subst r; clear Hp. cbn [endpoints].
  split; [apply forallb_forall; assumption|].
  intros query filters. apply typed_search_total. assumption.
Qed.
Lemma parsed_document_is_searchable_witness :
  exists r,
    parse iso_epoch users_fetch = Ok r /\
    forallb well_typed (endpoints r) = true /\
    forall query filters,
      exists found, searchEndpoints r query filters = Ok found.
Proof.
  destruct (parse iso_epoch users_fetch) as [r|] eqn:E;
    [|vm_compute in E; discriminate].
  exists r. split; [reflexivity|].
  apply (parsed_document_is_searchable iso_epoch users_fetch r); [|exact E].
  intros es p pathItem m operation Hes Hin Hm Hop Ht.
  vm_compute in Hes. inversion Hes; subst es; clear Hes.
  repeat match goal with
         | Hx : In _ [] |- _ => destruct Hx
         | Hx : In _ _ |- _ => destruct Hx as [Hx|Hx]
         | Hx : (_, _) = (_, _) |- _ => inversion Hx; subst; clear Hx
         | Hx : False |- _ => destruct Hx
         | Hx : _ = m |- _ => subst m
         end;
    vm_compute in Hop; inversion Hop; try subst operation;
    first [vm_compute in Ht; discriminate Ht | reflexivity].
Defined.

End TypedProperties.


(* ===================================================================== *)
(** * Cache: invariants of every schedule, and metadata *)
(* ===================================================================== *)

Module CacheMoreProperties.
Import SpecCache CacheSpec FlightSpec FlightFacts SpecCacheMetadata.

(** X9.  Take a cache on which no refresh is in flight: newly
    constructed or used before, its slot empty or filled, its
    auto-refresh timer started by [startAutoRefresh] or not.  Whatever
    the schedule of calls, timer firings, settlements, polls and clock
    ticks from there, [isRefreshing] is set exactly while one call awaits
    the producer: the producer is never invoked a second time before its
    pending invocation has settled. *)
Theorem single_flight c t0 evs w :
  isRefreshing c = false ->
  run evs (mkWorld c t0 [] 0 []) = Some w ->
  awaiting w = (if isRefreshing (obj w) then 1 else 0) /\ awaiting w <= 1.
Proof.
  intros Hc Hrun.
  assert (H : awaiting w = flag_count w).
  { eapply run_flight; [eassumption|].
    unfold flag_count. cbn [obj tasks]. rewrite Hc. reflexivity. }
  split; [exact H|]. rewrite H. unfold flag_count.
  destruct (isRefreshing (obj w)); lia.
Qed.

Lemma single_flight_witness :
  exists w,
    run [Fire; Call; Tick 100; Wake 1; Fire; Tick 400;
         Settle 0 (inr "upstream unavailable"); Fire; Wake 2; Call]
      (mkWorld (startAutoRefresh (create 600000 true)) 0 [] 0 []) = Some w /\
    invocations w = 2 /\
    isRefreshing (obj w) = true /\
    awaiting w = (if isRefreshing (obj w) then 1 else 0) /\ awaiting w <= 1.
Proof.
  destruct (run [Fire; Call; Tick 100; Wake 1; Fire; Tick 400;
                 Settle 0 (inr "upstream unavailable"); Fire; Wake 2; Call]
              (mkWorld (startAutoRefresh (create 600000 true)) 0 [] 0 []))
    as [w|] eqn:E; [|vm_compute in E; discriminate].
  exists w. split; [reflexivity|].
  split; [vm_compute in E; inversion E; reflexivity|].
  split; [vm_compute in E; inversion E; reflexivity|].
  apply (single_flight (startAutoRefresh (create 600000 true)) 0
           [Fire; Call; Tick 100; Wake 1; Fire; Tick 400;
            Settle 0 (inr "upstream unavailable"); Fire; Wake 2; Call] w
           eq_refl E).
Defined.

(** X10.  Whatever the schedule on a new cache, the slot holds nothing
    but a description that the producer returned during the schedule; it
    was stored between the construction and now, and expires one time
    to live after it was stored. *)
Theorem cached_entry_was_produced ttl producer t0 evs w e :
  run evs (fresh ttl producer t0) = Some w ->
  cache (obj w) = Some e ->
  produced (data e) evs /\
  expiresAt e = (createdAt e + ttl)%Z /\
  (t0 <= createdAt e <= now w)%Z.
Proof.
  intros Hrun Hc. destruct (run_slot _ _ _ Hrun) as [_ [_ [H|H]]].
  - rewrite Hc in H. discriminate.
  - destruct H as [e' [He' H]]. rewrite Hc in He'. inversion He'; subst e'.
    exact H.
Qed.

Lemma cached_entry_was_produced_witness :
  exists w e,
    run [Call; Tick 250; Settle 0 (inl (titled "new")); Tick 1000]
      (fresh 600000 true 0) = Some w /\
    cache (obj w) = Some e /\
    produced (data e)
      [Call; Tick 250; Settle 0 (inl (titled "new")); Tick 1000] /\
    expiresAt e = (createdAt e + 600000)%Z /\
    (0 <= createdAt e <= now w)%Z.
Proof.
  destruct (run [Call; Tick 250; Settle 0 (inl (titled "new")); Tick 1000]
              (fresh 600000 true 0)) as [w|] eqn:E;
    [|vm_compute in E; discriminate].
  destruct (cache (obj w)) as [e|] eqn:Ec;
    [|vm_compute in E; inversion E; subst w; discriminate].
  exists w, e. split; [reflexivity|]. split; [exact Ec|].
  apply (cached_entry_was_produced 600000 true 0 _ w e E Ec).
Defined.

(** X11.  Once the producer has returned a description at time [t],
    [getOrRefresh] serves that description without invoking the producer
    for as long as no later refresh succeeds and the clock is at most
    [t + ttl]; after that it begins a refresh. *)
Theorem getOrRefresh_after_success i spec w w1 evs w2 :
  step (Settle i (inl spec)) w = Some w1 ->
  forallb no_success evs = true ->
  run evs w1 = Some w2 ->
  getOrRefresh w2 =
  if (now w2 <=? now w + ttlMs (obj w))%Z then inl spec
  else inr (refresh Caller w2).
Proof.
  intros Hs Hq Hrun.
  destruct (CacheFacts.run_keeps_slot _ _ _ Hq Hrun) as [Hc _].
  simpl in Hs.
  destruct (nth_error (tasks w) i) as [[o [|due|]]|]; try discriminate.
  inversion Hs; subst w1; clear Hs. cbn in Hc.
  unfold getOrRefresh, get, isExpired. rewrite Hc. cbn.
  destruct (now w2 <=? now w + ttlMs (obj w))%Z eqn:E.
  - apply Z.leb_le in E.
    replace (now w2 >? now w + ttlMs (obj w))%Z with false
      by (symmetry; rewrite Z.gtb_ltb; apply Z.ltb_ge; lia).
    reflexivity.
  - apply Z.leb_gt in E.
    replace (now w2 >? now w + ttlMs (obj w))%Z with true
      by (symmetry; rewrite Z.gtb_ltb; apply Z.ltb_lt; lia).
    reflexivity.
Qed.

Lemma getOrRefresh_after_success_witness :
  exists w w1 w2,
    run [Call; Tick 250] (fresh 600000 true 0) = Some w /\
    step (Settle 0 (inl (titled "new"))) w = Some w1 /\
    run [Tick 600000] w1 = Some w2 /\
    getOrRefresh w2 = inl (titled "new").
Proof.
  destruct (run [Call; Tick 250] (fresh 600000 true 0)) as [w|] eqn:E;
    [|vm_compute in E; discriminate].
  destruct (step (Settle 0 (inl (titled "new"))) w) as [w1|] eqn:E1;
    [|vm_compute in E; inversion E; subst w; vm_compute in E1; discriminate].
  destruct (run [Tick 600000] w1) as [w2|] eqn:E2;
    [|vm_compute in E; inversion E; subst w;
      vm_compute in E1; inversion E1; subst w1;
      vm_compute in E2; discriminate].
  exists w, w1, w2.
  split; [reflexivity|]. split; [exact E1|]. split; [exact E2|].
  rewrite (getOrRefresh_after_success 0 (titled "new") w w1 [Tick 600000] w2
             E1 eq_refl E2).
  vm_compute in E; inversion E; subst w.
  vm_compute in E1; inversion E1; subst w1.
  vm_compute in E2; inversion E2; subst w2. reflexivity.
Defined.

(** X12.  [getMetadata] and [get] agree: [get] returns a description
    exactly when the metadata say cached and not expired.  After
    [set] at time [t0] the metadata at a later time say cached, expired
    exactly when the clock is past [t0 + ttl], and give the age in whole
    seconds, rounded down. *)
Theorem getMetadata_agrees_with_get toISOString time c :
  (get time c <> None <->
   isCached (getMetadata toISOString time c) = true /\
   meta_isExpired (getMetadata toISOString time c) = false) /\
  (forall spec t0,
     (t0 <= time)%Z ->
     let m := getMetadata toISOString time (set t0 spec c) in
     isCached m = true /\
     meta_isExpired m = (time >? t0 + ttlMs c)%Z /\
     exists age,
       ageSeconds m = Some age /\
       (0 <= age /\ 1000 * age <= time - t0 < 1000 * age + 1000)%Z).
Proof.
  split.
  - unfold get, getMetadata, isExpired.
    destruct (cache c) as [e|]; cbn.
    + destruct (time >? expiresAt e)%Z; split; intros H;
        try congruence; try tauto; destruct H; congruence.
    + split; [congruence|intros [H _]; discriminate].
  - intros spec t0 Ht m. subst m. unfold getMetadata, set, isExpired.
    cbn [cache with_cache createdAt expiresAt isCached meta_isExpired
         ageSeconds ttlMs].
    split; [reflexivity|]. split; [reflexivity|].
    exists ((time - t0) / 1000)%Z. split; [reflexivity|].
    pose proof (Z.div_mod (time - t0) 1000 ltac:(lia)) as Hd.
    pose proof (Z.mod_pos_bound (time - t0) 1000 ltac:(lia)) as Hm.
    assert (0 <= (time - t0) / 1000)%Z by (apply Z.div_pos; lia).
    lia.
Qed.
Lemma getMetadata_agrees_with_get_witness :
  let m := getMetadata (fun _ => "1970-01-01T00:00:00.000Z") 61500
             (set 0 (titled "new") (create 600000 true)) in
  isCached m = true /\ meta_isExpired m = false /\ ageSeconds m = Some 61%Z.
Proof.
  destruct (getMetadata_agrees_with_get
              (fun _ => "1970-01-01T00:00:00.000Z") 61500
              (create 600000 true)) as [_ H].
  destruct (H (titled "new") 0%Z ltac:(lia)) as [H1 [H2 [age [H3 H4]]]].
  cbv zeta. split; [exact H1|]. split; [reflexivity|reflexivity].
Defined.

End CacheMoreProperties.

